(** * tiles2048: board, generator, history, cache and searchers

  A shallow embedding of [tiles2048.cpp].  Unsigned machine integers are
  modelled as [Z] with their wrap-around written out, the board as a list
  of sixteen cells updated by index, and the searchers as state-passing
  functions over the move counter, the cancellation flag and the cache.
  An [assert] that guards a key or a packed cell ([pack_board_state],
  [BoardCache::get] and [put], the windows of the caching alpha-beta
  search) is modelled as the abort it causes: the function returns
  [None].  The other [assert]s of the source are preconditions: they
  appear as hypotheses of the theorems. *)

From Stdlib Require Import ZArith Lia List Bool.
From stdpp Require Import base option list.
Import ListNotations.
Local Open Scope Z_scope.

(** ** Machine integers *)

Definition UINT32_MAX : Z := 4294967295.
Definition INT_MAX : Z := 2147483647.
Definition INT_MIN : Z := -2147483648.

(** Truncation of a value to [uint32_t], [uint64_t] and [uint8_t]. *)
Definition u32 (v : Z) : Z := v mod 2 ^ 32.
Definition u64 (v : Z) : Z := v mod 2 ^ 64.
Definition u8 (v : Z) : Z := v mod 2 ^ 8.

(** [int]: 32 bits in two's complement.  A sum that leaves the range
    wraps around, as it does in the compiled code. *)
Definition i32 (v : Z) : Z := (v + 2 ^ 31) mod 2 ^ 32 - 2 ^ 31.

(** ** struct RNG *)

Module RNG.

Record t : Type := mk { x : Z; y : Z; z : Z; w : Z }.

(** One round of [v ^= v << 13; v ^= v >> 17; v ^= v << 5] as [reset]
    applies it to derive [y], [z] and [w]. *)
Definition scramble (v : Z) : Z :=
  let a := Z.lxor v (u32 (Z.shiftl v 13)) in
  let b := Z.lxor a (Z.shiftr a 17) in
  Z.lxor b (u32 (Z.shiftl b 5)).

Definition reset (seed : Z) : t :=
  let x0 := if seed =? 0 then 123456789 else seed in
  let y0 := scramble x0 in
  let z0 := scramble y0 in
  let w0 := scramble z0 in
  mk x0 y0 z0 w0.

Definition next32 (r : t) : Z * t :=
  let t0 := Z.lxor (x r) (u32 (Z.shiftl (x r) 15)) in
  let t1 := Z.lxor (Z.lxor (w r) (Z.shiftr (w r) 21))
                   (Z.lxor t0 (Z.shiftr t0 4)) in
  (t1, mk (y r) (z r) (w r) t1).

Definition next64 (r : t) : Z * t :=
  let '(a, r1) := next32 r in
  let '(b, r2) := next32 r1 in
  (Z.lor (u64 (Z.shiftl a 32)) b, r2).

(** [do { value = next32(); } while (value >= range);] with the number of
    draws bounded by [fuel]; [None] stands for a loop that is still
    running after [fuel] draws. *)
Fixpoint redraw (fuel : nat) (range : Z) (r : t) : option (Z * t) :=
  match fuel with
  | O => None
  | S fuel' =>
      let '(value, r') := next32 r in
      if value >=? range then redraw fuel' range r' else Some (value, r')
  end.

Definition next_n_fuel (fuel : nat) (n : Z) (r : t) : option (Z * t) :=
  let range := UINT32_MAX - UINT32_MAX mod n in
  match redraw fuel range r with
  | Some (value, r') => Some (value / ((range - 1) / n + 1), r')
  | None => None
  end.

(** No state of the generator makes the loop draw more than 129 times
    (lemma [next_n_draws] below), so the loop is unrolled that far. *)
Definition max_draws : nat := 129.

Definition next_n (n : Z) (r : t) : option (Z * t) :=
  next_n_fuel max_draws n r.

(** The state after [k] draws and the raw value of draw number [k]
    (counted from 0), to speak about the draws [next_n] consumes. *)
Fixpoint skip (k : nat) (r : t) : t :=
  match k with
  | O => r
  | S k' => skip k' (snd (next32 r))
  end.

Definition draw_at (k : nat) (r : t) : Z := fst (next32 (skip k r)).

(** The four words are [uint32_t]. *)
Definition wf (r : t) : Prop :=
  0 <= x r < 2 ^ 32 /\ 0 <= y r < 2 ^ 32 /\
  0 <= z r < 2 ^ 32 /\ 0 <= w r < 2 ^ 32.

(** Proof device: the generator is linear over GF(2), so its draws obey
    a linear recurrence.  [taps] marks the 43 terms of that recurrence
    among 129 consecutive draws and [tap_xor] is their exclusive or. *)
Definition lxor_state (a b : t) : t :=
  mk (Z.lxor (x a) (x b)) (Z.lxor (y a) (y b))
     (Z.lxor (z a) (z b)) (Z.lxor (w a) (w b)).

Definition tap_positions : list nat :=
  [0; 15; 17; 18; 20; 21; 25; 27; 29; 30; 31; 33; 34; 35; 36; 37; 38; 40;
   42; 49; 54; 58; 60; 64; 65; 66; 69; 70; 72; 73; 74; 75; 77; 81; 82; 84;
   85; 91; 93; 95; 96; 105; 128]%nat.

Definition taps : list bool :=
  map (fun i => existsb (Nat.eqb i) tap_positions) (seq 0 129).

Fixpoint tap_xor (mask : list bool) (r : t) : Z :=
  match mask with
  | [] => 0
  | b :: mask' =>
      let '(v, r') := next32 r in
      Z.lxor (if b then v else 0) (tap_xor mask' r')
  end.

Definition parity (mask : list bool) : bool := fold_right xorb false mask.

(** The recurrence holds on the 128 one-bit states. *)
Definition basis_ok (mask : list bool) : bool :=
  forallb (fun i =>
    (tap_xor mask (mk (2 ^ Z.of_nat i) 0 0 0) =? 0) &&
    (tap_xor mask (mk 0 (2 ^ Z.of_nat i) 0 0) =? 0) &&
    (tap_xor mask (mk 0 0 (2 ^ Z.of_nat i) 0) =? 0) &&
    (tap_xor mask (mk 0 0 0 (2 ^ Z.of_nat i)) =? 0)) (seq 0 32).

End RNG.


(** ** struct Board *)

(** The calls a tilt or a placement makes on its [AnimState *anim], in
  order.  The key-frame curves that [AnimState] derives from each call
  are presentation only and are not modelled. *)
Inductive anim_event : Type :=
| AnimMerge (from0 from1 to old_value : Z)
| AnimSlide (from to value : Z)
| AnimBlank (where_ : Z)
| AnimNewTile (where_ value : Z).

Definition is_merge (e : anim_event) : bool :=
match e with AnimMerge _ _ _ _ => true | _ => false end.

(** [enum MoveDir] and the tables indexed by it. *)
Definition MOVE_LEFT : Z := 0.
Definition MOVE_UP : Z := 2.
Definition MOVE_DOWN : Z := 3.

Definition DIR_DX (dir : Z) : Z := nth (Z.to_nat dir) [-1; 1; 0; 0] 0.
Definition DIR_DY (dir : Z) : Z := nth (Z.to_nat dir) [0; 0; -1; 1] 0.

Module Board.

Definition TILES_X : Z := 4.
Definition TILES_Y : Z := 4.
Definition NUM_TILES : Z := TILES_X * TILES_Y.
Definition MAX_POWER : Z := 15.

(** [typedef uint8_t BoardState[NUM_TILES]] *)
Abbreviation t := (list Z) (only parsing).

Definition wf (b : t) : Prop :=
  length b = 16%nat /\ Forall (fun v => 0 <= v < 256) b.

(** [state[i]] and [state[i] = v]. *)
Definition get (b : t) (i : Z) : Z := default 0 (b !! Z.to_nat i).
Definition set (b : t) (i v : Z) : t := <[Z.to_nat i := v]> b.

Definition reset : t := replicate 16 0.

Definition cells : list Z := map Z.of_nat (seq 0 16).

(** [count_free(free)]: the number of empty cells, and the initialised
    prefix of the [free] array. *)
Definition count_free (b : t) : Z * list Z :=
  fold_left
    (fun (acc : Z * list Z) (i : Z) =>
       let '(nfree, free) := acc in
       ((if get b i =? 0 then nfree + 1 else nfree),
        (if get b i =? 0 then free ++ [i] else free)))
    cells (0, []).

(** The inner loops of [has_direct_matches]: [at] walks [n - 1] pairs
    [(at[0], at[stride])]. *)
Fixpoint pair_walk (k : nat) (b : t) (at_ stride : Z) : bool :=
  match k with
  | O => false
  | S k' =>
      if negb (get b at_ =? 0) && (get b at_ =? get b (at_ + stride))
      then true
      else pair_walk k' b (at_ + stride) stride
  end.

Definition row_matches (b : t) : bool :=
  existsb (fun i => pair_walk 3 b (i * TILES_X) 1) [0; 1; 2; 3].

Definition col_matches (b : t) : bool :=
  existsb (fun j => pair_walk 3 b j TILES_X) [0; 1; 2; 3].

Definition has_direct_matches (b : t) : bool :=
  row_matches b || col_matches b.

Definition finished (b : t) : bool :=
  (fst (count_free b) =? 0) && negb (has_direct_matches b).

(** [for (i = which + 1; i < nfree; ++i) free[i-1] = free[i];] *)
Fixpoint shift_down (k : nat) (i : Z) (free : list Z) : list Z :=
  match k with
  | O => free
  | S k' =>
      shift_down k' (i + 1)
        (<[Z.to_nat (i - 1) := nth (Z.to_nat i) free 0]> free)
  end.

(** The loop of [place]; [None] when a draw does not return. *)
Fixpoint place_loop (count : nat) (b : t) (free : list Z) (nfree : Z)
    (anim : list anim_event) (rng : RNG.t)
    : option (t * list anim_event * RNG.t) :=
  match count with
  | O => Some (b, anim, rng)
  | S count' =>
      if nfree =? 0 then Some (b, anim, rng)
      else
        match RNG.next_n 10 rng with
        | None => None
        | Some (tier, rng1) =>
            let value := if tier <? 9 then 1 else 2 in
            match RNG.next_n nfree rng1 with
            | None => None
            | Some (which, rng2) =>
                let slot := nth (Z.to_nat which) free 0 in
                let b' := set b slot value in
                let free' :=
                  shift_down (Z.to_nat (nfree - (which + 1))) (which + 1) free in
                place_loop count' b' free' (nfree - 1)
                           (anim ++ [AnimNewTile slot value]) rng2
            end
        end
  end.

(** [place(count, anim, rng)]; [anim] holds the calls made so far. *)
Definition place (count : nat) (b : t) (anim : list anim_event) (rng : RNG.t)
    : option (t * list anim_event * RNG.t) :=
  let '(nfree, free) := count_free b in
  place_loop count b free nfree anim rng.

(** [1 << n] on [int].  The shift instruction takes the count modulo 32;
    C++ leaves counts of 32 and more undefined, and no theorem below
    depends on them. *)
Definition shl1 (n : Z) : Z := i32 (Z.shiftl 1 (Z.land n 31)).

(** The local variables of one pass of [tilt] over a line, together
    with what it accumulates. *)
Record pass : Type := mkPass {
  state : t;
  from : Z;
  to : Z;
  last_value : Z;
  last_from : Z;
  moved : bool;
  score : Z;
  anim : list anim_event
}.

(** Body of [while (from != stop)]. *)
Definition scan_body (step_minor : Z) (p : pass) : pass :=
  let here := get (state p) (from p) in
  if negb (here =? 0) then
    if negb (last_value p =? 0) then
      if last_value p =? here then
        mkPass (set (state p) (to p) (u8 (last_value p + 1)))
               (from p + step_minor) (to p + step_minor)
               0 (last_from p)
               true
               (i32 (score p + shl1 (last_value p + 1)))
               (anim p ++ [AnimMerge (last_from p) (from p) (to p) (last_value p)])
      else
        mkPass (set (state p) (to p) (last_value p))
               (from p + step_minor) (to p + step_minor)
               here (from p)
               (if negb (last_from p =? to p) then true else moved p)
               (score p)
               (anim p ++ [AnimSlide (last_from p) (to p) (last_value p)])
    else
      mkPass (state p) (from p + step_minor) (to p)
             here (from p) (moved p) (score p) (anim p)
  else
    mkPass (state p) (from p + step_minor) (to p)
           (last_value p) (last_from p) (moved p) (score p) (anim p).

(** A line has [m = 4] cells, so neither loop of a pass runs more than
    [m] times; [fuel] is that bound. *)
Fixpoint scan (fuel : nat) (step_minor stop : Z) (p : pass) : pass :=
  if from p =? stop then p
  else match fuel with
       | O => p
       | S fuel' => scan fuel' step_minor stop (scan_body step_minor p)
       end.

(** [if (last_value) { ... }] after the scan. *)
Definition flush (step_minor : Z) (p : pass) : pass :=
  if negb (last_value p =? 0) then
    mkPass (set (state p) (to p) (last_value p))
           (from p) (to p + step_minor)
           (last_value p) (last_from p)
           (if negb (last_from p =? to p) then true else moved p)
           (score p)
           (anim p ++ [AnimSlide (last_from p) (to p) (last_value p)])
  else p.

(** [while (to != stop) { state[to] = 0; to += step_minor; }] *)
Fixpoint blank (fuel : nat) (step_minor stop : Z) (p : pass) : pass :=
  if to p =? stop then p
  else match fuel with
       | O => p
       | S fuel' =>
           blank fuel' step_minor stop
             (mkPass (set (state p) (to p) 0)
                     (from p) (to p + step_minor)
                     (last_value p) (last_from p) (moved p) (score p)
                     (anim p ++ [AnimBlank (to p)]))
       end.

(** One iteration of [for (i = 0; i < n; ++i)]: the pass over the line
    that starts at [begin]. *)
Definition tilt_line (begin_ step_minor m : Z)
    (acc : t * bool * Z * list anim_event) : pass :=
  let '(b, moved0, score0, anim0) := acc in
  let stop := begin_ + m * step_minor in
  let p0 := mkPass b begin_ begin_ 0 begin_ moved0 score0 anim0 in
  let p1 := scan (Z.to_nat m) step_minor stop p0 in
  let p2 := flush step_minor p1 in
  blank (Z.to_nat m) step_minor stop p2.

Fixpoint tilt_lines (n : nat) (begin_ step_major step_minor m : Z)
    (acc : t * bool * Z * list anim_event) : t * bool * Z * list anim_event :=
  match n with
  | O => acc
  | S n' =>
      let p := tilt_line begin_ step_minor m acc in
      tilt_lines n' (begin_ + step_major) step_major step_minor m
                 (state p, moved p, score p, anim p)
  end.

(** [tilt(dx, dy, anim, score)]: the new board, [moved], [*score] after
    the call when it was 0 before, and the calls made on [anim].  From
    another value [old] of [*score] the call leaves [i32 (old + score)]. *)
Definition tilt (dx dy : Z) (b : t) : t * bool * Z * list anim_event :=
  let begin_ := if Z.lor dx dy >? 0 then NUM_TILES - 1 else 0 in
  let step_major := - (dx * TILES_X + dy) in
  let step_minor := - (dy * TILES_X + dx) in
  let n := if negb (dx =? 0) then TILES_Y else TILES_X in
  let m := if negb (dx =? 0) then TILES_X else TILES_Y in
  tilt_lines (Z.to_nat n) begin_ step_major step_minor m (b, false, 0, []).

(** [move(dir, anim, rng, score)]: board, [moved], [*score] after the
    call when it was 0 before, animation calls since [anim->reset()],
    generator. *)
Definition move (dir : Z) (b : t) (rng : RNG.t)
    : option (t * bool * Z * list anim_event * RNG.t) :=
  let '(b1, moved1, score1, anim1) := tilt (DIR_DX dir) (DIR_DY dir) b in
  if moved1 then
    match place 1 b1 anim1 rng with
    | Some (b2, anim2, rng2) => Some (b2, moved1, score1, anim2, rng2)
    | None => None
    end
  else Some (b1, moved1, score1, anim1, rng).

(** The empty cells in row-major order, as [count_free] lists them. *)
Definition free_list (b : t) : list Z :=
  List.filter (fun i => get b i =? 0) cells.

(** What the loop of [place] maintains: [free[0 .. nfree)] lists the
    empty cells of the board. *)
Definition free_inv (b : t) (free : list Z) (nfree : Z) : Prop :=
  length b = 16%nat /\ nfree = Z.of_nat (length (free_list b)) /\
  (Z.to_nat nfree <= length free)%nat /\
  (forall j, (j < Z.to_nat nfree)%nat -> nth j free 0 = nth j (free_list b) 0).

(** A pass only ever calls [merge], [slide] and [blank] on [anim]. *)
Definition no_new_tile (anim : list anim_event) : Prop :=
  Forall (fun e => match e with AnimNewTile _ _ => False | _ => True end) anim.


(** The components of what [tilt] returns. *)
Definition tilt_state (r : t * bool * Z * list anim_event) : t := fst (fst (fst r)).
Definition tilt_moved (r : t * bool * Z * list anim_event) : bool := snd (fst (fst r)).
Definition tilt_anim (r : t * bool * Z * list anim_event) : list anim_event := snd r.

(** Sixteen cells with values in [0, hi]. *)
Definition in_range (hi : Z) (b : t) : Prop :=
  length b = 16%nat /\ Forall (fun v => 0 <= v <= hi) b.

(** The half of [has_direct_matches] that looks along the axis of the
    move: rows for left and right, columns for up and down. *)
Definition axis_matches (dir : Z) (b : t) : bool :=
  if dir <? MOVE_UP then row_matches b else col_matches b.

(** Number of non-empty cells and total value mass of a board. *)
Definition count_tiles (b : t) : Z :=
  fold_right (fun v acc => (if v =? 0 then 0 else 1) + acc) 0 b.

Definition mass (b : t) : Z :=
  fold_right (fun v acc => (if v =? 0 then 0 else 2 ^ v) + acc) 0 b.

(** Number of [anim->merge] calls, and the sum of [2 ^ (old_value + 1)]
    over them. *)
Definition merges (anim : list anim_event) : Z :=
  fold_right (fun e acc => if is_merge e then 1 + acc else acc) 0 anim.

Definition merged_magnitude (anim : list anim_event) : Z :=
  fold_right
    (fun e acc =>
       match e with
       | AnimMerge _ _ _ old_value => 2 ^ (old_value + 1) + acc
       | _ => acc
       end) 0 anim.

(** [*score] after the [*score += (1 << (last_value + 1))] of the merges
    recorded in [anim], in their order, when it was [sc] before. *)
Definition score_after (sc : Z) (anim : list anim_event) : Z :=
  fold_left
    (fun acc e =>
       match e with
       | AnimMerge _ _ _ old_value => i32 (acc + shl1 (old_value + 1))
       | _ => acc
       end) anim sc.

End Board.


(** ** struct BoardHistory *)

Module BoardHistory.

Record HistoryState : Type := mkState {
  board : list Z;
  rng : RNG.t;
  score : Z
}.

Definition MAX_UNDO : Z := 4096.

Record t : Type := mk {
  history : list HistoryState;
  current : Z;
  undo_avail : Z;
  redo_avail : Z
}.

(** [HistoryState::reset] in its four overloads. *)
Definition state_reset : HistoryState := mkState Board.reset (RNG.reset 0) 0.
Definition state_reset_rng (initial_rng : RNG.t) : HistoryState :=
  mkState Board.reset initial_rng 0.
Definition state_reset_board (initial_board : list Z) (initial_rng : RNG.t)
    : HistoryState :=
  mkState initial_board initial_rng 0.
Definition state_reset_seed (seed : Z) : HistoryState :=
  mkState Board.reset (RNG.reset seed) 0.

(** [HistoryState::place] and [HistoryState::move]; [delta] is what
    [tilt] leaves in a score of 0, so [score] becomes the [int] sum. *)
Definition state_place (n : nat) (anim : list anim_event) (s : HistoryState)
    : option (HistoryState * list anim_event) :=
  match Board.place n (board s) anim (rng s) with
  | Some (b, anim', r) => Some (mkState b r (score s), anim')
  | None => None
  end.

Definition state_move (dir : Z) (s : HistoryState)
    : option (HistoryState * bool * list anim_event) :=
  match Board.move dir (board s) (rng s) with
  | Some (b, moved, delta, anim, r) =>
      Some (mkState b r (i32 (score s + delta)), moved, anim)
  | None => None
  end.

(** [history[i]] and [history[i] = s]. *)
Definition slot (h : t) (i : Z) : HistoryState :=
  default state_reset (history h !! Z.to_nat i).

Definition store (h : t) (i : Z) (s : HistoryState) : list HistoryState :=
  <[Z.to_nat i := s]> (history h).

Definition get (h : t) : list Z := board (slot h (current h)).
Definition get_rng (h : t) : RNG.t := rng (slot h (current h)).
Definition get_score (h : t) : Z := score (slot h (current h)).

Definition clear_history (h : t) : t :=
  let r := get_rng h in
  mk (store h 0 (state_reset_rng r)) 0 0 0.

Definition reset (seed : Z) (h : t) : t :=
  mk (store h 0 (state_reset_seed seed)) 0 0 0.

Definition reset_board (b : list Z) (initial_state : RNG.t) (h : t) : t :=
  mk (store h 0 (state_reset_board b initial_state)) 0 0 0.

Definition new_game (anim : list anim_event) (h : t)
    : option (t * list anim_event) :=
  let h1 := clear_history h in
  match state_place 2 anim (slot h1 0) with
  | Some (s, anim') =>
      Some (mk (store h1 0 s) (current h1) (undo_avail h1) (redo_avail h1), anim')
  | None => None
  end.

Definition undo (h : t) : t :=
  if negb (undo_avail h =? 0) then
    mk (history h) (Z.rem (current h + MAX_UNDO - 1) MAX_UNDO)
       (undo_avail h - 1) (redo_avail h + 1)
  else h.

Definition redo (h : t) : t :=
  if negb (redo_avail h =? 0) then
    mk (history h) (Z.rem (current h + 1) MAX_UNDO)
       (undo_avail h + 1) (redo_avail h - 1)
  else h.

(** [move(dir, anim)]: the history and the animation calls of the move. *)
Definition move (dir : Z) (h : t) : option (t * list anim_event) :=
  let next := slot h (current h) in
  match state_move dir next with
  | Some (next', moved, anim) =>
      if moved then
        let current' := Z.rem (current h + 1) MAX_UNDO in
        Some (mk (<[Z.to_nat current' := next']> (history h)) current'
                 (if undo_avail h <? MAX_UNDO then undo_avail h + 1 else undo_avail h)
                 0,
              anim)
      else Some (h, anim)
  | None => None
  end.

(** The array has [MAX_UNDO] slots, all boards have sixteen cells and all
    generators hold 32-bit words; the index and the counts are in the
    ring. *)
Definition wf (h : t) : Prop :=
  length (history h) = Z.to_nat MAX_UNDO /\
  Forall (fun s => length (board s) = 16%nat /\ RNG.wf (rng s)) (history h) /\
  0 <= current h < MAX_UNDO /\ 0 <= undo_avail h /\ 0 <= redo_avail h.

(** What the code keeps of the two counts. *)
Definition counts_ok (h : t) : Prop :=
  0 <= undo_avail h /\ 0 <= redo_avail h /\
  undo_avail h + redo_avail h <= MAX_UNDO.

(** The operations of the driving code. *)
Inductive op : Type :=
| OpMove (dir : Z)
| OpUndo
| OpRedo
| OpNewGame
| OpClearHistory.

Definition apply (o : op) (h : t) : option t :=
  match o with
  | OpMove dir => option_map fst (move dir h)
  | OpUndo => Some (undo h)
  | OpRedo => Some (redo h)
  | OpNewGame => option_map fst (new_game [] h)
  | OpClearHistory => Some (clear_history h)
  end.

Fixpoint run (ops : list op) (h : t) : option t :=
  match ops with
  | [] => Some h
  | o :: ops' =>
      match apply o h with
      | Some h' => run ops' h'
      | None => None
      end
  end.

(** A game of 4096 moves, every one of which moves a tile, played from
    [reset(0); new_game()]: move [k] is digit [k] of this number in base
    4, least significant first. *)
Definition long_game_code : Z :=
  709488399198120801534744944003746779737151109907754369185042627606673097071715266426201264581366443713692421785114934033149162580938033280287820994861856771569491909364953419991612053977292254255262884423039344724409618752379374657528333384530161837744340195825889701471130340627752010510731735263125684698328042369625947298316468752820006918669398501001391161171215820505070529470409477526374186740781314023630113282907870471968131523602556230970342322030097470156640126414226098721956922374104727265379938626070584792696289219368307714770189895642919725992974534774757291163591643601483993546513101045340433541422024395995583644510663186114981392847400095271968302853618056556450730196700751395658731798111553121857536418336451488057551563459477146951514984828730796377945666530766317881011564571350744993620238496665770375433873029810151217482073397538670626373068055592114018884102306771495519679944684551573755579005758020951674790988350242480428176275578372684864101043452342373400136803118335002134562299461853350627665476488013735498152318497249150336806481324857949925869931273263039403153690601650650719670104388686597994986445157925777243995210281226266083619141755270861898750237482000856711678952485488295999892268551457638535054180922730888532187339098897141992293804952322866365330332141011842609594286586072047727484282707754088935366567353171639746496899630782070363712917998752262622897076699706625712941121962088122120654881030891907374593531886281507540830819546954034423069227792780631491758055088301470744346521745030863793010814002637443388617122070362704243384108295646140243756496786973172438409255221263192366058735403195945305166482169691045552238331910817291389635687818550807343098088575452491697575754314497947494923318671788150137307779924423199322229834963510652217330783204236005953477778034703949020841752319311104275330485734691085275900810835225615568467743417563475591649506424698443467490431232436086118556086026313949137298801204496047645708588966782312881146479543157699838135222508085518268483133824287205263042618865359701286689476701809756397113312645931200096795198820942850651719704417091918342310151322533484583938072800750843703982026529876174833977351387984166091246829960099663784707192829581466653254396764203056712749789905097376949695809570608919362440379026366568236139581533050156062676382017302594755812045938221001305442915473293977505710083531465754101449714841205065245189769040824383992036513196104443120322.

Fixpoint base4 (n : nat) (code : Z) : list Z :=
  match n with
  | O => []
  | S n' => code mod 4 :: base4 n' (code / 4)
  end.

Definition long_game : list op := map OpMove (base4 4096 long_game_code).

Fixpoint iter_undo (n : nat) (h : t) : t :=
  match n with
  | O => h
  | S n' => iter_undo n' (undo h)
  end.

(** A static [BoardHistory]: every slot zero-filled. *)
Definition zeroed : t :=
  mk (replicate (Z.to_nat MAX_UNDO) (mkState Board.reset (RNG.mk 0 0 0 0) 0)) 0 0 0.

End BoardHistory.


(** ** Packed board keys and the cache *)

(** [pack_board_state]: sixteen cells, four bits each, cell 0 in the top
    nibble.  [None] when [assert(board.state[i] < 16)] fails for a cell
    and the program aborts. *)
Definition pack_board_state (b : list Z) : option Z :=
fold_left
  (fun k i =>
     match k with
     | Some k =>
         if Board.get b i <? 16
         then Some (Z.lor (u64 (Z.shiftl k 4)) (Board.get b i))
         else None
     | None => None
     end)
  Board.cells (Some 0).

Definition mix64 (key : Z) : Z :=
let k1 := u64 (Z.lnot key + Z.shiftl key 21) in
let k2 := Z.lxor k1 (Z.shiftr k1 24) in
let k3 := u64 (k2 * 265) in
let k4 := Z.lxor k3 (Z.shiftr k3 14) in
let k5 := u64 (k4 * 21) in
let k6 := Z.lxor k5 (Z.shiftr k5 28) in
u64 (k6 + Z.shiftl k6 31).

Module BoardCache.

Definition ENTRY_COUNT : Z := Z.shiftl 1 15.
Definition BUCKET_SIZE : Z := 8.
Definition BUCKET_COUNT : Z := ENTRY_COUNT / BUCKET_SIZE.
Definition BUCKET_INDEX_MASK : Z := BUCKET_COUNT - 1.

Record Bucket (T : Type) : Type := mkBucket {
  keys : list Z;
  values : list T
}.

Arguments mkBucket {T} _ _.
Arguments keys {T} _.
Arguments values {T} _.

(** [calloc] and [reset]: every key 0, every value the all-zero [T]. *)
Definition reset {T : Type} (zero : T) : list (Bucket T) :=
replicate (Z.to_nat BUCKET_COUNT)
  (mkBucket (replicate (Z.to_nat BUCKET_SIZE) 0) (replicate (Z.to_nat BUCKET_SIZE) zero)).

(** [where(k)]: the bucket of key [k], as its index in [m_buckets]. *)
Definition where_ (k : Z) : Z := Z.land (mix64 k) BUCKET_INDEX_MASK.

Definition bucket_at {T : Type} (c : list (Bucket T)) (loc : Z) : Bucket T :=
default (mkBucket [] []) (c !! Z.to_nat loc).

(** [for (i = 0; i < BUCKET_SIZE; ++i) if (bucket.keys[i] == k) ...]: the
    first slot that holds [k]. *)
Fixpoint find_slot (n : nat) (i : Z) (ks : list Z) (k : Z) : option Z :=
match n with
| O => None
| S n' =>
    if nth (Z.to_nat i) ks 0 =? k then Some i
    else find_slot n' (i + 1) ks k
end.

(** The loop of [get] with its [return]: a pointer to the value of the
    first slot that holds [k], or the null pointer. *)
Definition find_value {T : Type} (c : list (Bucket T)) (k loc : Z) : option T :=
let bucket := bucket_at c loc in
match find_slot (Z.to_nat BUCKET_SIZE) 0 (keys bucket) k with
| Some i => values bucket !! Z.to_nat i
| None => None
end.

(** [get(k, where)].  [assert(k)] comes first: with key 0 the assertion
    fails and the program aborts, which is [None] here; otherwise the
    result is [Some] of the pointer returned.  [where] points into
    [m_buckets], so [assert(where)] holds. *)
Definition get {T : Type} (c : list (Bucket T)) (k loc : Z) : option (option T) :=
if k =? 0 then None else Some (find_value c k loc).

(** [for (i = BUCKET_SIZE-1; i > 0; --i) { keys[i] = keys[i-1];
    values[i] = values[i-1]; }] *)
Fixpoint shift_up {T : Type} (n : nat) (i : Z) (bucket : Bucket T) : Bucket T :=
match n with
| O => bucket
| S n' =>
    shift_up n' (i - 1)
      (mkBucket
         (match keys bucket !! Z.to_nat (i - 1) with
          | Some k => <[Z.to_nat i := k]> (keys bucket)
          | None => keys bucket
          end)
         (match values bucket !! Z.to_nat (i - 1) with
          | Some v => <[Z.to_nat i := v]> (values bucket)
          | None => values bucket
          end))
end.

(** The two loops of [put]: overwrite the value of the slot that holds
    [k], or else move every slot up by one and take slot 0. *)
Definition store_value {T : Type} (c : list (Bucket T)) (k loc : Z) (value : T)
    : list (Bucket T) :=
let bucket := bucket_at c loc in
match find_slot (Z.to_nat BUCKET_SIZE) 0 (keys bucket) k with
| Some i =>
    <[Z.to_nat loc := mkBucket (keys bucket) (<[Z.to_nat i := value]> (values bucket))]> c
| None =>
    let shifted := shift_up (Z.to_nat (BUCKET_SIZE - 1)) (BUCKET_SIZE - 1) bucket in
    <[Z.to_nat loc := mkBucket (<[0%nat := k]> (keys shifted))
                               (<[0%nat := value]> (values shifted))]> c
end.

(** The array has [BUCKET_COUNT] buckets of [BUCKET_SIZE] slots. *)
Definition wf {T : Type} (c : list (Bucket T)) : Prop :=
length c = Z.to_nat BUCKET_COUNT /\
Forall (fun bucket => length (keys bucket) = Z.to_nat BUCKET_SIZE /\
                      length (values bucket) = Z.to_nat BUCKET_SIZE) c.

(** [put(k, where, value)], after [assert(k)]: [None] when the assertion
    fails. *)
Definition put {T : Type} (c : list (Bucket T)) (k loc : Z) (value : T)
    : option (list (Bucket T)) :=
if k =? 0 then None else Some (store_value c k loc value).

(** [put(k, where(k), v)] for a list of entries, first to last. *)
Fixpoint put_all {T : Type} (c : list (Bucket T)) (entries : list (Z * T))
    : option (list (Bucket T)) :=
match entries with
| [] => Some c
| (k, v) :: rest =>
    match put c k (where_ k) v with
    | Some c' => put_all c' rest
    | None => None
    end
end.

(** The cache after the loops of [put] ran for each entry. *)
Fixpoint store_all {T : Type} (c : list (Bucket T)) (entries : list (Z * T))
    : list (Bucket T) :=
match entries with
| [] => c
| (k, v) :: rest => store_all (store_value c k (where_ k) v) rest
end.

End BoardCache.


(** ** class Searcher and its five variants *)

(** Cast of an [int] to [int16_t]. *)
Definition i16 (v : Z) : Z := (v + 2 ^ 15) mod 2 ^ 16 - 2 ^ 15.

Module Searcher.

(** The fields of [Searcher] that a search changes, with the fields [X]
    of the variant.  [m_cancelled] is set by [cancel()] from another
    thread and cleared only by [search]; once set it stays set, so a run
    is described by how many reads of the flag still see it clear:
    [clear_polls = None] when nobody cancels, [Some n] when the flag is
    set after [n] more reads. *)
Record st (X : Type) : Type := mkSt {
  num_moves : Z;
  clear_polls : option nat;
  ext : X
}.

Arguments mkSt {X} _ _ _.
Arguments num_moves {X} _.
Arguments clear_polls {X} _.
Arguments ext {X} _.

Definition cancelled {X : Type} (s : st X) : bool * st X :=
match clear_polls s with
| None => (false, s)
| Some O => (true, s)
| Some (S n) => (false, mkSt (num_moves s) (Some n) (ext s))
end.

Definition tally_move {X : Type} (s : st X) : st X :=
mkSt (i32 (num_moves s + 1)) (clear_polls s) (ext s).

Definition set_ext {X : Type} (s : st X) (x : X) : st X :=
mkSt (num_moves s) (clear_polls s) x.

(** What [search] leaves behind: the value it returns,
    [get_best_first_move()], [get_num_moves()], [m_cancelled] as the last
    read saw it, and the variant's fields. *)
Record result (X : Type) : Type := mkResult {
  ret : Z;
  best_first_move : Z;
  moves_tried : Z;
  flag : bool;
  final : X
}.

Arguments mkResult {X} _ _ _ _ _.
Arguments ret {X} _.
Arguments best_first_move {X} _.
Arguments moves_tried {X} _.
Arguments flag {X} _.
Arguments final {X} _.

(** [Searcher::search]: [do_search] is the variant's virtual function,
    [polls] the cancellation schedule of this run and [x] the variant's
    fields as the previous search left them.  A call that does not
    return is [None]: an assertion failed and the program aborted, or a
    draw of the generator did not come back.  [lookahead] is a [nat], as
    [assert(lookahead >= 0)] in [do_search] wants it. *)
Definition search {X : Type}
    (do_search : list Z -> RNG.t -> nat -> st X -> option (Z * Z * st X))
    (board : list Z) (rng : RNG.t) (lookahead : nat)
    (polls : option nat) (x : X) : option (result X) :=
match do_search board rng lookahead (mkSt 0 polls x) with
| None => None
| Some (score, move, s1) =>
    let '(c, s2) := cancelled s1 in
    if c then Some (mkResult INT_MIN (-1) (num_moves s2) true (ext s2))
    else Some (mkResult score move (num_moves s2) false (ext s2))
end.

(** The children of a minimising node: for every empty cell, in order, a
    tile 1 and a tile 2. *)
Definition placements (board : list Z) : list (list Z) :=
flat_map
  (fun i => if Board.get board i =? 0
            then [Board.set board i 1; Board.set board i 2]
            else [])
  Board.cells.

Definition directions : list Z := [0; 1; 2; 3].

Section Variants.

Variable evalfn : list Z -> Z.

Definition eval_board (board : list Z) : Z := evalfn board.

(** *** SearcherCheat *)

Fixpoint cheat_loop (rec : list Z -> RNG.t -> st unit -> option (Z * st unit))
    (board : list Z) (rng : RNG.t) (dirs : list Z) (best_score move : Z)
    (s : st unit) : option (Z * Z * st unit) :=
match dirs with
| [] => Some (best_score, move, s)
| i :: rest =>
    match Board.move i board rng with
    | None => None
    | Some (next_state, moved, _, _, next_rng) =>
        if negb moved then cheat_loop rec board rng rest best_score move s
        else
          match rec next_state next_rng (tally_move s) with
          | None => None
          | Some (score, s1) =>
              let '(c, s2) := cancelled s1 in
              if c then Some (INT_MIN, move, s2)
              else if score >? best_score
                   then cheat_loop rec board rng rest score i s2
                   else cheat_loop rec board rng rest best_score move s2
          end
    end
end.

Fixpoint cheat_do_search_real (lookahead : nat) (board : list Z) (rng : RNG.t)
    (s : st unit) : option (Z * Z * st unit) :=
match lookahead with
| O =>
    let '(c, s1) := cancelled s in
    if c then Some (INT_MIN, -1, s1) else Some (eval_board board, -1, s1)
| S lookahead' =>
    cheat_loop
      (fun b r s' =>
         match cheat_do_search_real lookahead' b r s' with
         | Some (score, _, s'') => Some (score, s'')
         | None => None
         end)
      board rng directions INT_MIN (-1) s
end.

Definition cheat_do_search (board : list Z) (rng : RNG.t) (lookahead : nat)
    (s : st unit) : option (Z * Z * st unit) :=
cheat_do_search_real lookahead board rng s.

(** *** SearcherNaiveMinimax *)

Fixpoint nm_minimise (rec : list Z -> st unit -> Z * st unit)
    (children : list (list Z)) (best_score : Z) (s : st unit) : Z * st unit :=
match children with
| [] => (best_score, s)
| next_state :: rest =>
    let '(score, s1) := rec next_state s in
    let '(c, s2) := cancelled s1 in
    if c then (INT_MIN, s2)
    else nm_minimise rec rest (if score <? best_score then score else best_score) s2
end.

Fixpoint nm_maximise (rec : list Z -> st unit -> Z * st unit)
    (board : list Z) (dirs : list Z) (best_score move : Z) (s : st unit)
    : Z * Z * st unit :=
match dirs with
| [] => (best_score, move, s)
| i :: rest =>
    let '(next_state, moved, _, _) := Board.tilt (DIR_DX i) (DIR_DY i) board in
    if negb moved then nm_maximise rec board rest best_score move s
    else
      let '(score, s1) := rec next_state (tally_move s) in
      let '(c, s2) := cancelled s1 in
      if c then (INT_MIN, move, s2)
      else if score >? best_score
           then nm_maximise rec board rest score i s2
           else nm_maximise rec board rest best_score move s2
end.

Fixpoint nm_do_search_real (lookahead : nat) (board : list Z) (s : st unit)
    : Z * Z * st unit :=
match lookahead with
| O =>
    let '(c, s1) := cancelled s in
    if c then (INT_MIN, -1, s1) else (eval_board board, -1, s1)
| S lookahead' =>
    let rec := fun b s' =>
      let '(score, _, s'') := nm_do_search_real lookahead' b s' in (score, s'') in
    if Nat.odd lookahead then
      let '(score, s') := nm_minimise rec (placements board) INT_MAX s in
      (score, -1, s')
    else nm_maximise rec board directions INT_MIN (-1) s
end.

(** No assertion is on the way of this search: it always returns. *)
Definition nm_do_search (board : list Z) (rng : RNG.t) (lookahead : nat)
    (s : st unit) : option (Z * Z * st unit) :=
Some (nm_do_search_real (lookahead * 2) board s).

(** *** SearcherAlphaBeta; the variant's field is [num_pruned] *)

Definition ab_prune (s : st Z) : st Z := set_ext s (i32 (ext s + 1)).

Fixpoint ab_mini_loop (maxi : list Z -> Z -> Z -> st Z -> Z * st Z)
    (children : list (list Z)) (alpha beta : Z) (s : st Z) : Z * st Z :=
match children with
| [] => (beta, s)
| next_state :: rest =>
    let '(score, s1) := maxi next_state alpha beta s in
    let beta' := Z.min beta score in
    let '(c, s2) := cancelled s1 in
    if c then (INT_MAX, s2)
    else if alpha >=? beta' then (beta', ab_prune s2)
    else ab_mini_loop maxi rest alpha beta' s2
end.

Fixpoint ab_maxi_loop (mini : list Z -> Z -> Z -> st Z -> Z * st Z)
    (board : list Z) (dirs : list Z) (alpha beta move : Z) (s : st Z)
    : Z * Z * st Z :=
match dirs with
| [] => (alpha, move, s)
| i :: rest =>
    let '(next_state, moved, _, _) := Board.tilt (DIR_DX i) (DIR_DY i) board in
    if negb moved then ab_maxi_loop mini board rest alpha beta move s
    else
      let '(score, s1) := mini next_state alpha beta (tally_move s) in
      let '(c, s2) := cancelled s1 in
      if c then (INT_MIN, move, s2)
      else
        let alpha' := if score >? alpha then score else alpha in
        let move' := if score >? alpha then i else move in
        if alpha' >=? beta then (alpha', move', ab_prune s2)
        else ab_maxi_loop mini board rest alpha' beta move' s2
end.

(** [do_search] enters [do_search_maxi] with [lookahead * 2], so
    [do_search_maxi] runs at even and [do_search_mini] at odd lookahead;
    [half] is half the lookahead of the maximising call. *)
Fixpoint ab_do_search_maxi (half : nat) (board : list Z) (alpha beta : Z) (s : st Z)
    : Z * Z * st Z :=
match half with
| O =>
    let '(c, s1) := cancelled s in
    if c then (INT_MIN, -1, s1) else (eval_board board, -1, s1)
| S half' =>
    ab_maxi_loop
      (fun b a be s' =>
         ab_mini_loop
           (fun b' a' be' s'' =>
              let '(score, _, s3) := ab_do_search_maxi half' b' a' be' s'' in
              (score, s3))
           (placements b) a be s')
      board directions alpha beta (-1) s
end.

Definition ab_do_search (board : list Z) (rng : RNG.t) (lookahead : nat)
    (s : st Z) : option (Z * Z * st Z) :=
Some (ab_do_search_maxi lookahead board INT_MIN INT_MAX (set_ext s 0)).

(** *** SearcherCachingMinimax *)

Record cm_info : Type := mkCmInfo {
  cm_lookahead : Z;
  cm_score : Z
}.

Definition STAT_DEPTH : Z := 20.

Record cm_fields : Type := mkCmFields {
  cm_cache : list (BoardCache.Bucket cm_info);
  cm_num_cached : list Z
}.

Definition tally_hit (num_cached : list Z) (lookahead : Z) : list Z :=
let slot := Z.to_nat (Z.min lookahead (STAT_DEPTH - 1)) in
<[slot := i32 (nth slot num_cached 0 + 1)]> num_cached.

Definition cm_tally_cache_hit (lookahead : Z) (s : st cm_fields) : st cm_fields :=
set_ext s (mkCmFields (cm_cache (ext s)) (tally_hit (cm_num_cached (ext s)) lookahead)).

(** [cache.put(board_k, cache_loc, new_cached)] *)
Definition cm_put (k loc : Z) (info : cm_info) (s : st cm_fields)
    : option (st cm_fields) :=
match BoardCache.put (cm_cache (ext s)) k loc info with
| Some cache => Some (set_ext s (mkCmFields cache (cm_num_cached (ext s))))
| None => None
end.

(** The two loops.  A loop that a cancellation leaves by [return] ends
    in [None] instead of a score: that [return] skips the [cache.put]. *)
Fixpoint cm_minimise (rec : list Z -> st cm_fields -> option (Z * st cm_fields))
    (children : list (list Z)) (best_score : Z) (s : st cm_fields)
    : option (option Z * st cm_fields) :=
match children with
| [] => Some (Some best_score, s)
| next_state :: rest =>
    match rec next_state s with
    | None => None
    | Some (score, s1) =>
        let '(c, s2) := cancelled s1 in
        if c then Some (None, s2)
        else cm_minimise rec rest (if score <? best_score then score else best_score) s2
    end
end.

Fixpoint cm_maximise (rec : list Z -> st cm_fields -> option (Z * st cm_fields))
    (board : list Z) (dirs : list Z) (best_score move : Z) (s : st cm_fields)
    : option (option Z * Z * st cm_fields) :=
match dirs with
| [] => Some (Some best_score, move, s)
| i :: rest =>
    let '(next_state, moved, _, _) := Board.tilt (DIR_DX i) (DIR_DY i) board in
    if negb moved then cm_maximise rec board rest best_score move s
    else
      match rec next_state (tally_move s) with
      | None => None
      | Some (score, s1) =>
          let '(c, s2) := cancelled s1 in
          if c then Some (None, move, s2)
          else if score >? best_score
               then cm_maximise rec board rest score i s2
               else cm_maximise rec board rest best_score move s2
      end
end.

Fixpoint cm_do_search_real (lookahead : nat) (board : list Z) (s : st cm_fields)
    : option (Z * Z * st cm_fields) :=
match pack_board_state board with
| None => None
| Some board_k =>
    let cache_loc := BoardCache.where_ board_k in
    let store := fun (best_score move : Z) (s' : st cm_fields) =>
      match cm_put board_k cache_loc (mkCmInfo (Z.of_nat lookahead) best_score) s' with
      | Some s'' => Some (best_score, move, s'')
      | None => None
      end in
    let miss :=
      match lookahead with
      | O =>
          let '(c, s1) := cancelled s in
          if c then Some (INT_MIN, -1, s1) else store (eval_board board) (-1) s1
      | S lookahead' =>
          let rec := fun b s' =>
            match cm_do_search_real lookahead' b s' with
            | Some (score, _, s'') => Some (score, s'')
            | None => None
            end in
          if Nat.odd lookahead then
            match cm_minimise rec (placements board) INT_MAX s with
            | None => None
            | Some (None, s') => Some (INT_MAX, -1, s')
            | Some (Some best_score, s') => store best_score (-1) s'
            end
          else
            match cm_maximise rec board directions INT_MIN (-1) s with
            | None => None
            | Some (None, move, s') => Some (INT_MIN, move, s')
            | Some (Some best_score, move, s') => store best_score move s'
            end
      end in
    match BoardCache.get (cm_cache (ext s)) board_k cache_loc with
    | None => None
    | Some (Some cached) =>
        if cm_lookahead cached =? Z.of_nat lookahead
        then Some (cm_score cached, -1, cm_tally_cache_hit (Z.of_nat lookahead) s)
        else miss
    | Some None => miss
    end
end.

Definition cm_zero : cm_info := mkCmInfo 0 0.

Definition cm_do_search (board : list Z) (rng : RNG.t) (lookahead : nat)
    (s : st cm_fields) : option (Z * Z * st cm_fields) :=
cm_do_search_real (lookahead * 2) board
  (set_ext s (mkCmFields (BoardCache.reset cm_zero) (replicate (Z.to_nat STAT_DEPTH) 0))).

(** *** SearcherCachingAlphaBeta *)

Definition SCORE_UNKNOWN : Z := 0.
Definition SCORE_EXACT : Z := 1.
Definition SCORE_LOWER_BOUND : Z := 2.
Definition SCORE_UPPER_BOUND : Z := 3.

Record cab_info : Type := mkCabInfo {
  cab_lookahead : Z;
  cab_type : Z;
  cab_score : Z
}.

Record cab_fields : Type := mkCabFields {
  cab_cache : list (BoardCache.Bucket cab_info);
  cab_num_cached : list Z;
  cab_num_pruned : Z
}.

Definition cab_prune (s : st cab_fields) : st cab_fields :=
set_ext s (mkCabFields (cab_cache (ext s)) (cab_num_cached (ext s))
                       (i32 (cab_num_pruned (ext s) + 1))).

Definition cab_put (k loc : Z) (info : cab_info) (s : st cab_fields)
    : option (st cab_fields) :=
match BoardCache.put (cab_cache (ext s)) k loc info with
| Some cache =>
    Some (set_ext s (mkCabFields cache (cab_num_cached (ext s)) (cab_num_pruned (ext s))))
| None => None
end.

(** [check_cached]: the usable cached score, if any. *)
Definition check_cached (cached : option cab_info) (alpha beta lookahead : Z)
    (s : st cab_fields) : option Z * st cab_fields :=
let cache_valid :=
  match cached with
  | Some info =>
      if cab_lookahead info =? lookahead then
        if cab_type info =? SCORE_EXACT then true
        else if cab_type info =? SCORE_UPPER_BOUND then cab_score info <=? alpha
        else if cab_type info =? SCORE_LOWER_BOUND then cab_score info >=? beta
        else false
      else false
  | None => false
  end in
match cached with
| Some info =>
    if cache_valid then
      (Some (cab_score info),
       set_ext s (mkCabFields (cab_cache (ext s))
                              (tally_hit (cab_num_cached (ext s)) lookahead)
                              (cab_num_pruned (ext s))))
    else (None, s)
| None => (None, s)
end.

(** The loops return the score and the [cache_type] to record; a loop
    that a cancellation leaves by [return] ends in [None] instead. *)
Fixpoint cab_mini_loop
    (maxi : list Z -> Z -> Z -> st cab_fields -> option (Z * st cab_fields))
    (children : list (list Z)) (alpha beta cache_type : Z) (s : st cab_fields)
    : option (option (Z * Z) * st cab_fields) :=
match children with
| [] => Some (Some (beta, cache_type), s)
| next_state :: rest =>
    match maxi next_state alpha beta s with
    | None => None
    | Some (score, s1) =>
        let '(c, s2) := cancelled s1 in
        if c then Some (None, s2)
        else
          let beta' := if score <? beta then score else beta in
          let cache_type' := if score <? beta then SCORE_EXACT else cache_type in
          if alpha >=? beta' then Some (Some (beta', SCORE_UPPER_BOUND), cab_prune s2)
          else cab_mini_loop maxi rest alpha beta' cache_type' s2
    end
end.

Fixpoint cab_maxi_loop
    (mini : list Z -> Z -> Z -> st cab_fields -> option (Z * st cab_fields))
    (board : list Z) (dirs : list Z) (alpha beta cache_type move : Z)
    (s : st cab_fields) : option (option (Z * Z) * Z * st cab_fields) :=
match dirs with
| [] => Some (Some (alpha, cache_type), move, s)
| i :: rest =>
    let '(next_state, moved, _, _) := Board.tilt (DIR_DX i) (DIR_DY i) board in
    if negb moved then cab_maxi_loop mini board rest alpha beta cache_type move s
    else
      match mini next_state alpha beta (tally_move s) with
      | None => None
      | Some (score, s1) =>
          let '(c, s2) := cancelled s1 in
          if c then Some (None, move, s2)
          else
            let alpha' := if score >? alpha then score else alpha in
            let cache_type' := if score >? alpha then SCORE_EXACT else cache_type in
            let move' := if score >? alpha then i else move in
            if alpha' >=? beta
            then Some (Some (alpha', SCORE_LOWER_BOUND), move', cab_prune s2)
            else cab_maxi_loop mini board rest alpha' beta cache_type' move' s2
      end
end.

(** [do_search_mini] at lookahead [lookahead], calling [maxi] for
    [do_search_maxi] at [lookahead - 1]. *)
Definition cab_do_search_mini
    (maxi : list Z -> Z -> Z -> st cab_fields -> option (Z * st cab_fields))
    (lookahead : Z) (board : list Z) (alpha beta : Z) (s : st cab_fields)
    : option (Z * st cab_fields) :=
if alpha <? beta then
  match pack_board_state board with
  | None => None
  | Some board_k =>
      let cache_loc := BoardCache.where_ board_k in
      match BoardCache.get (cab_cache (ext s)) board_k cache_loc with
      | None => None
      | Some cached =>
          match check_cached cached alpha beta lookahead s with
          | (Some cache_output, s0) => Some (cache_output, s0)
          | (None, s0) =>
              match
                cab_mini_loop maxi (placements board) alpha beta SCORE_LOWER_BOUND s0
              with
              | None => None
              | Some (None, s') => Some (INT_MAX, s')
              | Some (Some (beta', cache_type), s') =>
                  match
                    cab_put board_k cache_loc
                      (mkCabInfo (i16 lookahead) (i16 cache_type) beta') s'
                  with
                  | Some s'' => Some (beta', s'')
                  | None => None
                  end
              end
          end
      end
  end
else None.

Fixpoint cab_do_search_maxi (half : nat) (board : list Z) (alpha beta : Z)
    (s : st cab_fields) : option (Z * Z * st cab_fields) :=
let lookahead := Z.of_nat half * 2 in
if alpha <? beta then
  match pack_board_state board with
  | None => None
  | Some board_k =>
      let cache_loc := BoardCache.where_ board_k in
      match BoardCache.get (cab_cache (ext s)) board_k cache_loc with
      | None => None
      | Some cached =>
          match check_cached cached alpha beta lookahead s with
          | (Some cache_output, s0) => Some (cache_output, -1, s0)
          | (None, s0) =>
              match half with
              | O =>
                  let '(c, s1) := cancelled s0 in
                  if c then Some (INT_MIN, -1, s1)
                  else
                    let score := eval_board board in
                    match
                      cab_put board_k cache_loc (mkCabInfo 0 SCORE_EXACT score) s1
                    with
                    | Some s2 => Some (score, -1, s2)
                    | None => None
                    end
              | S half' =>
                  match
                    cab_maxi_loop
                      (cab_do_search_mini
                         (fun b' a' be' s'' =>
                            match cab_do_search_maxi half' b' a' be' s'' with
                            | Some (score, _, s3) => Some (score, s3)
                            | None => None
                            end)
                         (lookahead - 1))
                      board directions alpha beta SCORE_UPPER_BOUND (-1) s0
                  with
                  | None => None
                  | Some (None, move, s') => Some (INT_MIN, move, s')
                  | Some (Some (alpha', cache_type), move, s') =>
                      match
                        cab_put board_k cache_loc
                          (mkCabInfo (i16 lookahead) (i16 cache_type) alpha') s'
                      with
                      | Some s'' => Some (alpha', move, s'')
                      | None => None
                      end
                  end
              end
          end
      end
  end
else None.

Definition cab_zero : cab_info := mkCabInfo 0 0 0.

Definition cab_do_search (board : list Z) (rng : RNG.t) (lookahead : nat)
    (s : st cab_fields) : option (Z * Z * st cab_fields) :=
cab_do_search_maxi lookahead board INT_MIN INT_MAX
  (set_ext s (mkCabFields (BoardCache.reset cab_zero)
                          (replicate (Z.to_nat STAT_DEPTH) 0) 0)).

End Variants.

End Searcher.

(** ** The evaluator *)

(** [signum(a)]: [T(T(0) < a) - T(a < T(0))] *)
Definition signum (a : Z) : Z :=
(if 0 <? a then 1 else 0) - (if a <? 0 then 1 else 0).

Module Eval.

(** The first loop of [monotonicity], which steps [begin] by [stride]
    and counts [i] up while the cell at [begin] is empty and [i < n]: the
    position and the count it stops at.  On a line of empty cells the
    last test reads the cell after the line; [i < n] is false there, so
    what that cell holds decides nothing. *)
Fixpoint skip_empty (fuel : nat) (b : list Z) (begin_ stride i n : Z) : Z * Z :=
if (Board.get b begin_ =? 0) && (i <? n) then
  match fuel with
  | O => (begin_, i)
  | S fuel' => skip_empty fuel' b (begin_ + stride) stride (i + 1) n
  end
else (begin_, i).

(** The variables of the second loop of [monotonicity]. *)
Record walk : Type := mkWalk {
  at_ : Z;
  idx : Z;
  last_value : Z;
  last_sign : Z;
  total : Z
}.

(** The body of [for (; i < n; ++i)], with its [begin += stride]. *)
Definition walk_body (b : list Z) (stride : Z) (w : walk) : walk :=
let v := Board.get b (at_ w) in
if negb (v =? 0) then
  let delta := v - last_value w in
  let sign := signum delta in
  if negb (sign =? 0) then
    mkWalk (at_ w + stride) (idx w + 1) v sign
           (if negb (last_sign w =? 0) && negb (last_sign w =? sign)
            then total w - 1 else total w)
  else mkWalk (at_ w + stride) (idx w + 1) v (last_sign w) (total w)
else mkWalk (at_ w + stride) (idx w + 1) (last_value w) (last_sign w) (total w).

Fixpoint walk_loop (fuel : nat) (b : list Z) (stride n : Z) (w : walk) : walk :=
if idx w <? n then
  match fuel with
  | O => w
  | S fuel' => walk_loop fuel' b stride n (walk_body b stride w)
  end
else w.

(** [monotonicity(begin, stride, n)] on the cells of the board; both
    loops run at most [n] times. *)
Definition monotonicity (b : list Z) (begin_ stride n : Z) : Z :=
let '(at0, i0) := skip_empty (Z.to_nat n) b begin_ stride 0 n in
total (walk_loop (Z.to_nat n) b stride n (mkWalk at0 i0 (Board.get b at0) 0 (n - 2))).

(** [ai_score_monotonicity]: the rows, then the columns. *)
Definition ai_score_monotonicity (b : list Z) : Z :=
let rows :=
  fold_left (fun total i => total + monotonicity b (i * Board.TILES_X) 1 Board.TILES_X)
            [0; 1; 2; 3] 0 in
fold_left (fun total j => total + monotonicity b j Board.TILES_X Board.TILES_Y)
          [0; 1; 2; 3] rows.

Definition ai_eval_board (b : list Z) : Z := ai_score_monotonicity b.

End Eval.

(** ** The minimax value the searchers compute

  Reference definitions.  [value] and [move_at] are the minimax value of
  a board and the move of its root as the spec describes the search:
  player moves that maximise alternate with tile placements that
  minimise, to a bounded depth.  They carry no counter, flag or cache;
  the searchers above are compared with them. *)

Module Minimax.

Import Searcher.

(** A call returned, with a result for which [P] holds. *)
Definition returns {A : Type} (o : option A) (P : A -> Prop) : Prop :=
match o with
| Some a => P a
| None => False
end.

(** [P] holds for the result of a call if it returned. *)
Definition if_returns {A : Type} (o : option A) (P : A -> Prop) : Prop :=
match o with
| Some a => P a
| None => True
end.

(** A recommended first move: none, or a direction in which the root
    board moves. *)
Definition legal_first_move (board : list Z) (m : Z) : Prop :=
m = -1 \/
(0 <= m < 4 /\ Board.tilt_moved (Board.tilt (DIR_DX m) (DIR_DY m) board) = true).

(** Boards a search may start from: sixteen cells with values in
    [0, hi], not all of them empty. *)
Definition playable (hi : Z) (board : list Z) : Prop :=
Board.in_range hi board /\ board <> Board.reset.

(** How deep a search may go from boards with cells up to [hi], at
    lookahead [l]: every tilt on the way may raise the highest cell by
    one, and no cell may pass 15. *)
Definition budget (hi : Z) (l : nat) : Prop :=
2 * hi + Z.of_nat l <= 30 + (if Nat.odd l then 1 else 0) /\
(Nat.odd l = true -> 2 <= hi).

(** The boards a maximising call at lookahead [2 h] may be made on. *)
Definition deep_enough (h : nat) (board : list Z) : Prop :=
exists hi, playable hi board /\ hi + Z.of_nat h <= 15.

(** [r] is as good as the value [v] for a search with window
    [(alpha, beta)]: exact inside the window, a bound on the right side
    outside. *)
Definition within (alpha beta v r : Z) : Prop :=
(r <= alpha -> v <= r) /\ (beta <= r -> r <= v) /\ (alpha < r < beta -> r = v).

(** A move taken from [dirs] in which the board moves, or the move the
    loop started with. *)
Definition picked (board : list Z) (dirs : list Z) (move m : Z) : Prop :=
m = move \/
(In m dirs /\ Board.tilt_moved (Board.tilt (DIR_DX m) (DIR_DY m) board) = true).

(** A run that nobody cancels, and a state in which the next read of the
    flag still sees it clear. *)
Definition quiet {X : Type} (s : st X) : Prop := clear_polls s = None.
Definition live {X : Type} (s : st X) : Prop := clear_polls s <> Some 0%nat.

(** What a call of the alpha-beta search with window [(a, be)] owes its
    caller: it leaves a quiet run quiet, and unless the flag was seen set
    its result is [within] the window of the value [f c]. *)
Definition answers {X : Type} (call : list Z -> Z -> Z -> st X -> Z * st X)
    (f : list Z -> Z) : Prop :=
forall c a be s0, INT_MIN <= a -> a < be -> be <= INT_MAX ->
  (quiet s0 -> quiet (snd (call c a be s0))) /\
  (live (snd (call c a be s0)) -> within a be (f c) (fst (call c a be s0))).

(** The slots of a cache: [P] holds of every key that is not 0 and its
    value. *)
Definition cache_all {T : Type} (P : Z -> T -> Prop) (c : list (BoardCache.Bucket T))
    : Prop :=
forall (bucket : BoardCache.Bucket T) (i : nat) (k : Z) (v : T),
  In bucket c ->
  BoardCache.keys bucket !! i = Some k -> BoardCache.values bucket !! i = Some v ->
  k <> 0 -> P k v.

Section Value.

Variable evalfn : list Z -> Z.

(** The best score over the directions that move the board, with the
    first direction that reaches it; [f] scores a tilted board. *)
Fixpoint best_of (f : list Z -> Z) (board : list Z) (dirs : list Z)
    (best move : Z) : Z * Z :=
match dirs with
| [] => (best, move)
| i :: rest =>
    let '(next_state, moved, _, _) := Board.tilt (DIR_DX i) (DIR_DY i) board in
    if negb moved then best_of f board rest best move
    else if f next_state >? best then best_of f board rest (f next_state) i
    else best_of f board rest best move
end.

(** The lowest score over the placements of a tile. *)
Fixpoint worst_of (f : list Z -> Z) (children : list (list Z)) (best : Z) : Z :=
match children with
| [] => best
| next_state :: rest => worst_of f rest (Z.min best (f next_state))
end.

(** The minimax value of a board [lookahead] plies deep: the player
    maximises at even and the tile placement minimises at odd lookahead. *)
Fixpoint value (lookahead : nat) (board : list Z) : Z :=
match lookahead with
| O => evalfn board
| S lookahead' =>
    if Nat.odd lookahead
    then worst_of (value lookahead') (placements board) INT_MAX
    else fst (best_of (value lookahead') board directions INT_MIN (-1))
end.

(** The move a node reports: at a maximising node, the first direction
    that reaches the value. *)
Definition move_at (lookahead : nat) (board : list Z) : Z :=
match lookahead with
| O => -1
| S lookahead' =>
    if Nat.odd lookahead then -1
    else snd (best_of (value lookahead') board directions INT_MIN (-1))
end.

(** Every entry of a [SearcherCachingMinimax] cache that belongs to a
    playable board holds the minimax value of that board at the entry's
    lookahead. *)
Definition cm_entry_sound (k : Z) (info : cm_info) : Prop :=
forall board : list Z, playable 15 board -> pack_board_state board = Some k ->
  exists l : nat, cm_lookahead info = Z.of_nat l /\ cm_score info = value l board.

(** The same for [SearcherCachingAlphaBeta]: an exact entry holds the
    value, a lower bound is not above it and an upper bound not below. *)
Definition cab_entry_sound (k : Z) (info : cab_info) : Prop :=
forall board : list Z, playable 15 board -> pack_board_state board = Some k ->
  exists l : nat, cab_lookahead info = Z.of_nat l /\
    (cab_type info = SCORE_EXACT -> cab_score info = value l board) /\
    (cab_type info = SCORE_LOWER_BOUND -> cab_score info <= value l board) /\
    (cab_type info = SCORE_UPPER_BOUND -> value l board <= cab_score info).

(** A cache with its 4096 buckets of eight slots, all entries sound. *)
Definition cm_ok (s : st cm_fields) : Prop :=
BoardCache.wf (cm_cache (ext s)) /\ cache_all cm_entry_sound (cm_cache (ext s)).

Definition cab_ok (s : st cab_fields) : Prop :=
BoardCache.wf (cab_cache (ext s)) /\ cache_all cab_entry_sound (cab_cache (ext s)).

(** What a call of the caching alpha-beta search owes its caller on the
    boards [ok]: it returns, keeps the cache sound, leaves a quiet run
    quiet, and unless the flag was seen set its result is [within] the
    window of the value [f c]. *)
Definition cab_answers
    (call : list Z -> Z -> Z -> st cab_fields -> option (Z * st cab_fields))
    (f : list Z -> Z) (ok : list Z -> Prop) : Prop :=
forall c a be s0, ok c -> INT_MIN <= a -> a < be -> be <= INT_MAX -> cab_ok s0 ->
  returns (call c a be s0)
    (fun out =>
       cab_ok (snd out) /\ (quiet s0 -> quiet (snd out)) /\
       (live (snd out) -> within a be (f c) (fst out))).

End Value.

End Minimax.

(** ** Lines of the board

  Proof device.  A pass of [tilt] touches only the four cells
  [begin + j * step_minor] of its line, so it can be compared with the
  same pass run on those four cells alone, laid out from index 0 with
  step 1. *)

Module Line.

Import Board.

Definition phi (begin_ step j : Z) : Z := begin_ + j * step.

Definition read (begin_ step : Z) (b : t) : t :=
  map (fun j => get b (phi begin_ step j)) [0; 1; 2; 3].

Definition spread (begin_ step : Z) (b0 l : t) : t :=
  fold_left (fun b j => set b (phi begin_ step j) (get l j)) [0; 1; 2; 3] b0.

Definition rename (begin_ step : Z) (e : anim_event) : anim_event :=
  match e with
  | AnimMerge a b c v =>
      AnimMerge (phi begin_ step a) (phi begin_ step b) (phi begin_ step c) v
  | AnimSlide a b v => AnimSlide (phi begin_ step a) (phi begin_ step b) v
  | AnimBlank a => AnimBlank (phi begin_ step a)
  | AnimNewTile a v => AnimNewTile (phi begin_ step a) v
  end.

Definition lift (begin_ step : Z) (b0 : t) (moved0 : bool) (score0 : Z)
    (anim0 : list anim_event) (p : pass) : pass :=
  mkPass (spread begin_ step b0 (state p))
         (phi begin_ step (from p)) (phi begin_ step (to p))
         (last_value p) (phi begin_ step (last_from p))
         (moved0 || moved p) (score_after score0 (anim p))
         (anim0 ++ map (rename begin_ step) (anim p)).

(** What every pass over four cells maintains. *)
Definition inv (p : pass) : Prop :=
  length (state p) = 4%nat /\ 0 <= to p <= from p /\ from p <= 4 /\
  (last_value p <> 0 -> to p <= last_from p < from p).

(** The pass over a line given as a list of four cells. *)
Definition squash (l : t) : pass := tilt_line 0 1 4 (l, false, 0, []).

(** The pass over line [i] of a board, for the grid walked from [begin_]
    with the given steps. *)
Definition line (begin_ major : Z) (i : nat) : Z := begin_ + Z.of_nat i * major.

Definition res (begin_ major minor : Z) (b0 : t) (i : nat) : pass :=
  squash (read (line begin_ major i) minor b0).

Definition tally (f : Z -> Z) (b : t) : Z :=
  fold_right (fun v acc => f v + acc) 0 b.

(** [begin], [step_major] and [step_minor] of [tilt] per direction. *)
Definition grid_of (dir : Z) : Z * Z * Z :=
  nth (Z.to_nat dir) [(0, 4, 1); (15, -4, -1); (0, 1, 4); (15, -1, -4)] (0, 0, 0).

(** What the proofs need of a grid: its sixteen indices are the cells of
    the board, each once, and sums over the board split by line. *)
Definition grid_ok (g : Z * Z * Z) : Prop :=
  let '(begin_, major, minor) := g in
  minor <> 0 /\
  (forall i j, 0 <= i < 4 -> 0 <= j < 4 ->
     0 <= begin_ + i * major + j * minor < 16) /\
  (forall i i' j j', 0 <= i < 4 -> 0 <= i' < 4 -> 0 <= j < 4 -> 0 <= j' < 4 ->
     begin_ + i * major + j * minor = begin_ + i' * major + j' * minor ->
     i = i' /\ j = j') /\
  (forall idx, 0 <= idx < 16 ->
     exists i j, 0 <= i < 4 /\ 0 <= j < 4 /\ idx = begin_ + i * major + j * minor) /\
  (forall (f : Z -> Z) (b : t), length b = 16%nat ->
     tally f b =
     tally f (read (line begin_ major 0) minor b) +
     tally f (read (line begin_ major 1) minor b) +
     tally f (read (line begin_ major 2) minor b) +
     tally f (read (line begin_ major 3) minor b)).

(** The accumulators of [tilt] after the first [k] lines, each line read
    off the board [b0] the tilt started from. *)
Definition lines_done (begin_ major minor : Z) (b0 : t) (k : nat)
    (acc : t * bool * Z * list anim_event) : Prop :=
  let '(b, mv, sc, an) := acc in
  length b = 16%nat /\
  (forall i, (i < 4)%nat ->
     read (line begin_ major i) minor b =
     if (i <? k)%nat then state (res begin_ major minor b0 i)
     else read (line begin_ major i) minor b0) /\
  mv = existsb (fun i => moved (res begin_ major minor b0 i)) (seq 0 k) /\
  sc = score_after 0 an /\
  merges an =
    fold_right (fun i acc => merges (anim (res begin_ major minor b0 i)) + acc) 0 (seq 0 k) /\
  merged_magnitude an =
    fold_right (fun i acc => merged_magnitude (anim (res begin_ major minor b0 i)) + acc)
               0 (seq 0 k).

(** A line with its tiles packed at the start. *)
Definition settled (l : t) : Prop :=
  match l with
  | [x0; x1; x2; x3] => (x0 = 0 -> x1 = 0) /\ (x1 = 0 -> x2 = 0) /\ (x2 = 0 -> x3 = 0)
  | _ => False
  end.

End Line.

(** * Theorems *)

Section RNGFacts.

Import RNG.

Lemma lxor_u32_bound (a b : Z) :
  0 <= a < 2 ^ 32 -> 0 <= b < 2 ^ 32 -> 0 <= Z.lxor a b < 2 ^ 32.
Proof.
  intros Ha Hb. split.
  - apply Z.lxor_nonneg. lia.
  - destruct (Z.eq_dec (Z.lxor a b) 0) as [->|Hne]; [lia|].
    assert (0 <= Z.lxor a b) by (apply Z.lxor_nonneg; lia).
    apply Z.log2_lt_pow2; [lia|].
    pose proof (Z.log2_lxor a b ltac:(lia) ltac:(lia)) as Hl.
    assert (Z.log2 a < 32).
    { destruct (Z.eq_dec a 0) as [->|]; [simpl; lia|].
      apply Z.log2_lt_pow2; lia. }
    assert (Z.log2 b < 32).
    { destruct (Z.eq_dec b 0) as [->|]; [simpl; lia|].
      apply Z.log2_lt_pow2; lia. }
    lia.
Qed.

Lemma shiftr_u32_bound (a k : Z) :
  0 <= k -> 0 <= a < 2 ^ 32 -> 0 <= Z.shiftr a k < 2 ^ 32.
Proof.
  intros Hk Ha. rewrite Z.shiftr_div_pow2 by lia.
  assert (0 < 2 ^ k) by (apply Z.pow_pos_nonneg; lia).
  split.
  - apply Z.div_pos; lia.
  - apply Z.le_lt_trans with a; [|lia].
    apply Z.div_le_upper_bound; nia.
Qed.

Lemma u32_bound (a : Z) : 0 <= u32 a < 2 ^ 32.
Proof. unfold u32. apply Z.mod_pos_bound. lia. Qed.

Lemma next32_wf (r : t) : wf r -> wf (snd (next32 r)) /\ 0 <= fst (next32 r) < 2 ^ 32.
Proof.
  intros (Hx & Hy & Hz & Hw).
  assert (0 <= fst (next32 r) < 2 ^ 32) as Hv.
  { cbn [next32 fst].
    repeat first [ apply lxor_u32_bound | apply shiftr_u32_bound
                 | apply u32_bound | lia ]. }
  split; [|exact Hv].
  unfold wf. cbn [next32 snd x y z w]. cbn [next32 fst] in Hv. tauto.
Qed.

(** *** Linearity of the generator over exclusive or *)

Lemma lxor_swap4 (p q r s : Z) :
  Z.lxor (Z.lxor p q) (Z.lxor r s) = Z.lxor (Z.lxor p r) (Z.lxor q s).
Proof.
  apply Z.bits_inj'. intros n _. rewrite !Z.lxor_spec.
  destruct (Z.testbit p n), (Z.testbit q n), (Z.testbit r n), (Z.testbit s n);
    reflexivity.
Qed.

Lemma u32_shiftl_lxor (a b k : Z) :
  u32 (Z.shiftl (Z.lxor a b) k) =
  Z.lxor (u32 (Z.shiftl a k)) (u32 (Z.shiftl b k)).
Proof.
  unfold u32. rewrite <- !Z.land_ones by lia. rewrite Z.shiftl_lxor.
  apply Z.bits_inj'. intros n _.
  rewrite !Z.lxor_spec, !Z.land_spec, !Z.lxor_spec.
  destruct (Z.testbit (Z.ones 32) n); rewrite ?andb_true_r, ?andb_false_r;
    reflexivity.
Qed.

Lemma next32_lxor (a b : t) :
  next32 (lxor_state a b) =
  (Z.lxor (fst (next32 a)) (fst (next32 b)),
   lxor_state (snd (next32 a)) (snd (next32 b))).
Proof.
  assert (fst (next32 (lxor_state a b)) =
          Z.lxor (fst (next32 a)) (fst (next32 b))) as Hv.
  { cbn [next32 fst lxor_state x y z w].
    rewrite u32_shiftl_lxor.
    rewrite (lxor_swap4 (x a) (x b)).
    rewrite !Z.shiftr_lxor.
    rewrite (lxor_swap4 (w a) (w b)).
    rewrite (lxor_swap4 (Z.lxor (x a) _) (Z.lxor (x b) _)).
    apply lxor_swap4. }
  change (next32 (lxor_state a b)) with
    (fst (next32 (lxor_state a b)),
     mk (y (lxor_state a b)) (z (lxor_state a b)) (w (lxor_state a b))
        (fst (next32 (lxor_state a b)))).
  rewrite Hv. reflexivity.
Qed.

Lemma tap_xor_lxor (mask : list bool) (a b : t) :
  tap_xor mask (lxor_state a b) = Z.lxor (tap_xor mask a) (tap_xor mask b).
Proof.
  revert a b. induction mask as [|c mask IH]; intros a b; [reflexivity|].
  cbn [tap_xor]. rewrite next32_lxor.
  destruct (next32 a) as [va a'], (next32 b) as [vb b']. cbn [fst snd].
  rewrite IH. destruct c.
  - apply lxor_swap4.
  - rewrite Z.lxor_0_l. reflexivity.
Qed.

(** Splitting off the top bit of a word shorter than [i + 1] bits. *)
Lemma split_top_bit (i v : Z) :
  0 <= i -> 0 <= v < 2 ^ (i + 1) ->
  v = Z.lxor (v mod 2 ^ i) (if Z.testbit v i then 2 ^ i else 0).
Proof.
  intros Hi Hv. apply Z.bits_inj'. intros n Hn.
  rewrite Z.lxor_spec.
  destruct (Z.lt_ge_cases n i) as [Hlt|Hge].
  - rewrite Z.mod_pow2_bits_low by lia.
    destruct (Z.testbit v i).
    + rewrite Z.pow2_bits_false by lia. destruct (Z.testbit v n); reflexivity.
    + rewrite Z.bits_0. destruct (Z.testbit v n); reflexivity.
  - rewrite Z.mod_pow2_bits_high by lia.
    destruct (Z.eq_dec n i) as [->|Hne].
    + destruct (Z.testbit v i) eqn:E.
      * rewrite Z.pow2_bits_true by lia. reflexivity.
      * rewrite Z.bits_0. reflexivity.
    + assert (Z.testbit v n = false) as ->.
      { destruct (Z.eq_dec v 0) as [->|]; [apply Z.bits_0|].
        apply Z.bits_above_log2; [lia|].
        assert (Z.log2 v < i + 1) by (apply Z.log2_lt_pow2; lia). lia. }
      destruct (Z.testbit v i).
      * rewrite Z.pow2_bits_false by lia. reflexivity.
      * rewrite Z.bits_0. reflexivity.
Qed.

Lemma basis_ok_true : basis_ok taps = true.
Proof. vm_compute. reflexivity. Qed.

Lemma tap_xor_zero_state : tap_xor taps (mk 0 0 0 0) = 0.
Proof. vm_compute. reflexivity. Qed.

Lemma basis_at_mask (mask : list bool) (i : nat) :
  basis_ok mask = true ->
  (i < 32)%nat ->
  tap_xor mask (mk (2 ^ Z.of_nat i) 0 0 0) = 0 /\
  tap_xor mask (mk 0 (2 ^ Z.of_nat i) 0 0) = 0 /\
  tap_xor mask (mk 0 0 (2 ^ Z.of_nat i) 0) = 0 /\
  tap_xor mask (mk 0 0 0 (2 ^ Z.of_nat i)) = 0.
Proof.
  intros H Hi. unfold basis_ok in H.
  rewrite forallb_forall in H. specialize (H i).
  assert (In i (seq 0 32)) as Hin by (apply in_seq; lia).
  specialize (H Hin). rewrite !andb_true_iff, !Z.eqb_eq in H. tauto.
Qed.

Lemma basis_at (i : nat) :
  (i < 32)%nat ->
  tap_xor taps (mk (2 ^ Z.of_nat i) 0 0 0) = 0 /\
  tap_xor taps (mk 0 (2 ^ Z.of_nat i) 0 0) = 0 /\
  tap_xor taps (mk 0 0 (2 ^ Z.of_nat i) 0) = 0 /\
  tap_xor taps (mk 0 0 0 (2 ^ Z.of_nat i)) = 0.
Proof. exact (basis_at_mask taps i basis_ok_true). Qed.

(** The recurrence on states with a single non-zero word, by induction on
    the number of bits of that word. *)
Lemma tap_xor_one_word (i : nat) (v : Z) :
  (i <= 32)%nat -> 0 <= v < 2 ^ Z.of_nat i ->
  tap_xor taps (mk v 0 0 0) = 0 /\ tap_xor taps (mk 0 v 0 0) = 0 /\
  tap_xor taps (mk 0 0 v 0) = 0 /\ tap_xor taps (mk 0 0 0 v) = 0.
Proof.
  revert v. induction i as [|i IH]; intros v Hi Hv.
  - assert (v = 0) as -> by (simpl in Hv; lia).
    pose proof tap_xor_zero_state. tauto.
  - rewrite Nat2Z.inj_succ, <- Z.add_1_r in Hv.
    pose proof (split_top_bit (Z.of_nat i) v ltac:(lia) Hv) as Hs.
    set (lo := v mod 2 ^ Z.of_nat i) in *.
    set (hi := if Z.testbit v (Z.of_nat i) then 2 ^ Z.of_nat i else 0) in *.
    assert (0 <= lo < 2 ^ Z.of_nat i) as Hlo
      by (apply Z.mod_pos_bound, Z.pow_pos_nonneg; lia).
    destruct (IH lo ltac:(lia) Hlo) as (L1 & L2 & L3 & L4).
    assert (tap_xor taps (mk hi 0 0 0) = 0 /\ tap_xor taps (mk 0 hi 0 0) = 0 /\
            tap_xor taps (mk 0 0 hi 0) = 0 /\ tap_xor taps (mk 0 0 0 hi) = 0)
      as (H1 & H2 & H3 & H4).
    { subst hi. destruct (Z.testbit v (Z.of_nat i)).
      - apply basis_at. lia.
      - pose proof tap_xor_zero_state. tauto. }
    assert (Z.lxor 0 0 = 0) as Z00 by reflexivity.
    repeat split.
    + replace (mk v 0 0 0) with (lxor_state (mk lo 0 0 0) (mk hi 0 0 0))
        by (unfold lxor_state; cbn [x y z w]; rewrite <- Hs, Z00; reflexivity).
      rewrite tap_xor_lxor, L1, H1. reflexivity.
    + replace (mk 0 v 0 0) with (lxor_state (mk 0 lo 0 0) (mk 0 hi 0 0))
        by (unfold lxor_state; cbn [x y z w]; rewrite <- Hs, Z00; reflexivity).
      rewrite tap_xor_lxor, L2, H2. reflexivity.
    + replace (mk 0 0 v 0) with (lxor_state (mk 0 0 lo 0) (mk 0 0 hi 0))
        by (unfold lxor_state; cbn [x y z w]; rewrite <- Hs, Z00; reflexivity).
      rewrite tap_xor_lxor, L3, H3. reflexivity.
    + replace (mk 0 0 0 v) with (lxor_state (mk 0 0 0 lo) (mk 0 0 0 hi))
        by (unfold lxor_state; cbn [x y z w]; rewrite <- Hs, Z00; reflexivity).
      rewrite tap_xor_lxor, L4, H4. reflexivity.
Qed.

(** Every state of the generator satisfies the recurrence. *)
Lemma tap_xor_zero (r : t) : wf r -> tap_xor taps r = 0.
Proof.
  intros (Hx & Hy & Hz & Hw). destruct r as [a b c d]. cbn [x y z w] in *.
  destruct (tap_xor_one_word 32 a ltac:(lia) Hx) as (A & _).
  destruct (tap_xor_one_word 32 b ltac:(lia) Hy) as (_ & B & _).
  destruct (tap_xor_one_word 32 c ltac:(lia) Hz) as (_ & _ & C & _).
  destruct (tap_xor_one_word 32 d ltac:(lia) Hw) as (_ & _ & _ & D).
  replace (mk a b c d) with
    (lxor_state (lxor_state (mk a 0 0 0) (mk 0 b 0 0))
                (lxor_state (mk 0 0 c 0) (mk 0 0 0 d))).
  - rewrite !tap_xor_lxor, A, B, C, D. reflexivity.
  - unfold lxor_state. cbn [x y z w].
    rewrite !Z.lxor_0_r, !Z.lxor_0_l. reflexivity.
Qed.

(** *** Termination of the rejection loop *)

Lemma testbit_31_high (v : Z) : 2 ^ 31 <= v < 2 ^ 32 -> Z.testbit v 31 = true.
Proof.
  intros Hv. apply Z.testbit_true; [lia|].
  assert (v / 2 ^ 31 = 1) as ->; [|reflexivity].
  symmetry. apply Z.div_unique with (v - 2 ^ 31); lia.
Qed.

(** If [length mask] draws in a row are all rejected, bit 31 of the
    tapped exclusive or is the parity of the number of taps. *)
Lemma redraw_none_parity (mask : list bool) (range : Z) (r : t) :
  wf r -> 2 ^ 31 <= range ->
  redraw (length mask) range r = None ->
  Z.testbit (tap_xor mask r) 31 = parity mask.
Proof.
  revert r. induction mask as [|b mask IH]; intros r Hwf Hrange Hnone.
  - reflexivity.
  - cbn [length redraw tap_xor parity fold_right] in *.
    destruct (next32_wf r Hwf) as [Hwf' Hv].
    destruct (next32 r) as [v r']. cbn [fst snd] in *.
    destruct (v >=? range) eqn:E; [|discriminate].
    apply Z.geb_le in E.
    rewrite Z.lxor_spec, (IH r' Hwf' Hrange Hnone).
    destruct b; [|reflexivity].
    rewrite testbit_31_high by lia. reflexivity.
Qed.

Lemma range_bounds (n : Z) :
  1 <= n <= INT_MAX ->
  let range := UINT32_MAX - UINT32_MAX mod n in
  2 ^ 31 < range <= UINT32_MAX /\ range mod n = 0 /\
  (range - 1) / n + 1 = range / n /\ 0 < range / n /\
  range = n * (range / n).
Proof.
  intros Hn range. unfold INT_MAX, UINT32_MAX in *.
  pose proof (Z.mod_pos_bound 4294967295 n ltac:(lia)) as Hm.
  pose proof (Z.div_mod 4294967295 n ltac:(lia)) as Hd.
  assert (range = n * (4294967295 / n)) as Hr by (subst range; lia).
  assert (range / n = 4294967295 / n) as Hq.
  { rewrite Hr, Z.mul_comm. apply Z.div_mul. lia. }
  assert (0 < 4294967295 / n) as Hpos.
  { apply Z.div_str_pos. lia. }
  repeat split.
  - subst range. lia.
  - subst range. lia.
  - rewrite Hr, Z.mul_comm. apply Z.mod_mul. lia.
  - rewrite Hq. symmetry.
    assert ((range - 1) / n = 4294967295 / n - 1) as ->; [|lia].
    symmetry. apply Z.div_unique with (n - 1); lia.
  - lia.
  - lia.
Qed.

Lemma redraw_returns (range : Z) (r : t) :
  wf r -> 2 ^ 31 <= range -> redraw max_draws range r <> None.
Proof.
  intros Hwf Hrange Hnone.
  change max_draws with (length taps) in Hnone.
  pose proof (redraw_none_parity taps range r Hwf Hrange Hnone) as Hbit.
  rewrite (tap_xor_zero r Hwf), Z.bits_0 in Hbit.
  assert (parity taps = true) as Hp by (vm_compute; reflexivity).
  congruence.
Qed.

(** What a successful loop returns: the first draw below [range]. *)
Lemma redraw_first (fuel : nat) (range : Z) (r : t) (v : Z) (r' : t) :
  redraw fuel range r = Some (v, r') ->
  exists k : nat, (k < fuel)%nat /\
    (forall j : nat, (j < k)%nat -> range <= draw_at j r) /\
    draw_at k r = v /\ v < range /\ r' = skip (S k) r.
Proof.
  revert r. induction fuel as [|fuel IH]; intros r H; [discriminate|].
  cbn [redraw] in H. destruct (next32 r) as [v0 r0] eqn:E.
  destruct (v0 >=? range) eqn:G.
  - apply Z.geb_le in G. destruct (IH r0 H) as (k & Hk & Hrej & Hv & Hlt & Hr).
    exists (S k). split; [lia|]. split; [|split; [|split]].
    + intros [|j] Hj.
      * unfold draw_at. cbn [skip]. rewrite E. exact G.
      * unfold draw_at. cbn [skip]. rewrite E. cbn [snd].
        apply Hrej. lia.
    + unfold draw_at. cbn [skip]. rewrite E. exact Hv.
    + exact Hlt.
    + rewrite Hr. cbn [skip]. rewrite E. reflexivity.
  - injection H as <- <-. exists O. split; [lia|]. split; [|split; [|split]].
    + intros j Hj. lia.
    + unfold draw_at. cbn [skip]. rewrite E. reflexivity.
    + rewrite Z.geb_leb in G. apply Z.leb_gt in G. exact G.
    + cbn [skip]. rewrite E. reflexivity.
Qed.

Lemma skip_wf (k : nat) (r : t) : wf r -> wf (skip k r).
Proof.
  revert r. induction k as [|k IH]; intros r H; [exact H|].
  cbn [skip]. apply IH, next32_wf, H.
Qed.

Lemma draw_at_bound (k : nat) (r : t) : wf r -> 0 <= draw_at k r < 2 ^ 32.
Proof. intros H. apply next32_wf, skip_wf, H. Qed.

(** [next_n] returns: the first draw below [range] is accepted, after at
    most [max_draws] draws, and its quotient lies in [0, n). *)
Lemma next_n_draws (n : Z) (r : t) :
  1 <= n <= INT_MAX -> wf r ->
  let range := UINT32_MAX - UINT32_MAX mod n in
  let per_result := (range - 1) / n + 1 in
  exists (k : nat) (res : Z),
      next_n n r = Some (res, skip (S k) r) /\
      (k < max_draws)%nat /\
      (forall j : nat, (j < k)%nat -> range <= draw_at j r) /\
      0 <= draw_at k r < range /\
      res = draw_at k r / per_result /\
      0 <= res < n.
Proof.
  intros Hn Hwf range per.
  destruct (range_bounds n Hn) as (Hr & Hmod & Hper & Hpos & Hmul).
  fold range in Hr, Hmod, Hper, Hpos, Hmul. fold per in Hper.
  assert (0 < per) as Hperpos by lia.
  pose proof (redraw_returns range r Hwf ltac:(lia)) as Hret.
  destruct (redraw max_draws range r) as [[v r']|] eqn:E; [|congruence].
  destruct (redraw_first _ _ _ _ _ E) as (k & Hk & Hrej & Hv & Hlt & Hr').
  pose proof (draw_at_bound k r Hwf) as Hb.
  exists k, (v / per). unfold next_n, next_n_fuel. fold range. rewrite E.
  fold per. subst r'. rewrite Hv.
  split; [reflexivity|]. split; [exact Hk|]. split; [exact Hrej|].
  split; [lia|]. split; [reflexivity|]. split.
  + apply Z.div_pos; lia.
  + apply Z.div_lt_upper_bound; [lia|]. rewrite Hper. lia.
Qed.

(** C6.  [next_n n] returns for every bound [1 <= n <= INT_MAX] and every
    generator state, after at most 129 draws.  The result is computed
    from the first raw draw below [range = UINT32_MAX - UINT32_MAX % n];
    every earlier draw was at or above [range] and was redrawn.  [range]
    is a multiple of [n] not above the largest multiple of [n] that is
    [<= 2^32], so no draw in the biased remainder region is accepted.
    The result lies in [0, n), and every result in [0, n) is the image of
    exactly [range / n] accepted raw values, the interval
    [res * (range/n), res * (range/n) + range/n). *)
Theorem next_n_returns (n : Z) (r : t) :
  1 <= n <= INT_MAX -> wf r ->
  let range := UINT32_MAX - UINT32_MAX mod n in
  let per_result := (range - 1) / n + 1 in
  (exists (k : nat) (res : Z),
      next_n n r = Some (res, skip (S k) r) /\
      (k < max_draws)%nat /\
      (forall j : nat, (j < k)%nat -> range <= draw_at j r) /\
      0 <= draw_at k r < range /\
      res = draw_at k r / per_result /\
      0 <= res < n) /\
  range mod n = 0 /\
  range <= 2 ^ 32 / n * n /\
  0 < per_result /\
  (forall res v : Z, 0 <= res < n ->
      (0 <= v < range /\ v / per_result = res) <->
      (exists j : Z, 0 <= j < per_result /\ v = res * per_result + j)).
Proof.
  intros Hn Hwf range per.
  destruct (range_bounds n Hn) as (Hr & Hmod & Hper & Hpos & Hmul).
  fold range in Hr, Hmod, Hper, Hpos, Hmul. fold per in Hper.
  assert (0 < per) as Hperpos by lia.
  split; [|split; [|split; [|split]]].
  - exact (next_n_draws n r Hn Hwf).
  - exact Hmod.
  - pose proof (Z.div_mod (2 ^ 32) n ltac:(lia)) as Hd.
    pose proof (Z.mod_pos_bound (2 ^ 32) n ltac:(lia)) as Hm.
    assert (range / n <= 2 ^ 32 / n) as Hle.
    { apply Z.div_le_mono; unfold UINT32_MAX in *; lia. }
    rewrite Hmul at 1. nia.
  - exact Hperpos.
  - intros res v Hres. split.
    + intros (Hv & Hdiv). exists (v mod per).
      pose proof (Z.div_mod v per ltac:(lia)) as Hd.
      pose proof (Z.mod_pos_bound v per ltac:(lia)) as Hm.
      split; [lia|]. rewrite <- Hdiv. lia.
    + intros (j & Hj & ->).
      assert ((res * per + j) / per = res) as Hq.
      { symmetry. apply Z.div_unique with j; lia. }
      split; [|exact Hq].
      assert (range = n * per) as Hnp by (rewrite Hper; exact Hmul).
      assert ((res + 1) * per <= n * per) by nia.
      assert (0 <= res * per) by nia.
      lia.
Qed.

(** Witness for [next_n_returns]: the bound 10 that tile placement uses,
    on the default-seeded generator. *)
Lemma next_n_returns_witness :
  exists (k : nat) (res : Z),
    next_n 10 (reset 0) = Some (res, skip (S k) (reset 0)) /\
    0 <= res < 10.
Proof.
  assert (1 <= 10 <= INT_MAX) as Hn by (unfold INT_MAX; lia).
  assert (wf (reset 0)) as Hwf by (vm_compute; intuition congruence).
  destruct (next_n_returns 10 (reset 0) Hn Hwf)
    as ((k & res & H1 & _ & _ & _ & _ & H2) & _).
  exists k, res. split; assumption.
Defined.

End RNGFacts.

(** ** A pass of [tilt] acts on its line alone *)

Section LineSimulation.

Import Board Line.

Variables (begin_ step : Z) (b0 : Board.t).
Hypothesis Hstep : step <> 0.
Hypothesis Hrange :
  forall j, 0 <= j < 4 -> 0 <= phi begin_ step j < Z.of_nat (length b0).

Ltac phi_facts :=
  pose proof (Hrange 0 ltac:(lia)); pose proof (Hrange 1 ltac:(lia));
  pose proof (Hrange 2 ltac:(lia)); pose proof (Hrange 3 ltac:(lia));
  unfold phi in *.

Ltac four_cells l :=
  destruct l as [|? [|? [|? [|? [|? ?]]]]]; try discriminate.

Ltac pick k :=
  let H := fresh in
  assert (k = 0 \/ k = 1 \/ k = 2 \/ k = 3) as H by lia;
  destruct H as [->|[->|[->| ->]]].

Lemma phi_inj (i j : Z) : phi begin_ step i = phi begin_ step j <-> i = j.
Proof. unfold phi. split; [intros H; nia | intros ->; reflexivity]. Qed.

Lemma phi_eqb (i j : Z) : (phi begin_ step i =? phi begin_ step j) = (i =? j).
Proof.
  destruct (Z.eqb_spec i j) as [->|Hne]; [apply Z.eqb_refl|].
  apply Z.eqb_neq. rewrite phi_inj. exact Hne.
Qed.

Lemma length_spread (l : t) : length (spread begin_ step b0 l) = length b0.
Proof. unfold spread, set. cbn [fold_left]. rewrite !length_insert. reflexivity. Qed.

Lemma get_spread (l : t) (k : Z) :
  length l = 4%nat -> 0 <= k < 4 ->
  get (spread begin_ step b0 l) (phi begin_ step k) = get l k.
Proof.
  intros Hl Hk. four_cells l.
  unfold spread, get, set. cbn [fold_left]. phi_facts.
  pick k;
    repeat first
      [ rewrite list_lookup_insert_eq by (rewrite ?length_insert; lia)
      | rewrite list_lookup_insert_ne by lia ];
    reflexivity.
Qed.

Lemma set_spread (l : t) (k v : Z) :
  length l = 4%nat -> 0 <= k < 4 ->
  set (spread begin_ step b0 l) (phi begin_ step k) v =
  spread begin_ step b0 (set l k v).
Proof.
  intros Hl Hk. four_cells l.
  unfold spread, set, get. cbn [fold_left]. phi_facts.
  pick k; cbn [Z.to_nat Pos.to_nat Pos.iter_op Init.Nat.add lookup list_lookup
               insert list_insert default].
  - do 3 (rewrite (list_insert_insert_ne _ (Z.to_nat (begin_ + 0 * step))) by lia).
    rewrite list_insert_insert_eq. reflexivity.
  - do 2 (rewrite (list_insert_insert_ne _ (Z.to_nat (begin_ + 1 * step))) by lia).
    rewrite list_insert_insert_eq. reflexivity.
  - rewrite (list_insert_insert_ne _ (Z.to_nat (begin_ + 2 * step))) by lia.
    rewrite list_insert_insert_eq. reflexivity.
  - rewrite list_insert_insert_eq. reflexivity.
Qed.

Lemma get_spread_other (l : t) (idx : Z) :
  0 <= idx -> (forall j, 0 <= j < 4 -> idx <> phi begin_ step j) ->
  get (spread begin_ step b0 l) idx = get b0 idx.
Proof.
  intros Hidx Hne.
  pose proof (Hne 0 ltac:(lia)); pose proof (Hne 1 ltac:(lia));
    pose proof (Hne 2 ltac:(lia)); pose proof (Hne 3 ltac:(lia)).
  unfold spread, get, set. cbn [fold_left]. phi_facts.
  rewrite !list_lookup_insert_ne by lia. reflexivity.
Qed.

Lemma set_get_id (b : t) (i : Z) :
  0 <= i < Z.of_nat (length b) -> set b i (get b i) = b.
Proof.
  intros Hi. unfold set, get. apply list_insert_id.
  destruct (b !! Z.to_nat i) eqn:E; [reflexivity|].
  apply lookup_ge_None in E. lia.
Qed.

Lemma spread_read : spread begin_ step b0 (read begin_ step b0) = b0.
Proof.
  unfold spread, read. cbn [fold_left map].
  change (get [?a; ?b; ?c; ?d] 0) with a.
  change (get [?a; ?b; ?c; ?d] 1) with b.
  change (get [?a; ?b; ?c; ?d] 2) with c.
  change (get [?a; ?b; ?c; ?d] 3) with d.
  rewrite !set_get_id; [reflexivity|..]; apply Hrange; lia.
Qed.

Variables (moved0 : bool) (score0 : Z) (anim0 : list anim_event).

Lemma score_after_snoc (sc : Z) (a : list anim_event) (e : anim_event) :
  score_after sc (a ++ [e]) =
  match e with
  | AnimMerge _ _ _ old_value => i32 (score_after sc a + shl1 (old_value + 1))
  | _ => score_after sc a
  end.
Proof. unfold score_after. rewrite fold_left_app. destruct e; reflexivity. Qed.

Local Abbreviation lift0 := (lift begin_ step b0 moved0 score0 anim0).

Lemma phi_succ (j : Z) : phi begin_ step (j + 1) = phi begin_ step j + step.
Proof. unfold phi. ring. Qed.

Lemma moved_lift (a b : Z) (mv : bool) :
  (if negb (phi begin_ step a =? phi begin_ step b) then true else moved0 || mv) =
  moved0 || (if negb (a =? b) then true else mv).
Proof. rewrite phi_eqb. destruct (a =? b); cbn; [reflexivity|]. rewrite orb_true_r. reflexivity. Qed.

Lemma scan_body_lift (p : pass) :
  inv p -> from p < 4 ->
  scan_body step (lift0 p) = lift0 (scan_body 1 p).
Proof.
  intros (Hlen & Hto & Hfrom & Hlast) Hlt.
  unfold scan_body, lift.
  cbn [state from to last_value last_from moved score anim].
  rewrite get_spread by (assumption || lia).
  destruct (get (state p) (from p) =? 0) eqn:E0; cbn [negb].
  - cbn [state from to last_value last_from moved score anim].
    rewrite phi_succ. reflexivity.
  - destruct (last_value p =? 0) eqn:E1; cbn [negb].
    + cbn [state from to last_value last_from moved score anim].
      rewrite phi_succ. reflexivity.
    + apply Z.eqb_neq in E1. specialize (Hlast E1).
      destruct (last_value p =? get (state p) (from p)) eqn:E2;
        cbn [state from to last_value last_from moved score anim];
        rewrite set_spread by (assumption || lia);
        rewrite !phi_succ, ?moved_lift, ?orb_true_r, map_app, app_assoc, score_after_snoc;
        reflexivity.
Qed.

Lemma scan_body_inv (p : pass) : inv p -> from p < 4 -> inv (scan_body 1 p).
Proof.
  intros (Hlen & Hto & Hfrom & Hlast) Hlt. unfold scan_body, inv.
  destruct (get (state p) (from p) =? 0) eqn:E0; cbn [negb].
  - cbn [state from to last_value last_from]. repeat split; try lia.
    all: intros H; specialize (Hlast H); lia.
  - apply Z.eqb_neq in E0.
    destruct (last_value p =? 0) eqn:E1; cbn [negb].
    + cbn [state from to last_value last_from]. repeat split; lia.
    + apply Z.eqb_neq in E1. specialize (Hlast E1).
      destruct (last_value p =? get (state p) (from p));
        cbn [state from to last_value last_from]; unfold set;
        rewrite length_insert; repeat split; lia.
Qed.

Lemma scan_lift (fuel : nat) (p : pass) :
  inv p ->
  scan fuel step (phi begin_ step 4) (lift0 p) = lift0 (scan fuel 1 4 p) /\
  inv (scan fuel 1 4 p).
Proof.
  revert p. induction fuel as [|fuel IH]; intros p Hinv.
  - cbn [scan]. change (from (lift0 p)) with (phi begin_ step (from p)).
    rewrite phi_eqb. destruct (from p =? 4); split; (reflexivity || assumption).
  - cbn [scan]. change (from (lift0 p)) with (phi begin_ step (from p)).
    rewrite phi_eqb. destruct (from p =? 4) eqn:E; [split; (reflexivity || assumption)|].
    apply Z.eqb_neq in E.
    assert (from p < 4) as Hlt by (destruct Hinv as (_ & _ & ? & _); lia).
    rewrite scan_body_lift by assumption.
    apply IH, scan_body_inv; assumption.
Qed.

Lemma flush_lift (p : pass) :
  inv p -> flush step (lift0 p) = lift0 (flush 1 p) /\
           (let q := flush 1 p in
            length (state q) = 4%nat /\ 0 <= to q <= 4).
Proof.
  intros (Hlen & Hto & Hfrom & Hlast). unfold flush, lift.
  cbn [state from to last_value last_from moved score anim].
  destruct (last_value p =? 0) eqn:E1; cbn [negb].
  - cbn [state to]. repeat split; (reflexivity || lia).
  - apply Z.eqb_neq in E1. specialize (Hlast E1).
    cbn [state from to last_value last_from moved score anim].
    rewrite set_spread by (assumption || lia).
    rewrite phi_succ, moved_lift, map_app, app_assoc, score_after_snoc.
    unfold set. rewrite length_insert. repeat split; (reflexivity || lia).
Qed.

Lemma blank_lift (fuel : nat) (p : pass) :
  length (state p) = 4%nat -> 0 <= to p <= 4 ->
  blank fuel step (phi begin_ step 4) (lift0 p) = lift0 (blank fuel 1 4 p).
Proof.
  revert p. induction fuel as [|fuel IH]; intros p Hlen Hto.
  - cbn [blank]. change (to (lift0 p)) with (phi begin_ step (to p)).
    rewrite phi_eqb. destruct (to p =? 4); reflexivity.
  - cbn [blank]. change (to (lift0 p)) with (phi begin_ step (to p)).
    rewrite phi_eqb. destruct (to p =? 4) eqn:E; [reflexivity|].
    apply Z.eqb_neq in E.
    rewrite <- IH.
    + unfold lift. cbn [state from to last_value last_from moved score anim].
      rewrite set_spread by (assumption || lia).
      rewrite phi_succ, map_app, app_assoc, score_after_snoc. reflexivity.
    + cbn [state]. unfold set. rewrite length_insert. assumption.
    + cbn [to]. lia.
Qed.

(** The pass over the line that starts at [begin_] is the pass over its
    four cells, written back in place. *)
Lemma tilt_line_lift :
  tilt_line begin_ step 4 (b0, moved0, score0, anim0) =
  lift0 (squash (read begin_ step b0)).
Proof.
  unfold squash, tilt_line.
  change (Z.to_nat 4) with 4%nat. change (0 + 4 * 1) with 4.
  change (begin_ + 4 * step) with (phi begin_ step 4).
  set (p0 := mkPass (read begin_ step b0) 0 0 0 0 false 0 []).
  assert (mkPass b0 begin_ begin_ 0 begin_ moved0 score0 anim0 = lift0 p0) as ->.
  { unfold lift, p0. cbn [state from to last_value last_from moved score anim map].
    rewrite spread_read, orb_false_r, app_nil_r.
    unfold phi. rewrite Z.mul_0_l, Z.add_0_r. reflexivity. }
  assert (inv p0) as Hinv.
  { unfold inv, p0. cbn. repeat split; lia. }
  destruct (scan_lift 4 p0 Hinv) as [-> Hinv1].
  destruct (flush_lift _ Hinv1) as [-> [Hlen Hto]].
  apply blank_lift; assumption.
Qed.

End LineSimulation.

(** ** What a pass does to the four cells of a line

  Each fact is checked on every control path of the pass over a line
  [[a; b; c; d]]: the paths differ by which cells are empty and which
  neighbouring tiles are equal. *)

Section LineFacts.

Import Board Line.

Local Arguments Z.add : simpl nomatch.
Local Arguments Z.mul : simpl nomatch.
Local Arguments Z.to_nat : simpl nomatch.
Local Arguments Pos.to_nat : simpl nomatch.
Local Arguments Pos.add : simpl nomatch.
Local Arguments Pos.succ : simpl nomatch.
Local Arguments Pos.mul : simpl nomatch.
Local Arguments scan_body _ !p /.
Local Arguments flush _ !p /.
Local Arguments get !b !i /.
Local Arguments set !b !i _ /.
Local Arguments i32 : simpl never.
Local Arguments shl1 : simpl never.

Ltac plain x :=
  lazymatch x with
  | context [mkPass] => fail
  | _ => idtac
  end.

Ltac split_tests :=
  repeat match goal with
         | |- context [Z.eqb ?x ?y] =>
             plain x; plain y; destruct (Z.eqb_spec x y); try lia; cbn
         end.

Lemma u8_succ (v : Z) : 0 <= v < 255 -> u8 (v + 1) = v + 1.
Proof. intros. unfold u8. apply Z.mod_small. lia. Qed.

(** Both loops of the pass leave by their own test, and a pass that
    reports nothing moved has changed nothing. *)
Lemma squash_exit (a b c d : Z) (p : pass) :
  squash [a; b; c; d] = p ->
  from p = 4 /\ to p = 4 /\ length (state p) = 4%nat /\
  (moved p = false -> state p = [a; b; c; d] /\ score p = 0 /\ merges (anim p) = 0).
Proof.
  unfold squash, tilt_line. cbn.
  split_tests.
  all: intros <-; cbn; repeat split; try reflexivity; try discriminate.
  all: subst; reflexivity.
Qed.

Lemma squash_legal (a b c d : Z) (p : pass) :
  0 <= a < 255 -> 0 <= b < 255 -> 0 <= c < 255 -> 0 <= d < 255 ->
  squash [a; b; c; d] = p ->
  (moved p = true -> state p <> [a; b; c; d]) /\
  count_tiles (state p) = count_tiles [a; b; c; d] - merges (anim p) /\
  mass (state p) = mass [a; b; c; d] /\
  settled (state p).
Proof.
  intros Ha Hb Hc Hd.
  unfold squash, tilt_line. cbn.
  split_tests.
  all: intros <-; cbn; rewrite ?u8_succ by lia;
    unfold merges, count_tiles, mass; cbn; split_tests;
    rewrite ?Z.pow_add_r by lia; change (2 ^ 1) with 2;
    (split; [try discriminate; intros _ H; injection H; intros; lia |]);
    repeat split; try lia.
  all: subst; lia.
Qed.

(** Cell values grow by at most one in a pass. *)
Lemma squash_bound (a b c d hi : Z) (p : pass) :
  0 <= a <= hi -> 0 <= b <= hi -> 0 <= c <= hi -> 0 <= d <= hi -> hi < 255 ->
  squash [a; b; c; d] = p ->
  Forall (fun v => 0 <= v <= hi + 1) (state p).
Proof.
  intros Ha Hb Hc Hd Hhi.
  unfold squash, tilt_line. cbn.
  split_tests.
  all: intros <-; cbn; rewrite ?u8_succ by lia;
    repeat (apply Forall_cons; split; [lia|]); apply Forall_nil; exact I.
Qed.

(** On a settled line the pass moves something exactly when two equal
    tiles are neighbours. *)
Lemma squash_settled (a b c d : Z) (p : pass) :
  settled [a; b; c; d] ->
  squash [a; b; c; d] = p ->
  moved p = pair_walk 3 [a; b; c; d] 0 1.
Proof.
  intros (H1 & H2 & H3).
  unfold squash, tilt_line. cbn.
  split_tests.
  all: intros <-; cbn; split_tests; try reflexivity.
Qed.

End LineFacts.

(** ** A tilt acts on the four lines of the grid independently *)

Lemma tally_app (f : Z -> Z) (l1 l2 : list Z) :
Line.tally f (l1 ++ l2) = Line.tally f l1 + Line.tally f l2.
Proof.
unfold Line.tally. induction l1 as [|c l1 IH]; cbn [app fold_right]; lia.
Qed.

Lemma tally_set (f : Z -> Z) (b : list Z) (i v : Z) :
0 <= i < Z.of_nat (length b) ->
Line.tally f (Board.set b i v) = Line.tally f b - f (Board.get b i) + f v.
Proof.
intros Hi. unfold Board.set, Board.get.
assert (Z.to_nat i < length b)%nat as Hn by lia.
destruct (b !! Z.to_nat i) as [c|] eqn:E.
- rewrite insert_take_drop by exact Hn.
  rewrite <- (take_drop_middle b (Z.to_nat i) c E) at 3.
  rewrite !tally_app. cbn [default Line.tally fold_right]. change (id c) with c.
  unfold Line.tally. lia.
- apply lookup_ge_None in E. lia.
Qed.

Section Grid.

Import Board Line.

(** The passes are compared as wholes here, never run. *)
Opaque squash.

Variables (begin_ major minor : Z).
Hypothesis Hminor : minor <> 0.
Hypothesis Hgrid :
  forall i j, 0 <= i < 4 -> 0 <= j < 4 ->
    0 <= begin_ + i * major + j * minor < 16.
Hypothesis Hinj :
  forall i i' j j', 0 <= i < 4 -> 0 <= i' < 4 -> 0 <= j < 4 -> 0 <= j' < 4 ->
    begin_ + i * major + j * minor = begin_ + i' * major + j' * minor ->
    i = i' /\ j = j'.
Hypothesis Hcover :
  forall idx, 0 <= idx < 16 ->
    exists i j, 0 <= i < 4 /\ 0 <= j < 4 /\ idx = begin_ + i * major + j * minor.
Hypothesis Hsum :
  forall (f : Z -> Z) (b : t), length b = 16%nat ->
    tally f b =
    tally f (read (line begin_ major 0) minor b) +
    tally f (read (line begin_ major 1) minor b) +
    tally f (read (line begin_ major 2) minor b) +
    tally f (read (line begin_ major 3) minor b).

Local Abbreviation ln := (line begin_ major).

Lemma line_range (b : t) (i : nat) :
  length b = 16%nat -> (i < 4)%nat ->
  forall j, 0 <= j < 4 -> 0 <= phi (ln i) minor j < Z.of_nat (length b).
Proof.
  intros Hlen Hi j Hj. unfold phi, line. rewrite Hlen.
  apply (Hgrid (Z.of_nat i) j); lia.
Qed.

Lemma length_read (bg : Z) (b : t) : length (read bg minor b) = 4%nat.
Proof. reflexivity. Qed.

Lemma read_ext (bg : Z) (b b' : t) :
  (forall j, 0 <= j < 4 -> get b (phi bg minor j) = get b' (phi bg minor j)) ->
  read bg minor b = read bg minor b'.
Proof.
  intros H. unfold read. cbn [map].
  rewrite (H 0), (H 1), (H 2), (H 3) by lia. reflexivity.
Qed.

Lemma read_spread_same (b l : t) (i : nat) :
  length b = 16%nat -> (i < 4)%nat -> length l = 4%nat ->
  read (ln i) minor (spread (ln i) minor b l) = l.
Proof.
  intros Hlen Hi Hl. unfold read. cbn [map].
  rewrite !(get_spread _ _ _ Hminor (line_range b i Hlen Hi)) by (assumption || lia).
  destruct l as [|? [|? [|? [|? [|? ?]]]]]; try discriminate. reflexivity.
Qed.

Lemma read_spread_other (b l : t) (i i' : nat) :
  length b = 16%nat -> (i < 4)%nat -> (i' < 4)%nat -> i <> i' ->
  read (ln i') minor (spread (ln i) minor b l) = read (ln i') minor b.
Proof.
  intros Hlen Hi Hi' Hne. apply read_ext. intros j Hj.
  apply (get_spread_other _ _ _ Hminor (line_range b i Hlen Hi)).
  - pose proof (line_range b i' Hlen Hi' j Hj). lia.
  - intros j' Hj' Heq. unfold phi, line in Heq.
    destruct (Hinj (Z.of_nat i') (Z.of_nat i) j j') as [? _]; try lia.
Qed.

Local Abbreviation rs := (res begin_ major minor).
Local Abbreviation done := (lines_done begin_ major minor).

Lemma merges_app (a1 a2 : list anim_event) :
  merges (a1 ++ a2) = merges a1 + merges a2.
Proof.
  unfold merges. induction a1 as [|e a1 IH]; cbn [app fold_right]; [lia|].
  rewrite IH. destruct (is_merge e); lia.
Qed.

Lemma merged_magnitude_app (a1 a2 : list anim_event) :
  merged_magnitude (a1 ++ a2) = merged_magnitude a1 + merged_magnitude a2.
Proof.
  unfold merged_magnitude. induction a1 as [|e a1 IH]; cbn [app fold_right]; [lia|].
  rewrite IH. destruct e; lia.
Qed.

Lemma score_after_app (sc : Z) (a1 a2 : list anim_event) :
  score_after sc (a1 ++ a2) = score_after (score_after sc a1) a2.
Proof. unfold score_after. apply fold_left_app. Qed.

Lemma score_after_rename (bg sc : Z) (a : list anim_event) :
  score_after sc (map (rename bg minor) a) = score_after sc a.
Proof.
  unfold score_after. revert sc.
  induction a as [|e a IH]; intros sc; [reflexivity|].
  cbn [map fold_left]. rewrite <- IH. destruct e; reflexivity.
Qed.

(** Without a merge the score stays. *)
Lemma score_after_still (sc : Z) (a : list anim_event) :
  merges a = 0 -> score_after sc a = sc.
Proof.
  unfold score_after, merges. revert sc.
  induction a as [|e a IH]; intros sc H; [reflexivity|].
  cbn [fold_left fold_right] in *.
  assert (0 <= fold_right (fun e acc => if is_merge e then 1 + acc else acc) 0 a) as Hpos.
  { clear. induction a as [|e a IH]; cbn [fold_right]; [lia|]. destruct (is_merge e); lia. }
  destruct e; cbn [is_merge] in H; try lia; apply IH; exact H.
Qed.

Lemma merges_rename (bg : Z) (a : list anim_event) :
  merges (map (rename bg minor) a) = merges a /\
  merged_magnitude (map (rename bg minor) a) = merged_magnitude a.
Proof.
  unfold merges, merged_magnitude.
  induction a as [|e a [IH1 IH2]]; [split; reflexivity|].
  cbn [map fold_right]. rewrite IH1, IH2. destruct e; split; reflexivity.
Qed.

Lemma fold_seq_snoc (g : nat -> Z) (k : nat) :
  fold_right (fun i acc => g i + acc) 0 (seq 0 (S k)) =
  fold_right (fun i acc => g i + acc) 0 (seq 0 k) + g k.
Proof.
  rewrite seq_S, fold_right_app. cbn [fold_right Nat.add].
  generalize (seq 0 k). intros l. induction l as [|x l IH]; cbn [fold_right]; lia.
Qed.

Lemma existsb_seq_snoc (g : nat -> bool) (k : nat) :
  existsb g (seq 0 (S k)) = existsb g (seq 0 k) || g k.
Proof.
  rewrite seq_S, existsb_app. cbn [existsb Nat.add]. rewrite orb_false_r. reflexivity.
Qed.

Lemma tilt_line_done (b0 : t) (k : nat) (acc : t * bool * Z * list anim_event) :
  (k < 4)%nat -> done b0 k acc ->
  let p := tilt_line (ln k) minor 4 acc in
  done b0 (S k) (state p, moved p, score p, anim p).
Proof.
  intros Hk. destruct acc as [[[b mv] sc] an].
  intros (Hlen & Hread & Hmv & Hsc & Hmg & Hmm). cbv zeta.
  rewrite (tilt_line_lift (ln k) minor b Hminor (line_range b k Hlen Hk)).
  assert (read (ln k) minor b = read (ln k) minor b0) as Hk0.
  { rewrite (Hread k Hk). rewrite Nat.ltb_irrefl. reflexivity. }
  rewrite Hk0. change (squash (read (ln k) minor b0)) with (rs b0 k).
  destruct (squash_exit _ _ _ _ (rs b0 k) eq_refl) as (_ & _ & Hl4 & _).
  unfold lift, lines_done. cbn [state moved score anim].
  split; [rewrite length_spread; exact Hlen|].
  split; [|split; [|split; [|split]]].
  - intros i Hi. destruct (Nat.eq_dec i k) as [->|Hne].
    + rewrite read_spread_same by assumption.
      assert ((k <? S k)%nat = true) as -> by (apply Nat.ltb_lt; lia). reflexivity.
    + rewrite read_spread_other by (assumption || lia).
      rewrite (Hread i Hi).
      destruct (Nat.ltb_spec i k), (Nat.ltb_spec i (S k)); (reflexivity || lia).
  - rewrite existsb_seq_snoc, Hmv. reflexivity.
  - rewrite score_after_app, score_after_rename, Hsc. reflexivity.
  - rewrite merges_app, (proj1 (merges_rename _ _)), fold_seq_snoc, Hmg. reflexivity.
  - rewrite merged_magnitude_app, (proj2 (merges_rename _ _)), fold_seq_snoc, Hmm.
    reflexivity.
Qed.

Lemma tilt_lines_done (b0 : t) (n k : nat) (acc : t * bool * Z * list anim_event) :
  (k + n <= 4)%nat -> done b0 k acc ->
  done b0 (k + n) (tilt_lines n (ln k) major minor 4 acc).
Proof.
  revert k acc. induction n as [|n IH]; intros k acc Hk Hacc.
  - rewrite Nat.add_0_r. exact Hacc.
  - cbn [tilt_lines].
    replace (ln k + major) with (ln (S k)) by (unfold line; lia).
    replace (k + S n)%nat with (S k + n)%nat by lia.
    apply IH; [lia|]. apply tilt_line_done; [lia|exact Hacc].
Qed.

(** The four passes of a tilt, each read off the original board. *)
Lemma tilt_grid (b0 : t) :
  length b0 = 16%nat ->
  done b0 4 (tilt_lines 4 begin_ major minor 4 (b0, false, 0, [])).
Proof.
  intros Hlen0.
  replace begin_ with (ln 0) at 2 by (unfold line; lia).
  apply (tilt_lines_done b0 4 0); [lia|].
  unfold lines_done. cbn [seq existsb fold_right merges merged_magnitude].
  repeat split; try reflexivity. exact Hlen0.
Qed.

Lemma get_in_range (b : t) (idx : Z) (P : Z -> Prop) :
  Forall P b -> 0 <= idx < Z.of_nat (length b) -> P (get b idx).
Proof.
  intros HP Hidx. unfold get.
  destruct (b !! Z.to_nat idx) as [c|] eqn:E.
  - cbn. exact (proj1 (Forall_lookup P b) HP _ _ E).
  - apply lookup_ge_None in E. lia.
Qed.

(** Two boards with the same four lines are the same board. *)
Lemma board_ext (b b' : t) :
  length b = 16%nat -> length b' = 16%nat ->
  (forall i, (i < 4)%nat -> read (ln i) minor b = read (ln i) minor b') ->
  b = b'.
Proof.
  intros Hlen Hlen' Hlines. apply list_eq. intros n.
  destruct (Nat.lt_ge_cases n 16) as [Hn|Hn].
  - destruct (Hcover (Z.of_nat n) ltac:(lia)) as (i & j & Hi & Hj & Hidx).
    specialize (Hlines (Z.to_nat i) ltac:(lia)).
    unfold read in Hlines. cbn [map] in Hlines.
    assert (get b (Z.of_nat n) = get b' (Z.of_nat n)) as Hget.
    { rewrite Hidx. unfold phi, line in Hlines. rewrite Z2Nat.id in Hlines by lia.
      injection Hlines as H0 H1 H2 H3.
      assert (j = 0 \/ j = 1 \/ j = 2 \/ j = 3) as [->|[->|[->| ->]]] by lia;
        assumption. }
    unfold get in Hget. rewrite Nat2Z.id in Hget.
    destruct (b !! n) as [c|] eqn:E; destruct (b' !! n) as [c'|] eqn:E';
      try (apply lookup_ge_None in E; lia); try (apply lookup_ge_None in E'; lia).
    cbn in Hget. congruence.
  - rewrite (proj2 (lookup_ge_None b n)), (proj2 (lookup_ge_None b' n)) by lia.
    reflexivity.
Qed.

Lemma existsb_agree (g h : nat -> bool) (l : list nat) :
  (forall i, In i l -> g i = h i) -> existsb g l = existsb h l.
Proof.
  induction l as [|x l IH]; intros H; [reflexivity|].
  cbn [existsb]. rewrite (H x), IH; [reflexivity| |left; reflexivity].
  intros i Hi. apply H. right. exact Hi.
Qed.

Lemma existsb_seq4_false (g : nat -> bool) :
  existsb g (seq 0 4) = false -> forall i, (i < 4)%nat -> g i = false.
Proof.
  cbn [seq existsb]. intros H i Hi.
  repeat (apply orb_false_elim in H; destruct H as [? H]).
  destruct i as [|[|[|[|i]]]]; (assumption || lia).
Qed.

Lemma existsb_seq4_true (g : nat -> bool) :
  existsb g (seq 0 4) = true -> exists i, (i < 4)%nat /\ g i = true.
Proof.
  cbn [seq existsb]. intros H.
  destruct (g 0%nat) eqn:E0; [exists 0%nat; split; [lia|assumption]|].
  destruct (g 1%nat) eqn:E1; [exists 1%nat; split; [lia|assumption]|].
  destruct (g 2%nat) eqn:E2; [exists 2%nat; split; [lia|assumption]|].
  destruct (g 3%nat) eqn:E3; [exists 3%nat; split; [lia|assumption]|].
  discriminate.
Qed.

(** A tilt that reports nothing moved changed nothing. *)
Lemma grid_unmoved (b0 b' : t) (sc : Z) (an : list anim_event) :
  length b0 = 16%nat ->
  tilt_lines 4 begin_ major minor 4 (b0, false, 0, []) = (b', false, sc, an) ->
  b' = b0 /\ sc = 0 /\ merges an = 0.
Proof.
  intros Hlen0 Hrun. pose proof (tilt_grid b0 Hlen0) as Hdone.
  rewrite Hrun in Hdone. destruct Hdone as (Hlen & Hread & Hmv & Hsc & Hmg & _).
  symmetry in Hmv.
  pose proof (existsb_seq4_false _ Hmv) as Hstill.
  assert (forall i, (i < 4)%nat ->
            state (rs b0 i) = read (ln i) minor b0 /\ score (rs b0 i) = 0 /\
            merges (anim (rs b0 i)) = 0) as Hline.
  { intros i Hi. apply (squash_exit _ _ _ _ (rs b0 i) eq_refl), Hstill, Hi. }
  assert (merges an = 0) as Hnone.
  { rewrite Hmg. cbn [seq fold_right].
    rewrite (proj2 (proj2 (Hline 0%nat ltac:(lia)))), (proj2 (proj2 (Hline 1%nat ltac:(lia)))),
      (proj2 (proj2 (Hline 2%nat ltac:(lia)))), (proj2 (proj2 (Hline 3%nat ltac:(lia)))).
    reflexivity. }
  split; [|split].
  - apply board_ext; try assumption. intros i Hi.
    rewrite (Hread i Hi).
    assert ((i <? 4)%nat = true) as -> by (apply Nat.ltb_lt; exact Hi).
    apply Hline, Hi.
  - rewrite Hsc. apply score_after_still, Hnone.
  - exact Hnone.
Qed.

Lemma read_legal (b0 : t) (i : nat) (P : Z -> Prop) :
  length b0 = 16%nat -> Forall P b0 -> (i < 4)%nat ->
  exists a b c d, read (ln i) minor b0 = [a; b; c; d] /\ P a /\ P b /\ P c /\ P d.
Proof.
  intros Hlen HP Hi. unfold read. cbn [map].
  eexists _, _, _, _. split; [reflexivity|].
  repeat split; apply get_in_range; try assumption; apply line_range; (assumption || lia).
Qed.

(** What a tilt does to a board whose cells are below 255. *)
Lemma grid_legal (b0 b' : t) (mv : bool) (sc : Z) (an : list anim_event) :
  length b0 = 16%nat -> Forall (fun v => 0 <= v < 255) b0 ->
  tilt_lines 4 begin_ major minor 4 (b0, false, 0, []) = (b', mv, sc, an) ->
  (mv = true -> b' <> b0) /\
  count_tiles b' = count_tiles b0 - merges an /\
  mass b' = mass b0 /\
  sc = score_after 0 an /\
  (forall i, (i < 4)%nat -> settled (read (ln i) minor b')).
Proof.
  intros Hlen0 Hleg Hrun. pose proof (tilt_grid b0 Hlen0) as Hdone.
  rewrite Hrun in Hdone. destruct Hdone as (Hlen & Hread & Hmv & Hsc & Hmg & Hmm).
  assert (forall i, (i < 4)%nat -> read (ln i) minor b' = state (rs b0 i)) as Hread'.
  { intros i Hi. rewrite (Hread i Hi).
    assert ((i <? 4)%nat = true) as -> by (apply Nat.ltb_lt; exact Hi). reflexivity. }
  assert (forall i, (i < 4)%nat ->
            (moved (rs b0 i) = true -> state (rs b0 i) <> read (ln i) minor b0) /\
            count_tiles (state (rs b0 i)) =
              count_tiles (read (ln i) minor b0) - merges (anim (rs b0 i)) /\
            mass (state (rs b0 i)) = mass (read (ln i) minor b0) /\
            settled (state (rs b0 i))) as Hline.
  { intros i Hi.
    destruct (read_legal b0 i _ Hlen0 Hleg Hi) as (a & b & c & d & Hr & Ha & Hb & Hc & Hd).
    unfold res. rewrite Hr. apply squash_legal; (assumption || reflexivity). }
  destruct (Hline 0%nat ltac:(lia)) as (_ & C0 & M0 & _).
  destruct (Hline 1%nat ltac:(lia)) as (_ & C1 & M1 & _).
  destruct (Hline 2%nat ltac:(lia)) as (_ & C2 & M2 & _).
  destruct (Hline 3%nat ltac:(lia)) as (_ & C3 & M3 & _).
  split; [|split; [|split; [|split]]].
  - intros -> Heq. symmetry in Hmv.
    destruct (existsb_seq4_true _ Hmv) as (i & Hi & Hm).
    apply (proj1 (Hline i Hi) Hm). rewrite <- (Hread' i Hi), Heq. reflexivity.
  - change (count_tiles b') with (tally (fun v => if v =? 0 then 0 else 1) b').
    change (count_tiles b0) with (tally (fun v => if v =? 0 then 0 else 1) b0).
    rewrite (Hsum _ b' Hlen), (Hsum _ b0 Hlen0), !Hread' by lia.
    rewrite Hmg. cbn [seq fold_right].
    unfold count_tiles in C0, C1, C2, C3. unfold tally. lia.
  - change (mass b') with (tally (fun v => if v =? 0 then 0 else 2 ^ v) b').
    change (mass b0) with (tally (fun v => if v =? 0 then 0 else 2 ^ v) b0).
    rewrite (Hsum _ b' Hlen), (Hsum _ b0 Hlen0), !Hread' by lia.
    unfold mass in M0, M1, M2, M3. unfold tally. lia.
  - exact Hsc.
  - intros i Hi. rewrite (Hread' i Hi). apply Hline, Hi.
Qed.

(** Cell values grow by at most one in a tilt. *)
Lemma grid_bound (b0 b' : t) (mv : bool) (sc hi : Z) (an : list anim_event) :
  length b0 = 16%nat -> Forall (fun v => 0 <= v <= hi) b0 -> hi < 255 ->
  tilt_lines 4 begin_ major minor 4 (b0, false, 0, []) = (b', mv, sc, an) ->
  length b' = 16%nat /\ Forall (fun v => 0 <= v <= hi + 1) b'.
Proof.
  intros Hlen0 Hleg Hhi Hrun. pose proof (tilt_grid b0 Hlen0) as Hdone.
  rewrite Hrun in Hdone. destruct Hdone as (Hlen & Hread & _).
  split; [exact Hlen|].
  apply Forall_lookup. intros n v Hn.
  assert (n < 16)%nat as Hn16 by (rewrite <- Hlen; eapply lookup_lt_Some; exact Hn).
  destruct (Hcover (Z.of_nat n) ltac:(lia)) as (i & j & Hi & Hj & Hidx).
  pose proof (Hread (Z.to_nat i) ltac:(lia)) as Hr.
  assert ((Z.to_nat i <? 4)%nat = true) as Hlt by (apply Nat.ltb_lt; lia).
  rewrite Hlt in Hr.
  destruct (read_legal b0 (Z.to_nat i) _ Hlen0 Hleg ltac:(lia))
    as (a & b & c & d & Hrd & Ha & Hb & Hc & Hd).
  pose proof (squash_bound a b c d hi (rs b0 (Z.to_nat i)) Ha Hb Hc Hd Hhi) as Hb4.
  unfold res in Hb4 at 1. rewrite Hrd in Hb4. specialize (Hb4 eq_refl).
  rewrite <- Hr in Hb4. unfold read in Hb4. cbn [map] in Hb4.
  unfold phi, line in Hb4. rewrite Z2Nat.id in Hb4 by lia.
  assert (get b' (Z.of_nat n) = v) as Hv.
  { unfold get. rewrite Nat2Z.id, Hn. reflexivity. }
  rewrite <- Hv, Hidx.
  inversion Hb4 as [|? ? P0 T0]; subst. inversion T0 as [|? ? P1 T1]; subst.
  inversion T1 as [|? ? P2 T2]; subst. inversion T2 as [|? ? P3 T3]; subst.
  assert (j = 0 \/ j = 1 \/ j = 2 \/ j = 3) as [->|[->|[->| ->]]] by lia; assumption.
Qed.

Lemma pair_walk_read (bg : Z) (b : t) :
  pair_walk 3 (read bg minor b) 0 1 = pair_walk 3 b bg minor.
Proof.
  unfold read. cbn [map pair_walk].
  change (get [?a; ?b; ?c; ?d] 0) with a.
  change (get [?a; ?b; ?c; ?d] (0 + 1)) with b.
  change (get [?a; ?b; ?c; ?d] (0 + 1 + 1)) with c.
  change (get [?a; ?b; ?c; ?d] (0 + 1 + 1 + 1)) with d.
  unfold phi.
  replace (bg + 0 * minor) with bg by lia.
  replace (bg + 1 * minor) with (bg + minor) by lia.
  replace (bg + 2 * minor) with (bg + minor + minor) by lia.
  replace (bg + 3 * minor) with (bg + minor + minor + minor) by lia.
  reflexivity.
Qed.

(** Tilting twice: the second tilt moves something exactly when the
    first left two equal tiles next to each other on a line. *)
Lemma grid_again (b0 b1 b2 : t) (mv1 mv2 : bool) (sc1 sc2 : Z)
    (an1 an2 : list anim_event) :
  length b0 = 16%nat -> Forall (fun v => 0 <= v < 255) b0 ->
  tilt_lines 4 begin_ major minor 4 (b0, false, 0, []) = (b1, mv1, sc1, an1) ->
  tilt_lines 4 begin_ major minor 4 (b1, false, 0, []) = (b2, mv2, sc2, an2) ->
  mv2 = existsb (fun i => pair_walk 3 b1 (ln i) minor) (seq 0 4).
Proof.
  intros Hlen0 Hleg Hrun1 Hrun2.
  destruct (grid_legal _ _ _ _ _ Hlen0 Hleg Hrun1) as (_ & _ & _ & _ & Hset).
  pose proof (tilt_grid b0 Hlen0) as Hdone1. rewrite Hrun1 in Hdone1.
  destruct Hdone1 as (Hlen1 & _).
  pose proof (tilt_grid b1 Hlen1) as Hdone2. rewrite Hrun2 in Hdone2.
  destruct Hdone2 as (_ & _ & Hmv & _).
  rewrite Hmv. apply existsb_agree. intros i Hin.
  apply in_seq in Hin.
  specialize (Hset i ltac:(lia)). rewrite <- pair_walk_read.
  unfold res. unfold read in *. cbn [map] in *.
  apply squash_settled; [exact Hset|reflexivity].
Qed.

End Grid.

(** ** The four directions *)

Section Directions.

Import Board Line.

Local Arguments Z.add : simpl nomatch.
Local Arguments Z.mul : simpl nomatch.
Local Arguments Z.of_nat : simpl nomatch.
Local Arguments Z.to_nat : simpl nomatch.
Local Arguments Pos.to_nat : simpl nomatch.
Local Arguments Pos.of_succ_nat : simpl nomatch.
Local Arguments Pos.add : simpl nomatch.
Local Arguments Pos.succ : simpl nomatch.
Local Arguments Pos.mul : simpl nomatch.
Local Arguments get !b !i /.

(** [tilt] in direction [dir] walks the grid of [grid_of dir]. *)
Lemma tilt_dir (dir : Z) (b : t) :
  0 <= dir < 4 ->
  tilt (DIR_DX dir) (DIR_DY dir) b =
  let '(begin_, major, minor) := grid_of dir in
  tilt_lines 4 begin_ major minor 4 (b, false, 0, []).
Proof.
  intros Hdir.
  assert (dir = 0 \/ dir = 1 \/ dir = 2 \/ dir = 3) as Hcase by lia.
  destruct Hcase as [->|[->|[->| ->]]]; reflexivity.
Qed.

Ltac sixteen b :=
  do 16 (destruct b as [|? b]; [discriminate|]);
  destruct b; [|discriminate].

Lemma grid_of_ok (dir : Z) : 0 <= dir < 4 -> grid_ok (grid_of dir).
Proof.
  intros Hdir.
  assert (dir = 0 \/ dir = 1 \/ dir = 2 \/ dir = 3) as Hcase by lia.
  destruct Hcase as [->|[->|[->| ->]]];
    unfold grid_ok, grid_of; cbn [Z.to_nat nth];
    (split; [lia|]); (split; [intros; lia|]); (split; [intros; lia|]); split.
  - intros idx H. exists (idx / 4), (idx mod 4).
    pose proof (Z.div_mod idx 4 ltac:(lia)); pose proof (Z.mod_pos_bound idx 4 ltac:(lia)). lia.
  - intros f b Hb. sixteen b. cbn. lia.
  - intros idx H. exists ((15 - idx) / 4), ((15 - idx) mod 4).
    pose proof (Z.div_mod (15 - idx) 4 ltac:(lia));
      pose proof (Z.mod_pos_bound (15 - idx) 4 ltac:(lia)). lia.
  - intros f b Hb. sixteen b. cbn. lia.
  - intros idx H. exists (idx mod 4), (idx / 4).
    pose proof (Z.div_mod idx 4 ltac:(lia)); pose proof (Z.mod_pos_bound idx 4 ltac:(lia)). lia.
  - intros f b Hb. sixteen b. cbn. lia.
  - intros idx H. exists ((15 - idx) mod 4), ((15 - idx) / 4).
    pose proof (Z.div_mod (15 - idx) 4 ltac:(lia));
      pose proof (Z.mod_pos_bound (15 - idx) 4 ltac:(lia)). lia.
  - intros f b Hb. sixteen b. cbn. lia.
Qed.

Lemma pair_walk_rev (b : t) (s d : Z) :
  pair_walk 3 b (s + 3 * d) (- d) = pair_walk 3 b s d.
Proof.
  cbn [pair_walk].
  replace (s + 3 * d + - d) with (s + d + d) by lia.
  replace (s + d + d + - d) with (s + d) by lia.
  replace (s + d + - d) with s by lia.
  replace (s + 3 * d) with (s + d + d + d) by lia.
  generalize (Board.get b s), (Board.get b (s + d)), (Board.get b (s + d + d)),
    (Board.get b (s + d + d + d)).
  intros x0 x1 x2 x3.
  destruct (Z.eqb_spec x0 0), (Z.eqb_spec x1 0), (Z.eqb_spec x2 0), (Z.eqb_spec x3 0),
    (Z.eqb_spec x0 x1), (Z.eqb_spec x1 x2), (Z.eqb_spec x2 x3),
    (Z.eqb_spec x3 x2), (Z.eqb_spec x2 x1), (Z.eqb_spec x1 x0);
    cbn [negb andb]; try reflexivity; lia.
Qed.

Lemma axis_matches_grid (dir : Z) (b : t) :
  0 <= dir < 4 ->
  let '(begin_, major, minor) := grid_of dir in
  existsb (fun i => pair_walk 3 b (line begin_ major i) minor) (seq 0 4) =
  axis_matches dir b.
Proof.
  intros Hdir.
  assert (dir = 0 \/ dir = 1 \/ dir = 2 \/ dir = 3) as Hcase by lia.
  unfold axis_matches, row_matches, col_matches.
  destruct Hcase as [->|[->|[->| ->]]].
  - change (grid_of 0) with (0, 4, 1). reflexivity.
  - change (grid_of 1) with (15, -4, -1). change (1 <? MOVE_UP) with true.
    cbv beta iota zeta. cbn [seq existsb].
    change (0 * TILES_X) with 0. change (1 * TILES_X) with 4.
    change (2 * TILES_X) with 8. change (3 * TILES_X) with 12.
    rewrite <- (pair_walk_rev b 0 1), <- (pair_walk_rev b 4 1),
      <- (pair_walk_rev b 8 1), <- (pair_walk_rev b 12 1).
    change (pair_walk 3 b (line 15 (-4) 0) (-1)) with (pair_walk 3 b (12 + 3 * 1) (- (1))).
    change (pair_walk 3 b (line 15 (-4) 1) (-1)) with (pair_walk 3 b (8 + 3 * 1) (- (1))).
    change (pair_walk 3 b (line 15 (-4) 2) (-1)) with (pair_walk 3 b (4 + 3 * 1) (- (1))).
    change (pair_walk 3 b (line 15 (-4) 3) (-1)) with (pair_walk 3 b (0 + 3 * 1) (- (1))).
    destruct (pair_walk 3 b (0 + 3 * 1) (- (1))), (pair_walk 3 b (4 + 3 * 1) (- (1))),
      (pair_walk 3 b (8 + 3 * 1) (- (1))), (pair_walk 3 b (12 + 3 * 1) (- (1)));
      reflexivity.
  - change (grid_of 2) with (0, 1, 4). reflexivity.
  - change (grid_of 3) with (15, -1, -4). change (3 <? MOVE_UP) with false.
    cbv beta iota zeta. cbn [seq existsb].
    change TILES_X with 4.
    rewrite <- (pair_walk_rev b 0 4), <- (pair_walk_rev b 1 4),
      <- (pair_walk_rev b 2 4), <- (pair_walk_rev b 3 4).
    change (pair_walk 3 b (line 15 (-1) 0) (-4)) with (pair_walk 3 b (3 + 3 * 4) (- (4))).
    change (pair_walk 3 b (line 15 (-1) 1) (-4)) with (pair_walk 3 b (2 + 3 * 4) (- (4))).
    change (pair_walk 3 b (line 15 (-1) 2) (-4)) with (pair_walk 3 b (1 + 3 * 4) (- (4))).
    change (pair_walk 3 b (line 15 (-1) 3) (-4)) with (pair_walk 3 b (0 + 3 * 4) (- (4))).
    destruct (pair_walk 3 b (0 + 3 * 4) (- (4))), (pair_walk 3 b (1 + 3 * 4) (- (4))),
      (pair_walk 3 b (2 + 3 * 4) (- (4))), (pair_walk 3 b (3 + 3 * 4) (- (4)));
      reflexivity.
Qed.

End Directions.

(** ** Facts about [Board::tilt] *)

Section TiltFacts.

Import Board Line.

Variables (dir : Z) (b : t).
Hypothesis Hdir : 0 <= dir < 4.
Hypothesis Hlen : length b = 16%nat.

Lemma tilt_unmoved (b' : t) (sc : Z) (an : list anim_event) :
  tilt (DIR_DX dir) (DIR_DY dir) b = (b', false, sc, an) ->
  b' = b /\ sc = 0 /\ merges an = 0.
Proof.
  rewrite (tilt_dir dir b Hdir). pose proof (grid_of_ok dir Hdir) as Hok.
  destruct (grid_of dir) as [[bg mj] mn].
  destruct Hok as (H1 & H2 & H3 & H4 & H5).
  apply grid_unmoved; assumption.
Qed.

Lemma tilt_legal (b' : t) (mv : bool) (sc : Z) (an : list anim_event) :
  Forall (fun v => 0 <= v < 255) b ->
  tilt (DIR_DX dir) (DIR_DY dir) b = (b', mv, sc, an) ->
  (mv = true -> b' <> b) /\
  count_tiles b' = count_tiles b - merges an /\
  mass b' = mass b /\
  sc = score_after 0 an.
Proof.
  intros Hleg. rewrite (tilt_dir dir b Hdir). pose proof (grid_of_ok dir Hdir) as Hok.
  destruct (grid_of dir) as [[bg mj] mn].
  destruct Hok as (H1 & H2 & H3 & H4 & H5). intros Hrun.
  destruct (grid_legal bg mj mn H1 H2 H3 H5 b b' mv sc an Hlen Hleg Hrun)
    as (G1 & G2 & G3 & G4 & _).
  repeat split; assumption.
Qed.

Lemma tilt_bound (hi : Z) (b' : t) (mv : bool) (sc : Z) (an : list anim_event) :
  Forall (fun v => 0 <= v <= hi) b -> hi < 255 ->
  tilt (DIR_DX dir) (DIR_DY dir) b = (b', mv, sc, an) ->
  length b' = 16%nat /\ Forall (fun v => 0 <= v <= hi + 1) b'.
Proof.
  intros Hleg Hhi. rewrite (tilt_dir dir b Hdir). pose proof (grid_of_ok dir Hdir) as Hok.
  destruct (grid_of dir) as [[bg mj] mn].
  destruct Hok as (H1 & H2 & H3 & H4 & H5). intros Hrun.
  exact (grid_bound bg mj mn H1 H2 H3 H4 b b' mv sc hi an Hlen Hleg Hhi Hrun).
Qed.

Lemma tilt_again (b1 b2 : t) (mv1 mv2 : bool) (sc1 sc2 : Z) (an1 an2 : list anim_event) :
  Forall (fun v => 0 <= v < 255) b ->
  tilt (DIR_DX dir) (DIR_DY dir) b = (b1, mv1, sc1, an1) ->
  tilt (DIR_DX dir) (DIR_DY dir) b1 = (b2, mv2, sc2, an2) ->
  mv2 = axis_matches dir b1.
Proof.
  intros Hleg. rewrite (tilt_dir dir b Hdir), (tilt_dir dir b1 Hdir).
  pose proof (grid_of_ok dir Hdir) as Hok.
  pose proof (axis_matches_grid dir b1 Hdir) as Hax.
  destruct (grid_of dir) as [[bg mj] mn].
  destruct Hok as (H1 & H2 & H3 & H4 & H5). intros Hrun1 Hrun2.
  rewrite <- Hax.
  exact (grid_again bg mj mn H1 H2 H3 H5 b b1 b2 mv1 mv2 sc1 sc2 an1 an2
           Hlen Hleg Hrun1 Hrun2).
Qed.

End TiltFacts.

(** ** The score of a tilt *)

Section TiltScore.

Import Board.












End TiltScore.

(** ** Tilting twice, and what a tilt conserves *)

Section TiltClaims.

Import Board.

(** C2, as the claim states it, fails: after [1 1 2 0] is tilted left
    into [2 2 0 0], a second tilt to the left merges the two new tiles
    and reports [moved = true]. *)
Lemma tilt_twice_counterexample :
  let b := [1; 1; 2; 0; 0; 0; 0; 0; 0; 0; 0; 0; 0; 0; 0; 0] in
  let b1 := tilt_state (tilt (DIR_DX MOVE_LEFT) (DIR_DY MOVE_LEFT) b) in
  wf b /\ b1 = [2; 2; 0; 0; 0; 0; 0; 0; 0; 0; 0; 0; 0; 0; 0; 0] /\
  tilt_moved (tilt (DIR_DX MOVE_LEFT) (DIR_DY MOVE_LEFT) b1) = true.
Proof.
  cbv zeta. split; [|split]; [|vm_compute; reflexivity..].
  split; [reflexivity|]. repeat (apply Forall_cons; split; [lia|]). apply Forall_nil. exact I.
Qed.

(** C2, amended.  For every board with cells below 255 and every
    direction, the second of two tilts in that direction reports
    [moved = true] exactly when the first tilt left two equal non-empty
    cells next to each other along the axis of the move; in particular it
    reports [moved = false] when the tilted board has no direct matches. *)
Theorem tilt_twice_moved (dir : Z) (b : t) :
  0 <= dir < 4 -> in_range 254 b ->
  let b1 := tilt_state (tilt (DIR_DX dir) (DIR_DY dir) b) in
  tilt_moved (tilt (DIR_DX dir) (DIR_DY dir) b1) = axis_matches dir b1 /\
  (has_direct_matches b1 = false ->
   tilt_moved (tilt (DIR_DX dir) (DIR_DY dir) b1) = false).
Proof.
  intros Hdir [Hlen Hleg]. cbv zeta.
  assert (Forall (fun v => 0 <= v < 255) b) as Hleg'.
  { eapply Forall_impl; [exact Hleg|]. cbv beta. intros; lia. }
  destruct (tilt (DIR_DX dir) (DIR_DY dir) b) as [[[b1 mv1] sc1] an1] eqn:E1.
  cbn [tilt_state fst].
  destruct (tilt (DIR_DX dir) (DIR_DY dir) b1) as [[[b2 mv2] sc2] an2] eqn:E2.
  cbn [tilt_moved fst snd].
  pose proof (tilt_again dir b Hdir Hlen b1 b2 mv1 mv2 sc1 sc2 an1 an2 Hleg' E1 E2) as H.
  split; [exact H|].
  intros Hno. rewrite H. unfold has_direct_matches in Hno.
  apply orb_false_elim in Hno. destruct Hno as [Hr Hc].
  unfold axis_matches. destruct (dir <? MOVE_UP); assumption.
Qed.

Lemma tilt_twice_moved_witness :
  let b := [1; 1; 2; 0; 0; 0; 0; 0; 0; 0; 0; 0; 0; 0; 0; 0] in
  0 <= MOVE_LEFT < 4 /\ in_range 254 b /\
  tilt_moved (tilt (DIR_DX MOVE_LEFT) (DIR_DY MOVE_LEFT)
                (tilt_state (tilt (DIR_DX MOVE_LEFT) (DIR_DY MOVE_LEFT) b))) =
  axis_matches MOVE_LEFT (tilt_state (tilt (DIR_DX MOVE_LEFT) (DIR_DY MOVE_LEFT) b)).
Proof.
  cbv zeta.
  assert (0 <= MOVE_LEFT < 4) as Hd by (unfold MOVE_LEFT; lia).
  assert (in_range 254 [1; 1; 2; 0; 0; 0; 0; 0; 0; 0; 0; 0; 0; 0; 0; 0]) as Hb.
  { split; [reflexivity|].
    repeat (apply Forall_cons; split; [lia|]). apply Forall_nil. exact I. }
  split; [exact Hd|]. split; [exact Hb|].
  exact (proj1 (tilt_twice_moved MOVE_LEFT _ Hd Hb)).
Defined.




End TiltClaims.

(** ** Tile placement *)

Section PlaceFacts.

Import Board.

Lemma get_set (b : t) (i j v : Z) :
  0 <= i < Z.of_nat (length b) -> 0 <= j ->
  get (set b i v) j = if j =? i then v else get b j.
Proof.
  intros Hi Hj. unfold get, set.
  destruct (Z.eqb_spec j i) as [->|Hne].
  - rewrite list_lookup_insert_eq by lia. reflexivity.
  - rewrite list_lookup_insert_ne by lia. reflexivity.
Qed.

Lemma count_free_fold (p : Z -> bool) (l : list Z) (n : Z) (acc : list Z) :
  fold_left
    (fun (a : Z * list Z) (i : Z) =>
       let '(nfree, free) := a in
       ((if p i then nfree + 1 else nfree), (if p i then free ++ [i] else free)))
    l (n, acc) =
  (n + Z.of_nat (length (List.filter p l)), acc ++ List.filter p l).
Proof.
  revert n acc. induction l as [|c l IH]; intros n acc; cbn [fold_left List.filter].
  - rewrite app_nil_r, Z.add_0_r. reflexivity.
  - rewrite IH. destruct (p c); cbn [length]; [|reflexivity].
    rewrite <- app_assoc. f_equal. lia.
Qed.

Lemma count_free_spec (b : t) :
  count_free b = (Z.of_nat (length (free_list b)), free_list b).
Proof.
  unfold count_free, free_list.
  rewrite (count_free_fold (fun i => get b i =? 0)). reflexivity.
Qed.

Lemma cells_range (i : Z) : In i cells <-> 0 <= i < 16.
Proof.
  unfold cells. rewrite in_map_iff. split.
  - intros (n & <- & Hn). apply in_seq in Hn. lia.
  - intros Hi. exists (Z.to_nat i). split; [lia|]. apply in_seq. lia.
Qed.

Lemma cells_nodup : List.NoDup cells.
Proof.
  change cells with [0; 1; 2; 3; 4; 5; 6; 7; 8; 9; 10; 11; 12; 13; 14; 15].
  repeat (apply List.NoDup_cons; [cbn [In]; intros H; decompose [or] H; lia|]).
  apply List.NoDup_nil.
Qed.

Lemma filter_twice (p q : Z -> bool) (l : list Z) :
  List.filter q (List.filter p l) = List.filter (fun x => p x && q x) l.
Proof.
  induction l as [|c l IH]; [reflexivity|].
  cbn [List.filter]. destruct (p c); cbn [List.filter andb].
  - destruct (q c); rewrite IH; reflexivity.
  - exact IH.
Qed.

Lemma free_list_in (b : t) (i : Z) :
  In i (free_list b) <-> 0 <= i < 16 /\ get b i = 0.
Proof.
  unfold free_list. rewrite filter_In, cells_range, Z.eqb_eq. reflexivity.
Qed.

Lemma free_list_nodup (b : t) : List.NoDup (free_list b).
Proof. apply List.NoDup_filter, cells_nodup. Qed.

Lemma filter_out_nth (l : list Z) (k : nat) :
  List.NoDup l -> (k < length l)%nat ->
  List.filter (fun i => negb (i =? nth k l 0)) l = take k l ++ drop (S k) l.
Proof.
  revert k. induction l as [|c l IH]; intros k Hnd Hk; [cbn in Hk; lia|].
  inversion Hnd as [|? ? Hnotin Hnd']; subst.
  destruct k as [|k]; cbn [nth List.filter take drop app].
  - rewrite Z.eqb_refl. cbn [negb]. rewrite drop_0.
    apply List.forallb_filter_id. apply forallb_forall. intros x Hx.
    apply negb_true_iff, Z.eqb_neq. intros ->. contradiction.
  - cbn [length] in Hk.
    assert (c <> nth k l 0) as Hne.
    { intros ->. apply Hnotin, nth_In. lia. }
    apply Z.eqb_neq in Hne. rewrite Hne. cbn [negb]. f_equal. apply IH; [assumption|lia].
Qed.

(** Filling the empty cell number [which] with a tile removes exactly
    that entry from the list of empty cells. *)
Lemma free_list_set (b : t) (which : nat) (v : Z) :
  length b = 16%nat -> (which < length (free_list b))%nat -> v <> 0 ->
  free_list (set b (nth which (free_list b) 0) v) =
  take which (free_list b) ++ drop (S which) (free_list b).
Proof.
  intros Hlen Hw Hv.
  set (s := nth which (free_list b) 0).
  assert (In s (free_list b)) as Hin by (apply nth_In; exact Hw).
  apply free_list_in in Hin. destruct Hin as [Hs Hs0].
  rewrite <- (filter_out_nth _ _ (free_list_nodup b) Hw). fold s.
  unfold free_list. rewrite filter_twice. apply List.filter_ext_in.
  intros i Hi. apply cells_range in Hi.
  rewrite get_set by lia.
  destruct (Z.eqb_spec i s) as [->|Hne]; cbn [negb].
  - rewrite andb_false_r. apply Z.eqb_neq. exact Hv.
  - rewrite andb_true_r. reflexivity.
Qed.

Lemma nth_insert (l : list Z) (n j : nat) (v : Z) :
  (n < length l)%nat ->
  nth j (<[n := v]> l) 0 = if (j =? n)%nat then v else nth j l 0.
Proof.
  intros Hn. rewrite !nth_lookup.
  destruct (Nat.eqb_spec j n) as [->|Hne].
  - rewrite list_lookup_insert_eq by exact Hn. reflexivity.
  - rewrite list_lookup_insert_ne by lia. reflexivity.
Qed.

(** The shift loop moves the entries after [i - 1] down by one. *)
Lemma shift_down_nth (k i : nat) (l : list Z) (j : nat) :
  (1 <= i)%nat -> (i + k <= length l)%nat ->
  nth j (shift_down k (Z.of_nat i) l) 0 =
  if (j <? i - 1)%nat then nth j l 0
  else if (j <? i - 1 + k)%nat then nth (S j) l 0
  else nth j l 0.
Proof.
  revert i l. induction k as [|k IH]; intros i l Hi Hlen.
  - cbn [shift_down]. rewrite Nat.add_0_r.
    destruct (j <? i - 1)%nat; reflexivity.
  - cbn [shift_down].
    replace (Z.of_nat i + 1) with (Z.of_nat (S i)) by lia.
    replace (Z.to_nat (Z.of_nat i - 1)) with (i - 1)%nat by lia.
    rewrite Nat2Z.id.
    rewrite IH by (rewrite ?length_insert; lia).
    rewrite !nth_insert by lia.
    replace (S i - 1)%nat with i by lia.
    destruct (Nat.ltb_spec j i), (Nat.ltb_spec j (i - 1)), (Nat.ltb_spec j (i + k)),
      (Nat.ltb_spec j (i - 1 + S k)), (Nat.eqb_spec j (i - 1)),
      (Nat.eqb_spec (S j) (i - 1)); try lia; try reflexivity.
    subst j. replace (S (i - 1)) with i by lia. reflexivity.
Qed.

Lemma length_shift_down (k : nat) (i : Z) (l : list Z) :
  length (shift_down k i l) = length l.
Proof.
  revert i l. induction k as [|k IH]; intros i l; [reflexivity|].
  cbn [shift_down]. rewrite IH, length_insert. reflexivity.
Qed.

Lemma wf_next_n (n : Z) (r : RNG.t) (v : Z) (r' : RNG.t) :
  1 <= n <= INT_MAX -> RNG.wf r ->
  RNG.next_n n r = Some (v, r') -> 0 <= v < n /\ RNG.wf r'.
Proof.
  intros Hn Hwf H.
  destruct (next_n_draws n r Hn Hwf) as (k & res & Hret & _ & _ & _ & _ & Hres).
  rewrite Hret in H. injection H as <- <-.
  split; [exact Hres|]. exact (skip_wf (S k) r Hwf).
Qed.

Lemma next_n_some (n : Z) (r : RNG.t) :
  1 <= n <= INT_MAX -> RNG.wf r -> exists v r', RNG.next_n n r = Some (v, r').
Proof.
  intros Hn Hwf.
  destruct (next_n_draws n r Hn Hwf) as (k & res & Hret & _).
  eauto.
Qed.

(** The loop of [place] only looks at the first [nfree] entries of
    [free]. *)
Lemma place_loop_prefix (count : nat) (b : t) (free free2 : list Z) (nfree : Z)
    (anim : list anim_event) (rng : RNG.t) :
  RNG.wf rng -> 0 <= nfree <= 16 ->
  (Z.to_nat nfree <= length free)%nat -> (Z.to_nat nfree <= length free2)%nat ->
  (forall j, (j < Z.to_nat nfree)%nat -> nth j free 0 = nth j free2 0) ->
  place_loop count b free nfree anim rng = place_loop count b free2 nfree anim rng.
Proof.
  revert b free free2 nfree anim rng.
  induction count as [|count IH]; intros b free free2 nfree anim rng Hwf Hn Hl1 Hl2 Hsame;
    [reflexivity|].
  cbn [place_loop]. destruct (Z.eqb_spec nfree 0) as [|Hnz]; [reflexivity|].
  destruct (RNG.next_n 10 rng) as [[tier rng1]|] eqn:E1; [|reflexivity].
  destruct (wf_next_n 10 rng tier rng1 ltac:(unfold INT_MAX; lia) Hwf E1) as [_ Hwf1].
  destruct (RNG.next_n nfree rng1) as [[which rng2]|] eqn:E2; [|reflexivity].
  destruct (wf_next_n nfree rng1 which rng2 ltac:(unfold INT_MAX; lia) Hwf1 E2)
    as [Hwhich Hwf2].
  rewrite (Hsame (Z.to_nat which)) by lia.
  apply IH; try assumption; try lia.
  - rewrite length_shift_down. lia.
  - rewrite length_shift_down. lia.
  - intros j Hj.
    replace (which + 1) with (Z.of_nat (Z.to_nat (which + 1))) by lia.
    rewrite !shift_down_nth by lia.
    repeat match goal with
           | |- context [Nat.ltb ?a ?b] => destruct (Nat.ltb_spec a b)
           end; apply Hsame; lia.
Qed.

Lemma nth_take_drop (l : list Z) (k j : nat) :
  nth j (take k l ++ drop (S k) l) 0 = if (j <? k)%nat then nth j l 0 else nth (S j) l 0.
Proof.
  rewrite !nth_lookup.
  destruct (Nat.ltb_spec j k) as [Hlt|Hge].
  - destruct (Nat.lt_ge_cases j (length l)) as [Hj|Hj].
    + rewrite lookup_app_l by (rewrite length_take; lia).
      rewrite lookup_take_lt by lia. reflexivity.
    + rewrite (proj2 (lookup_ge_None l j)) by lia.
      rewrite (proj2 (lookup_ge_None _ j)); [reflexivity|].
      rewrite length_app, length_take, length_drop. lia.
  - destruct (Nat.lt_ge_cases k (length l)) as [Hk|Hk].
    + rewrite lookup_app_r by (rewrite length_take; lia).
      rewrite length_take, lookup_drop.
      replace (S k + (j - k `min` length l))%nat with (S j) by lia. reflexivity.
    + rewrite (proj2 (lookup_ge_None l (S j))) by lia.
      rewrite (proj2 (lookup_ge_None _ j)); [reflexivity|].
      rewrite length_app, length_take, length_drop. lia.
Qed.

Lemma free_list_length (b : t) : (length (free_list b) <= 16)%nat.
Proof.
  unfold free_list. etransitivity; [apply List.filter_length_le|]. reflexivity.
Qed.

Lemma free_inv_count_free (b : t) :
  length b = 16%nat -> free_inv b (snd (count_free b)) (fst (count_free b)).
Proof.
  intros Hlen. rewrite count_free_spec. cbn [fst snd].
  split; [exact Hlen|]. split; [reflexivity|]. split; [lia|reflexivity].
Qed.

Lemma free_inv_step (b : t) (free : list Z) (nfree which value : Z) :
  free_inv b free nfree -> 0 <= which < nfree -> value <> 0 ->
  free_inv (set b (nth (Z.to_nat which) free 0) value)
           (shift_down (Z.to_nat (nfree - (which + 1))) (which + 1) free)
           (nfree - 1).
Proof.
  intros (Hlen & Hn & Hfl & Hsame) Hw Hv.
  rewrite (Hsame (Z.to_nat which)) by lia.
  pose proof (free_list_set b (Z.to_nat which) value Hlen ltac:(lia) Hv) as Hset.
  unfold free_inv. rewrite Hset.
  split; [unfold set; rewrite length_insert; exact Hlen|].
  split; [rewrite length_app, length_take, length_drop; lia|].
  split; [rewrite length_shift_down; lia|].
  intros j Hj.
  replace (which + 1) with (Z.of_nat (Z.to_nat (which + 1))) at 2 by lia.
  rewrite shift_down_nth by lia.
  rewrite nth_take_drop.
  repeat match goal with
         | |- context [Nat.ltb ?a ?b] => destruct (Nat.ltb_spec a b)
         end; try lia; apply Hsame; lia.
Qed.

(** Placing [n + m] tiles is placing [n] tiles and then [m] tiles. *)
Lemma place_loop_split (n m : nat) (b : t) (free : list Z) (nfree : Z)
    (anim : list anim_event) (rng : RNG.t) :
  free_inv b free nfree -> RNG.wf rng ->
  place_loop (n + m) b free nfree anim rng =
  match place_loop n b free nfree anim rng with
  | Some (b1, anim1, rng1) => place m b1 anim1 rng1
  | None => None
  end.
Proof.
  revert b free nfree anim rng.
  induction n as [|n IH]; intros b free nfree anim rng Hinv Hwf.
  - cbn [Nat.add place_loop]. unfold place.
    destruct Hinv as (Hlen & Hn & Hfl & Hsame).
    rewrite count_free_spec, <- Hn.
    pose proof (free_list_length b).
    apply place_loop_prefix; try assumption; lia.
  - cbn [Nat.add place_loop]. destruct (Z.eqb_spec nfree 0) as [Hz|Hnz].
    + unfold place. destruct Hinv as (Hlen & Hn & Hfl & Hsame).
      rewrite count_free_spec, <- Hn, Hz.
      destruct m; cbn [place_loop]; reflexivity.
    + pose proof (free_list_length b) as H16.
      assert (1 <= nfree <= 16) as Hr by (destruct Hinv as (_ & Hn & _); lia).
      destruct (RNG.next_n 10 rng) as [[tier rng1]|] eqn:E1; [|reflexivity].
      destruct (wf_next_n 10 rng tier rng1 ltac:(unfold INT_MAX; lia) Hwf E1) as [_ Hwf1].
      destruct (RNG.next_n nfree rng1) as [[which rng2]|] eqn:E2; [|reflexivity].
      destruct (wf_next_n nfree rng1 which rng2 ltac:(unfold INT_MAX; lia) Hwf1 E2)
        as [Hwhich Hwf2].
      apply IH; [|exact Hwf2].
      apply free_inv_step; try assumption. destruct (tier <? 9); lia.
Qed.

(** With a well-formed generator the loop of [place] returns; the board
    keeps its sixteen cells, [min count nfree] empty cells receive a tile
    1 or 2, nothing else changes, and the generator stays well formed. *)
Lemma place_loop_returns (count : nat) (b : t) (free : list Z) (nfree : Z)
    (anim : list anim_event) (rng : RNG.t) :
  free_inv b free nfree -> RNG.wf rng ->
  exists b' anim' rng',
    place_loop count b free nfree anim rng = Some (b', anim', rng') /\
    length b' = 16%nat /\ RNG.wf rng' /\
    fst (count_free b') = nfree - Z.min (Z.of_nat count) nfree /\
    (forall i, 0 <= i < 16 ->
       get b' i = get b i \/ (get b i = 0 /\ (get b' i = 1 \/ get b' i = 2))) /\
    (exists placed, anim' = anim ++ placed /\
       Z.of_nat (length placed) = Z.min (Z.of_nat count) nfree /\
       Forall (fun e => exists i v, e = AnimNewTile i v /\ 0 <= i < 16 /\ get b i = 0 /\
                                   get b' i = v /\ (v = 1 \/ v = 2)) placed).
Proof.
  revert b free nfree anim rng.
  induction count as [|count IH]; intros b free nfree anim rng Hinv Hwf.
  - cbn [place_loop]. exists b, anim, rng.
    destruct Hinv as (Hlen & Hn & Hfl & Hsame).
    split; [reflexivity|]. split; [exact Hlen|]. split; [exact Hwf|].
    split; [rewrite count_free_spec; cbn [fst]; lia|].
    split; [intros i _; left; reflexivity|].
    exists []. rewrite app_nil_r. split; [reflexivity|]. split; [cbn; lia|].
    apply Forall_nil. exact I.
  - cbn [place_loop]. destruct (Z.eqb_spec nfree 0) as [Hz|Hnz].
    + exists b, anim, rng.
      destruct Hinv as (Hlen & Hn & Hfl & Hsame).
      split; [reflexivity|]. split; [exact Hlen|]. split; [exact Hwf|].
      split; [rewrite count_free_spec; cbn [fst]; lia|].
      split; [intros i _; left; reflexivity|].
      exists []. rewrite app_nil_r. split; [reflexivity|]. split; [cbn; lia|].
      apply Forall_nil. exact I.
    + pose proof (free_list_length b) as H16.
      assert (1 <= nfree <= 16) as Hr by (destruct Hinv as (_ & Hn & _); lia).
      destruct (next_n_some 10 rng ltac:(unfold INT_MAX; lia) Hwf) as (tier & rng1 & E1).
      rewrite E1.
      destruct (wf_next_n 10 rng tier rng1 ltac:(unfold INT_MAX; lia) Hwf E1) as [_ Hwf1].
      destruct (next_n_some nfree rng1 ltac:(unfold INT_MAX; lia) Hwf1) as (which & rng2 & E2).
      rewrite E2.
      destruct (wf_next_n nfree rng1 which rng2 ltac:(unfold INT_MAX; lia) Hwf1 E2)
        as [Hwhich Hwf2].
      set (value := if tier <? 9 then 1 else 2).
      assert (value = 1 \/ value = 2) as Hval by (subst value; destruct (tier <? 9); lia).
      set (slot := nth (Z.to_nat which) free 0).
      assert (0 <= slot < 16 /\ get b slot = 0) as [Hslot Hempty].
      { destruct Hinv as (Hlen & Hn & Hfl & Hsame). subst slot.
        rewrite (Hsame (Z.to_nat which)) by lia.
        apply free_list_in, nth_In. lia. }
      pose proof (free_inv_step b free nfree which value Hinv Hwhich ltac:(lia)) as Hinv'.
      fold slot in Hinv'.
      destruct (IH _ _ _ (anim ++ [AnimNewTile slot value]) rng2 Hinv' Hwf2)
        as (b' & anim' & rng' & Hrun & Hlen' & Hwf' & Hcount & Hcells & placed & Han & Hnp & Hpl).
      exists b', anim', rng'.
      destruct Hinv as (Hlen & Hn & Hfl & Hsame).
      assert (forall i, 0 <= i -> get (set b slot value) i = if i =? slot then value else get b i)
        as Hgs by (intros i Hi; apply get_set; lia).
      assert (get b' slot = value) as Hkept.
      { destruct (Hcells slot Hslot) as [Hc|[Hc _]];
          rewrite Hgs, Z.eqb_refl in Hc by lia; lia. }
      split; [exact Hrun|]. split; [exact Hlen'|]. split; [exact Hwf'|].
      split; [lia|]. split.
      * intros i Hi.
        destruct (Hcells i Hi) as [Hc|[Hc Hc']]; rewrite Hgs in Hc by lia;
          destruct (Z.eqb_spec i slot) as [->|Hne].
        -- right. split; [exact Hempty|]. rewrite Hc. exact Hval.
        -- left. exact Hc.
        -- lia.
        -- right. split; assumption.
      * exists (AnimNewTile slot value :: placed).
        split; [rewrite Han, <- app_assoc; reflexivity|].
        split; [cbn [length]; lia|].
        apply Forall_cons. split.
        -- exists slot, value. repeat split; (assumption || lia).
        -- eapply Forall_impl; [exact Hpl|]. cbv beta.
           intros e (i & v & -> & Hi & Hi0 & Hiv & Hv12).
           exists i, v. split; [reflexivity|]. split; [exact Hi|].
           split; [|split; assumption].
           rewrite Hgs in Hi0 by lia. destruct (Z.eqb_spec i slot); lia.
Qed.

End PlaceFacts.


(** ** [Board::place], [Board::move] and the history *)

Section MoveFacts.

Import Board.

(** C5.  For every board with at least two free cells and every
    generator state, [place(2)] returns, and it returns what
    [place(1)] followed by [place(1)] returns: the same board, the same
    animation calls and the same generator state. *)
Theorem place_two_is_one_then_one (b : t) (anim : list anim_event) (rng : RNG.t) :
  length b = 16%nat -> 2 <= fst (count_free b) -> RNG.wf rng ->
  (exists b2 anim2 rng2, place 2 b anim rng = Some (b2, anim2, rng2)) /\
  place 2 b anim rng =
  match place 1 b anim rng with
  | Some (b1, anim1, rng1) => place 1 b1 anim1 rng1
  | None => None
  end.
Proof.
  intros Hlen Hfree Hwf. pose proof (free_inv_count_free b Hlen) as Hinv.
  split.
  - destruct (place_loop_returns 2 b _ _ anim rng Hinv Hwf) as (b2 & an2 & r2 & Hrun & _).
    exists b2, an2, r2. unfold place.
    destruct (count_free b) as [nfree free]. exact Hrun.
  - unfold place at 1 2. destruct (count_free b) as [nfree free].
    exact (place_loop_split 1 1 b free nfree anim rng Hinv Hwf).
Qed.

Lemma place_two_is_one_then_one_witness :
  let b := [1; 0; 0; 0; 0; 0; 0; 0; 0; 0; 0; 0; 0; 0; 0; 2] in
  length b = 16%nat /\ 2 <= fst (count_free b) /\ RNG.wf (RNG.reset 1) /\
  place 2 b [] (RNG.reset 1) =
  match place 1 b [] (RNG.reset 1) with
  | Some (b1, anim1, rng1) => place 1 b1 anim1 rng1
  | None => None
  end.
Proof.
  cbv zeta.
  assert (length [1; 0; 0; 0; 0; 0; 0; 0; 0; 0; 0; 0; 0; 0; 0; 2] = 16%nat) as H1
    by reflexivity.
  assert (2 <= fst (count_free [1; 0; 0; 0; 0; 0; 0; 0; 0; 0; 0; 0; 0; 0; 0; 2])) as H2
    by (vm_compute; congruence).
  assert (RNG.wf (RNG.reset 1)) as H3 by (vm_compute; intuition congruence).
  split; [exact H1|]. split; [exact H2|]. split; [exact H3|].
  exact (proj2 (place_two_is_one_then_one _ [] _ H1 H2 H3)).
Defined.

Lemma no_new_tile_snoc (anim : list anim_event) (e : anim_event) :
  no_new_tile anim -> match e with AnimNewTile _ _ => False | _ => True end ->
  no_new_tile (anim ++ [e]).
Proof.
  intros H He. apply Forall_app. split; [exact H|].
  apply Forall_cons. split; [exact He|apply Forall_nil; exact I].
Qed.

Lemma scan_no_new_tile (fuel : nat) (step stop : Z) (p : pass) :
  no_new_tile (Board.anim p) -> no_new_tile (Board.anim (scan fuel step stop p)).
Proof.
  revert p. induction fuel as [|fuel IH]; intros p Hp; cbn [scan];
    destruct (from p =? stop); try exact Hp.
  apply IH. unfold scan_body.
  destruct (negb (get (state p) (from p) =? 0)); [|exact Hp].
  destruct (negb (last_value p =? 0)); [|exact Hp].
  destruct (last_value p =? get (state p) (from p)); cbn [Board.anim];
    apply no_new_tile_snoc; (exact Hp || exact I).
Qed.

Lemma blank_no_new_tile (fuel : nat) (step stop : Z) (p : pass) :
  no_new_tile (Board.anim p) -> no_new_tile (Board.anim (blank fuel step stop p)).
Proof.
  revert p. induction fuel as [|fuel IH]; intros p Hp; cbn [blank];
    destruct (to p =? stop); try exact Hp.
  apply IH. cbn [Board.anim]. apply no_new_tile_snoc; (exact Hp || exact I).
Qed.

Lemma tilt_lines_no_new_tile (n : nat) (bg mj mn m : Z)
    (acc : t * bool * Z * list anim_event) :
  no_new_tile (tilt_anim acc) ->
  no_new_tile (tilt_anim (tilt_lines n bg mj mn m acc)).
Proof.
  revert bg acc. induction n as [|n IH]; intros bg acc Hacc; [exact Hacc|].
  cbn [tilt_lines]. apply IH. cbn [tilt_anim snd].
  destruct acc as [[[b mv] sc] an]. cbn [tilt_anim snd] in Hacc.
  unfold tilt_line. apply blank_no_new_tile.
  unfold flush. set (p := scan _ _ _ _).
  assert (no_new_tile (Board.anim p)) as Hp by (apply scan_no_new_tile; exact Hacc).
  destruct (negb (last_value p =? 0)); [|exact Hp].
  cbn [Board.anim]. apply no_new_tile_snoc; (exact Hp || exact I).
Qed.

Lemma tilt_no_new_tile (dx dy : Z) (b : t) : no_new_tile (tilt_anim (tilt dx dy b)).
Proof. unfold tilt. apply tilt_lines_no_new_tile. apply Forall_nil. exact I. Qed.

Lemma move_null (dir : Z) (b : t) (rng : RNG.t) :
  0 <= dir < 4 -> length b = 16%nat ->
  tilt_moved (tilt (DIR_DX dir) (DIR_DY dir) b) = false ->
  Board.move dir b rng =
  Some (b, false, 0, tilt_anim (tilt (DIR_DX dir) (DIR_DY dir) b), rng).
Proof.
  intros Hdir Hlen Hmv. unfold Board.move.
  destruct (tilt (DIR_DX dir) (DIR_DY dir) b) as [[[b1 mv1] sc1] an1] eqn:E.
  cbn [tilt_moved tilt_anim fst snd] in *. subst mv1.
  destruct (tilt_unmoved dir b Hdir Hlen b1 sc1 an1 E) as (-> & -> & _).
  reflexivity.
Qed.

End MoveFacts.

Section HistoryFacts.

Import BoardHistory.

(** C8.  If the slide in direction [dir] changes nothing, then
    [Board::move] returns [false], hands back the same board and the same
    generator and calls no [new_tile] on [anim]; and
    [BoardHistory::move] returns the history it was given: the same
    index, counts and snapshots. *)
Theorem null_move_changes_nothing (dir : Z) (b : list Z) (rng : RNG.t) (h : t) :
  0 <= dir < 4 -> length b = 16%nat -> length (get h) = 16%nat ->
  (Board.tilt_moved (Board.tilt (DIR_DX dir) (DIR_DY dir) b) = false ->
   exists anim, Board.move dir b rng = Some (b, false, 0, anim, rng) /\
                Board.no_new_tile anim) /\
  (Board.tilt_moved (Board.tilt (DIR_DX dir) (DIR_DY dir) (get h)) = false ->
   exists anim, move dir h = Some (h, anim)).
Proof.
  intros Hdir Hlen Hlenh. split.
  - intros Hmv. eexists. split; [apply move_null; assumption|].
    apply tilt_no_new_tile.
  - intros Hmv. unfold move, state_move.
    change (board (slot h (current h))) with (get h).
    rewrite (move_null dir (get h) _ Hdir Hlenh Hmv).
    eexists. reflexivity.
Qed.

Lemma null_move_changes_nothing_witness :
  let b := [1; 2; 0; 0; 3; 0; 0; 0; 0; 0; 0; 0; 0; 0; 0; 0] in
  let h := reset_board b (RNG.reset 1) zeroed in
  0 <= MOVE_LEFT < 4 /\ length b = 16%nat /\ length (get h) = 16%nat /\
  Board.tilt_moved (Board.tilt (DIR_DX MOVE_LEFT) (DIR_DY MOVE_LEFT) b) = false /\
  Board.tilt_moved (Board.tilt (DIR_DX MOVE_LEFT) (DIR_DY MOVE_LEFT) (get h)) = false /\
  (exists anim, Board.move MOVE_LEFT b (RNG.reset 1) = Some (b, false, 0, anim, RNG.reset 1)) /\
  (exists anim, move MOVE_LEFT h = Some (h, anim)).
Proof.
  cbv zeta.
  set (b := [1; 2; 0; 0; 3; 0; 0; 0; 0; 0; 0; 0; 0; 0; 0; 0]).
  set (h := reset_board b (RNG.reset 1) zeroed).
  assert (0 <= MOVE_LEFT < 4) as H1 by (unfold MOVE_LEFT; lia).
  assert (length b = 16%nat) as H2 by reflexivity.
  assert (length (get h) = 16%nat) as H3 by reflexivity.
  assert (Board.tilt_moved (Board.tilt (DIR_DX MOVE_LEFT) (DIR_DY MOVE_LEFT) b) = false)
    as H4 by (vm_compute; reflexivity).
  assert (Board.tilt_moved (Board.tilt (DIR_DX MOVE_LEFT) (DIR_DY MOVE_LEFT) (get h)) = false)
    as H5 by (vm_compute; reflexivity).
  destruct (null_move_changes_nothing MOVE_LEFT b (RNG.reset 1) h H1 H2 H3) as [Hb Hh].
  destruct (Hb H4) as (anim & Hmove & _). destruct (Hh H5) as (anim' & Hhist).
  repeat (split; [assumption|]). split; [exists anim; exact Hmove|exists anim'; exact Hhist].
Defined.

(** What a committed move does to the index and the counts. *)
Lemma move_committed (dir : Z) (h h' : t) (anim : list anim_event) :
  Board.tilt_moved (Board.tilt (DIR_DX dir) (DIR_DY dir) (get h)) = true ->
  move dir h = Some (h', anim) ->
  current h' = Z.rem (current h + 1) MAX_UNDO /\
  undo_avail h' = Z.min (undo_avail h + 1) (Z.max (undo_avail h) MAX_UNDO) /\
  redo_avail h' = 0.
Proof.
  intros Hmv. unfold move, state_move, Board.move.
  change (board (slot h (current h))) with (get h).
  destruct (Board.tilt (DIR_DX dir) (DIR_DY dir) (get h)) as [[[b1 mv1] sc1] an1].
  cbn [Board.tilt_moved fst snd] in Hmv. subst mv1.
  destruct (Board.place 1 b1 an1 (rng (slot h (current h)))) as [[[b2 an2] r2]|];
    [|discriminate].
  intros H. injection H as <- <-. cbn [current undo_avail redo_avail].
  split; [reflexivity|]. split; [|reflexivity].
  destruct (Z.ltb_spec (undo_avail h) MAX_UNDO); lia.
Qed.

Lemma apply_counts_ok (o : op) (h h' : t) :
  counts_ok h -> apply o h = Some h' -> counts_ok h'.
Proof.
  intros (Hu & Hr & Hsum). unfold counts_ok. destruct o; cbn [apply].
  - unfold move. destruct (state_move dir (slot h (current h))) as [[[s mv] an]|];
      [|discriminate].
    destruct mv; cbn [option_map fst]; intros H; injection H as <-;
      cbn [undo_avail redo_avail]; [|lia].
    destruct (Z.ltb_spec (undo_avail h) MAX_UNDO); lia.
  - intros H. injection H as <-. unfold undo.
    destruct (Z.eqb_spec (undo_avail h) 0); cbn [negb undo_avail redo_avail]; lia.
  - intros H. injection H as <-. unfold redo.
    destruct (Z.eqb_spec (redo_avail h) 0); cbn [negb undo_avail redo_avail]; lia.
  - unfold new_game. destruct (state_place 2 [] _) as [[s an]|]; [|discriminate].
    cbn [option_map fst]. intros H. injection H as <-.
    cbn [undo_avail redo_avail clear_history]. unfold MAX_UNDO. lia.
  - intros H. injection H as <-. cbn [undo_avail redo_avail clear_history].
    unfold MAX_UNDO. lia.
Qed.

(** Every history reached from a reset keeps both counts non-negative
    and their sum at or below [MAX_UNDO]. *)
Lemma run_counts_ok (ops : list op) (h h' : t) :
  counts_ok h -> run ops h = Some h' -> counts_ok h'.
Proof.
  revert h. induction ops as [|o ops IH]; intros h Hh; cbn [run].
  - intros H. injection H as <-. exact Hh.
  - destruct (apply o h) as [h1|] eqn:E; [|discriminate].
    intros Hrun. exact (IH h1 (apply_counts_ok o h h1 Hh E) Hrun).
Qed.

(** C3 at its failing input.  After [reset(0)], [new_game()] and the 4096
    committed moves of [long_game], [undo_avail] is 4096 = [MAX_UNDO], so
    [undo_avail + redo_avail <= MAX_UNDO - 1] is broken; and undoing 4096
    times walks the ring once around, back to the newest board. *)
Theorem history_undo_overflow :
  match run (OpNewGame :: long_game) (reset 0 zeroed) with
  | Some h =>
      undo_avail h = MAX_UNDO /\ redo_avail h = 0 /\
      ~ undo_avail h + redo_avail h <= MAX_UNDO - 1 /\
      get h = [13; 9; 6; 3; 0; 2; 3; 8; 0; 2; 0; 2; 0; 0; 1; 0] /\
      get (iter_undo 4096 h) = get h /\
      undo_avail (iter_undo 4096 h) = 0
  | None => False
  end.
Proof. vm_compute. repeat split; congruence. Qed.

End HistoryFacts.

(** ** The cache *)

Section CacheFacts.

Import BoardCache.

Context {T : Type}.
Variable zero : T.

Lemma where_range (k : Z) : 0 <= where_ k < BUCKET_COUNT.
Proof.
unfold where_. change BUCKET_INDEX_MASK with (Z.ones 12).
rewrite Z.land_ones by lia. change BUCKET_COUNT with (2 ^ 12).
apply Z.mod_pos_bound. lia.
Qed.

Lemma bucket_at_insert_eq (c : list (Bucket T)) (loc : Z) (b : Bucket T) :
  0 <= loc < Z.of_nat (length c) -> bucket_at (<[Z.to_nat loc := b]> c) loc = b.
Proof.
intros H. unfold bucket_at. rewrite list_lookup_insert_eq by lia. reflexivity.
Qed.

Lemma bucket_at_insert_ne (c : list (Bucket T)) (loc loc' : Z) (b : Bucket T) :
  0 <= loc -> 0 <= loc' -> loc <> loc' ->
  bucket_at (<[Z.to_nat loc := b]> c) loc' = bucket_at c loc'.
Proof.
intros H H' Hne. unfold bucket_at. rewrite list_lookup_insert_ne by lia. reflexivity.
Qed.

Lemma bucket_at_wf (c : list (Bucket T)) (loc : Z) :
  wf c -> 0 <= loc < BUCKET_COUNT ->
  length (keys (bucket_at c loc)) = 8%nat /\ length (values (bucket_at c loc)) = 8%nat.
Proof.
intros [Hlen Hall] Hloc. unfold bucket_at.
destruct (c !! Z.to_nat loc) as [b|] eqn:E.
- exact (proj1 (Forall_lookup _ c) Hall _ _ E).
- apply lookup_ge_None in E. lia.
Qed.

Lemma find_slot_range (n : nat) (i : Z) (ks : list Z) (k j : Z) :
  find_slot n i ks k = Some j ->
  i <= j < i + Z.of_nat n /\ nth (Z.to_nat j) ks 0 = k /\
  (forall q, i <= q < j -> nth (Z.to_nat q) ks 0 <> k).
Proof.
revert i. induction n as [|n IH]; intros i H; [discriminate|].
cbn [find_slot] in H. destruct (Z.eqb_spec (nth (Z.to_nat i) ks 0) k) as [Heq|Hne].
- injection H as <-. split; [lia|]. split; [exact Heq|]. intros q Hq. lia.
- destruct (IH (i + 1) H) as (Hr & Hn & Hq). split; [lia|]. split; [exact Hn|].
  intros q Hrange. destruct (Z.eq_dec q i) as [->|]; [exact Hne|]. apply Hq. lia.
Qed.

Lemma find_slot_first (n : nat) (i : Z) (ks : list Z) (k p : Z) :
  i <= p < i + Z.of_nat n -> nth (Z.to_nat p) ks 0 = k ->
  (forall q, i <= q < p -> nth (Z.to_nat q) ks 0 <> k) ->
  find_slot n i ks k = Some p.
Proof.
revert i. induction n as [|n IH]; intros i Hp Hk Hq; [lia|].
cbn [find_slot]. destruct (Z.eqb_spec (nth (Z.to_nat i) ks 0) k) as [Heq|Hne].
- destruct (Z.eq_dec i p) as [->|Hip]; [reflexivity|].
  exfalso. apply (Hq i); [lia|exact Heq].
- destruct (Z.eq_dec i p) as [->|Hip]; [contradiction|].
  apply IH; [lia|exact Hk|]. intros q Hr. apply Hq. lia.
Qed.

Lemma find_slot_none (n : nat) (i : Z) (ks : list Z) (k : Z) :
  (forall q, i <= q < i + Z.of_nat n -> nth (Z.to_nat q) ks 0 <> k) ->
  find_slot n i ks k = None.
Proof.
revert i. induction n as [|n IH]; intros i Hq; [reflexivity|].
cbn [find_slot]. destruct (Z.eqb_spec (nth (Z.to_nat i) ks 0) k) as [Heq|Hne].
- exfalso. apply (Hq i); [lia|exact Heq].
- apply IH. intros q Hr. apply Hq. lia.
Qed.

Ltac eight l :=
  do 8 (destruct l as [|? l]; [discriminate|]); destruct l; [|discriminate].

(** Inserting at the front: everything moves one slot down and the last
    slot is dropped. *)
Lemma shift_up_front (ks : list Z) (vs : list T) (k : Z) (v : T) :
  length ks = 8%nat -> length vs = 8%nat ->
  let shifted := shift_up (Z.to_nat (BUCKET_SIZE - 1)) (BUCKET_SIZE - 1) (mkBucket ks vs) in
  <[0%nat := k]> (keys shifted) = k :: take 7 ks /\
  <[0%nat := v]> (values shifted) = v :: take 7 vs.
Proof.
intros Hk Hv. eight ks. eight vs. split; reflexivity.
Qed.

Lemma wf_store_value (c : list (Bucket T)) (k loc : Z) (v : T) :
  wf c -> 0 <= loc < BUCKET_COUNT -> wf (store_value c k loc v).
Proof.
intros Hwf Hloc. pose proof (bucket_at_wf c loc Hwf Hloc) as [Hk Hv].
destruct Hwf as [Hlen Hall]. unfold store_value.
destruct (find_slot _ 0 (keys (bucket_at c loc)) k) as [i|] eqn:E.
- split; [rewrite length_insert; exact Hlen|].
  apply Forall_insert; [exact Hall|]. cbn [keys values].
  rewrite length_insert. split; assumption.
- destruct (bucket_at c loc) as [ks vs]. cbn [keys values] in *.
  destruct (shift_up_front ks vs k v Hk Hv) as [-> ->].
  split; [rewrite length_insert; exact Hlen|].
  apply Forall_insert; [exact Hall|]. cbn [keys values length].
  rewrite !length_take. change (Z.to_nat BUCKET_SIZE) with 8%nat. lia.
Qed.

(** [store_value] followed by [find_value] of the same key returns the value. *)
Lemma find_store_same (c : list (Bucket T)) (k loc : Z) (v : T) :
  wf c -> 0 <= loc < BUCKET_COUNT -> find_value (store_value c k loc v) k loc = Some v.
Proof.
intros Hwf Hloc. pose proof (bucket_at_wf c loc Hwf Hloc) as [Hk Hv].
destruct Hwf as [Hlen Hall]. unfold store_value, find_value.
destruct (find_slot _ 0 (keys (bucket_at c loc)) k) as [i|] eqn:E.
- rewrite bucket_at_insert_eq by (change BUCKET_COUNT with 4096 in *; lia).
  cbn [keys values]. rewrite E.
  apply find_slot_range in E. destruct E as (Hi & _).
  apply list_lookup_insert_eq. change (Z.to_nat BUCKET_SIZE) with 8%nat in Hi. lia.
- rewrite bucket_at_insert_eq by (change BUCKET_COUNT with 4096 in *; lia).
  destruct (bucket_at c loc) as [ks vs]. cbn [keys values] in *.
  destruct (shift_up_front ks vs k v Hk Hv) as [-> ->].
  cbn [keys values find_slot Z.to_nat nth]. change (Z.to_nat BUCKET_SIZE) with 8%nat.
  cbn [find_slot Z.to_nat nth]. rewrite Z.eqb_refl. reflexivity.
Qed.

Lemma nth_take_lt {A : Type} (l : list A) (n j : nat) (d : A) :
  (j < n)%nat -> nth j (take n l) d = nth j l d.
Proof.
intros H. rewrite !nth_lookup, lookup_take_lt by exact H. reflexivity.
Qed.

(** A [store_value] never changes what another key retrieves, except that it may
    evict it. *)
Lemma find_store_other (c : list (Bucket T)) (k k' loc loc' : Z) (v x : T) :
  wf c -> 0 <= loc < BUCKET_COUNT -> 0 <= loc' < BUCKET_COUNT -> k' <> k ->
  find_value (store_value c k loc v) k' loc' = Some x -> find_value c k' loc' = Some x.
Proof.
intros Hwf Hloc Hloc' Hne. pose proof (bucket_at_wf c loc Hwf Hloc) as [Hk Hv].
destruct Hwf as [Hlen Hall].
assert (0 <= loc < Z.of_nat (length c)) as Hin
  by (change BUCKET_COUNT with 4096 in *; lia).
destruct (Z.eq_dec loc loc') as [<-|Hloc_ne].
- unfold store_value, find_value.
  destruct (find_slot _ 0 (keys (bucket_at c loc)) k) as [i|] eqn:E.
  + rewrite bucket_at_insert_eq by exact Hin. cbn [keys values].
    destruct (find_slot _ 0 (keys (bucket_at c loc)) k') as [j|] eqn:E'; [|discriminate].
    apply find_slot_range in E. apply find_slot_range in E'.
    destruct E as (_ & Hi & _), E' as (_ & Hj & _).
    assert (Z.to_nat i <> Z.to_nat j)
      by (intros Heq; apply Hne; rewrite <- Hj, <- Hi, Heq; reflexivity).
    rewrite list_lookup_insert_ne by assumption. trivial.
  + rewrite bucket_at_insert_eq by exact Hin.
    destruct (bucket_at c loc) as [ks vs]. cbn [keys values] in *.
    destruct (shift_up_front ks vs k v Hk Hv) as [-> ->]. cbn [keys values].
    change (Z.to_nat BUCKET_SIZE) with 8%nat.
    destruct (find_slot 8 0 (k :: take 7 ks) k') as [j|] eqn:E'; [|discriminate].
    apply find_slot_range in E'. destruct E' as (Hj & Hnth & Hfirst).
    assert (j <> 0) as Hj0.
    { intros ->. change (Z.to_nat 0) with 0%nat in Hnth. cbn [nth] in Hnth. congruence. }
    assert (Z.to_nat j = S (Z.to_nat (j - 1))) as Hs by lia.
    rewrite Hs in Hnth. cbn [nth] in Hnth. rewrite nth_take_lt in Hnth by lia.
    assert (find_slot 8 0 ks k' = Some (j - 1)) as ->.
    { apply find_slot_first; [lia|exact Hnth|].
      intros q Hq Hbad. apply (Hfirst (q + 1)); [lia|].
      replace (Z.to_nat (q + 1)) with (S (Z.to_nat q)) by lia.
      cbn [nth]. rewrite nth_take_lt by lia. exact Hbad. }
    rewrite Hs.
    change ((v :: take 7 vs) !! S (Z.to_nat (j - 1))) with (take 7 vs !! Z.to_nat (j - 1)).
    rewrite lookup_take_lt by lia. trivial.
- unfold store_value, find_value.
  destruct (find_slot _ 0 (keys (bucket_at c loc)) k) as [i|];
    rewrite bucket_at_insert_ne by lia; trivial.
Qed.

(** The bucket after distinct non-zero keys of one bucket went into an
    empty cache: newest first, eight at most. *)
Lemma store_all_bucket (done more : list (Z * T)) (c : list (Bucket T)) (loc : Z) :
  wf c -> 0 <= loc < BUCKET_COUNT ->
  keys (bucket_at c loc) = take 8 (rev (map fst done) ++ replicate 8 0) ->
  values (bucket_at c loc) = take 8 (rev (map snd done) ++ replicate 8 zero) ->
  List.NoDup (map fst (done ++ more)) ->
  Forall (fun e => fst e <> 0 /\ where_ (fst e) = loc) more ->
  let c' := store_all c more in
  wf c' /\
  keys (bucket_at c' loc) = take 8 (rev (map fst (done ++ more)) ++ replicate 8 0) /\
  values (bucket_at c' loc) = take 8 (rev (map snd (done ++ more)) ++ replicate 8 zero).
Proof.
revert done c. induction more as [|[k v] more IH]; intros done c Hwf Hloc Hks Hvs Hnd Hall.
- cbn [store_all]. rewrite app_nil_r. repeat split; assumption || apply Hwf.
- cbn [store_all]. apply Forall_cons in Hall. destruct Hall as [[Hk0 Hkloc] Hall].
  cbn [fst] in Hk0, Hkloc. rewrite Hkloc.
  replace (done ++ (k, v) :: more) with ((done ++ [(k, v)]) ++ more) in *
    by (rewrite <- app_assoc; reflexivity).
  pose proof (bucket_at_wf c loc Hwf Hloc) as [Hlk Hlv].
  assert (~ In k (map fst done)) as Hfresh.
  { rewrite !map_app in Hnd. apply List.NoDup_app_remove_r in Hnd.
    cbn [map fst] in Hnd. apply NoDup_remove_2 in Hnd.
    rewrite app_nil_r in Hnd. exact Hnd. }
  assert (find_slot (Z.to_nat BUCKET_SIZE) 0 (keys (bucket_at c loc)) k = None) as Hmiss.
  { apply find_slot_none. intros q Hq Hbad. rewrite Hks in Hbad.
    change (Z.to_nat BUCKET_SIZE) with 8%nat in Hq.
    rewrite nth_take_lt in Hbad by lia.
    destruct (Nat.lt_ge_cases (Z.to_nat q) (length (rev (map fst done)))) as [Hin|Hout].
    - rewrite app_nth1 in Hbad by exact Hin. apply Hfresh, in_rev.
      rewrite <- Hbad. apply nth_In. exact Hin.
    - rewrite app_nth2 in Hbad by exact Hout.
      destruct (Nat.lt_ge_cases (Z.to_nat q - length (rev (map fst done))) 8) as [H8|H8].
      + rewrite nth_lookup, lookup_replicate_2 in Hbad by exact H8. cbn in Hbad. congruence.
      + rewrite nth_overflow in Hbad by (rewrite length_replicate; lia). congruence. }
  assert (0 <= loc < Z.of_nat (length c)) as Hin
    by (destruct Hwf as [Hlen _]; change BUCKET_COUNT with 4096 in *; lia).
  apply IH; try assumption.
  + apply wf_store_value; assumption.
  + unfold store_value. rewrite Hmiss, bucket_at_insert_eq by exact Hin.
    destruct (bucket_at c loc) as [ks vs]. cbn [keys values] in *.
    destruct (shift_up_front ks vs k v Hlk Hlv) as [-> _]. cbn [keys].
    rewrite Hks, map_app, rev_app_distr. cbn [map fst rev app].
    rewrite take_take. reflexivity.
  + unfold store_value. rewrite Hmiss, bucket_at_insert_eq by exact Hin.
    destruct (bucket_at c loc) as [ks vs]. cbn [keys values] in *.
    destruct (shift_up_front ks vs k v Hlk Hlv) as [_ ->]. cbn [values].
    rewrite Hvs, map_app, rev_app_distr. cbn [map snd rev app].
    rewrite take_take. reflexivity.
Qed.

Lemma lookup_nth_lt {A : Type} (l : list A) (i : nat) (d : A) :
  (i < length l)%nat -> l !! i = Some (nth i l d).
Proof.
intros H. rewrite nth_lookup. destruct (l !! i) eqn:E; [reflexivity|].
apply lookup_ge_None in E. lia.
Qed.

Lemma reset_wf : wf (reset zero).
Proof.
unfold reset, wf. rewrite length_replicate. split; [reflexivity|].
apply Forall_replicate. split; reflexivity.
Qed.

Lemma reset_bucket (loc : Z) :
  0 <= loc < BUCKET_COUNT ->
  bucket_at (reset zero) loc =
  mkBucket (replicate 8 0) (replicate 8 zero).
Proof.
intros H. unfold bucket_at, reset.
rewrite lookup_replicate_2 by (change BUCKET_COUNT with 4096 in *; lia). reflexivity.
Qed.

(** After distinct non-zero keys of one bucket went into an empty cache,
    the last eight are retrieved with their values and the earlier ones
    are gone. *)
Lemma store_all_find (entries : list (Z * T)) (loc : Z) (j : nat) (kj : Z) (vj : T) :
  List.NoDup (map fst entries) ->
  Forall (fun e => fst e <> 0 /\ where_ (fst e) = loc) entries ->
  entries !! j = Some (kj, vj) ->
  find_value (store_all (reset zero) entries) kj loc =
  if (length entries - j <=? 8)%nat then Some vj else None.
Proof.
intros Hnd Hall Hj.
assert (0 <= loc < BUCKET_COUNT) as Hloc.
{ pose proof (proj1 (Forall_lookup _ entries) Hall _ _ Hj) as [_ <-]. apply where_range. }
destruct (store_all_bucket [] entries (reset zero) loc reset_wf Hloc) as (Hwf & Hks & Hvs);
  try (rewrite reset_bucket by exact Hloc; reflexivity); try assumption.
cbn [app] in Hks, Hvs.
pose proof (lookup_lt_Some _ _ _ Hj) as Hjlt.
set (n := length entries) in *.
assert (length (map fst entries) = n) as Hlk by apply length_map.
assert (length (map snd entries) = n) as Hlv by apply length_map.
assert (nth j (map fst entries) 0 = kj) as Hkj.
{ rewrite nth_lookup, list_lookup_fmap, Hj. reflexivity. }
assert (forall q, (q < n)%nat -> (q < 8)%nat ->
          nth q (take 8 (rev (map fst entries) ++ replicate 8 0)) 0 =
          nth (n - S q) (map fst entries) 0) as Hkeys.
{ intros q Hq Hq8. rewrite nth_take_lt by exact Hq8.
  rewrite app_nth1 by (rewrite length_rev; lia).
  rewrite rev_nth by lia. rewrite Hlk. reflexivity. }
unfold find_value. rewrite Hks. change (Z.to_nat BUCKET_SIZE) with 8%nat.
destruct (Nat.leb_spec (n - j) 8) as [Hin|Hout].
- rewrite (find_slot_first 8 0 _ kj (Z.of_nat (n - S j))).
  + rewrite Hvs, Nat2Z.id, lookup_take_lt by lia.
    rewrite lookup_app_l by (rewrite length_rev; lia).
    rewrite (lookup_nth_lt _ _ vj) by (rewrite length_rev; lia).
    rewrite rev_nth by lia. rewrite Hlv.
    replace (n - S (n - S j))%nat with j by lia.
    rewrite nth_lookup, list_lookup_fmap, Hj. reflexivity.
  + lia.
  + rewrite Nat2Z.id, Hkeys by lia.
    replace (n - S (n - S j))%nat with j by lia. exact Hkj.
  + intros q Hq Hbad. rewrite Hkeys in Hbad by lia. rewrite <- Hkj in Hbad.
    apply (proj1 (List.NoDup_nth _ 0) Hnd) in Hbad; lia.
- rewrite find_slot_none; [reflexivity|].
  intros q Hq Hbad. rewrite Hkeys in Hbad by lia. rewrite <- Hkj in Hbad.
  apply (proj1 (List.NoDup_nth _ 0) Hnd) in Hbad; lia.
Qed.

(** On keys that are not 0 the assertions of [put] hold. *)
Lemma put_all_stores (c : list (Bucket T)) (entries : list (Z * T)) :
  Forall (fun e => fst e <> 0) entries ->
  put_all c entries = Some (store_all c entries).
Proof.
revert c. induction entries as [|[k v] rest IH]; intros c Hall; [reflexivity|].
apply Forall_cons in Hall. destruct Hall as [Hk Hrest]. cbn [fst] in Hk.
cbn [put_all store_all]. unfold put.
destruct (Z.eqb_spec k 0) as [|_]; [contradiction|]. apply IH, Hrest.
Qed.

(** C7, amended.  For every well-formed cache, every key [k] that is not
    0 and every value [v], [put(k, where(k), v)] followed by
    [get(k, where(k))] returns [v].  After more than [BUCKET_SIZE = 8]
    distinct keys of one bucket, none of them 0, were put into an empty
    cache, [get] finds exactly the last eight with their values: every
    key inserted before them is not found, the first one in
    particular. *)
Theorem cache_put_get_and_eviction (c : list (Bucket T)) (k : Z) (v : T)
    (entries : list (Z * T)) (loc : Z) :
  wf c -> k <> 0 ->
  List.NoDup (map fst entries) ->
  Forall (fun e => fst e <> 0 /\ where_ (fst e) = loc) entries ->
  (Z.to_nat BUCKET_SIZE < length entries)%nat ->
  (exists c', put c k (where_ k) v = Some c' /\ get c' k (where_ k) = Some (Some v)) /\
  (exists full, put_all (reset zero) entries = Some full /\
     (forall (j : nat) (kj : Z) (vj : T),
        entries !! j = Some (kj, vj) ->
        get full kj (where_ kj) =
        Some (if (length entries - j <=? 8)%nat then Some vj else None)) /\
     (forall (k0 : Z) (v0 : T), entries !! 0%nat = Some (k0, v0) ->
        get full k0 (where_ k0) = Some None)).
Proof.
intros Hwf Hk Hnd Hall Hmore.
assert (forall (j : nat) (kj : Z) (vj : T),
          entries !! j = Some (kj, vj) ->
          get (store_all (reset zero) entries) kj (where_ kj) =
          Some (if (length entries - j <=? 8)%nat then Some vj else None)) as Hget.
{ intros j kj vj Hj.
  pose proof (proj1 (Forall_lookup _ entries) Hall _ _ Hj) as [Hkj Hw]. cbn [fst] in Hkj, Hw.
  unfold get. destruct (Z.eqb_spec kj 0) as [|_]; [contradiction|].
  rewrite Hw. f_equal. apply store_all_find; assumption. }
split.
- exists (store_value c k (where_ k) v). unfold put, get.
  destruct (Z.eqb_spec k 0) as [|_]; [contradiction|].
  split; [reflexivity|]. f_equal. apply find_store_same; [exact Hwf|apply where_range].
- exists (store_all (reset zero) entries). split; [|split].
  + apply put_all_stores. eapply Forall_impl; [exact Hall|]. cbn. tauto.
  + exact Hget.
  + intros k0 v0 H0. rewrite (Hget _ _ _ H0).
    change (Z.to_nat BUCKET_SIZE) with 8%nat in Hmore.
    destruct (Nat.leb_spec (length entries - 0) 8); [lia|reflexivity].
Qed.

End CacheFacts.

(** C7, as the claim states it, fails: after ten keys of bucket 3271 went
    into an empty cache, the first key is not found, and neither is the
    second one, 258, although it was inserted after the first; the third
    is.  And the key 0 is no key: [put] stops at [assert(k)]. *)
Lemma cache_eviction_counterexample :
  let entries := [(72, 1); (258, 2); (967, 3); (4679, 4); (5006, 5); (6107, 6);
                  (6266, 7); (6808, 8); (9444, 9); (9742, 10)] in
  Forall (fun e => fst e <> 0 /\ BoardCache.where_ (fst e) = 3271) entries /\
  match BoardCache.put_all (BoardCache.reset 0) entries with
  | Some full =>
      BoardCache.get full 72 3271 = Some None /\
      BoardCache.get full 258 3271 = Some None /\
      BoardCache.get full 967 3271 = Some (Some 3)
  | None => False
  end /\
  BoardCache.put (BoardCache.reset 0) 0 (BoardCache.where_ 0) 5 = None.
Proof.
cbv zeta. split; [|split].
- repeat (apply Forall_cons; split; [split; [cbn; lia|vm_compute; reflexivity]|]).
  apply Forall_nil. exact I.
- vm_compute. repeat split; reflexivity.
- reflexivity.
Qed.

Lemma cache_put_get_and_eviction_witness :
  let entries := [(72, 1); (258, 2); (967, 3); (4679, 4); (5006, 5); (6107, 6);
                  (6266, 7); (6808, 8); (9444, 9)] in
  BoardCache.wf (BoardCache.reset 0) /\ 72 <> 0 /\
  List.NoDup (map fst entries) /\
  Forall (fun e => fst e <> 0 /\ BoardCache.where_ (fst e) = 3271) entries /\
  (Z.to_nat BoardCache.BUCKET_SIZE < length entries)%nat /\
  exists full, BoardCache.put_all (BoardCache.reset 0) entries = Some full /\
    BoardCache.get full 72 3271 = Some None /\
    BoardCache.get full 258 3271 = Some (Some 2).
Proof.
cbv zeta.
set (entries := [(72, 1); (258, 2); (967, 3); (4679, 4); (5006, 5); (6107, 6);
                 (6266, 7); (6808, 8); (9444, 9)]).
assert (BoardCache.wf (BoardCache.reset 0)) as H1 by apply reset_wf.
assert (72 <> 0) as H0 by lia.
assert (List.NoDup (map fst entries)) as H2.
{ cbn [map fst entries]. repeat (apply List.NoDup_cons; [cbn [In]; intros H; decompose [or] H; lia|]).
  apply List.NoDup_nil. }
assert (Forall (fun e => fst e <> 0 /\ BoardCache.where_ (fst e) = 3271) entries) as H3.
{ repeat (apply Forall_cons; split; [split; [cbn; lia|vm_compute; reflexivity]|]).
  apply Forall_nil. exact I. }
assert (Z.to_nat BoardCache.BUCKET_SIZE < length entries)%nat as H4 by (vm_compute; lia).
destruct (cache_put_get_and_eviction 0 (BoardCache.reset 0) 72 1 entries 3271 H1 H0 H2 H3 H4)
  as (_ & full & Hfull & Hget & Hold).
split; [exact H1|]. split; [exact H0|]. split; [exact H2|]. split; [exact H3|].
split; [exact H4|].
exists full. split; [exact Hfull|]. split.
- apply (Hold 72 1). reflexivity.
- apply (Hget 1%nat 258 2). reflexivity.
Defined.

(** ** Packed boards *)

Section PackFacts.

Import Board.

(** A nibble goes into the low four bits of a key shifted by four. *)
Lemma lor_nibble (k v : Z) :
  0 <= k -> k * 16 < 2 ^ 64 -> 0 <= v < 16 ->
  Z.lor (u64 (Z.shiftl k 4)) v = k * 16 + v.
Proof.
intros Hk Hlt Hv. unfold u64. rewrite Z.shiftl_mul_pow2 by lia.
change (2 ^ 4) with 16. rewrite Z.mod_small by lia.
rewrite <- Z.lxor_lor, <- Z.add_nocarry_lxor; [reflexivity| |];
  (apply Z.bits_inj'; intros n Hn; rewrite Z.land_spec, Z.bits_0;
   destruct (Z.lt_ge_cases n 4) as [Hlo|Hhi];
   [replace (k * 16) with (Z.shiftl k 4) by (rewrite Z.shiftl_mul_pow2; lia);
    rewrite Z.shiftl_spec_low by lia; reflexivity
   |replace (Z.testbit v n) with false; [apply andb_false_r|];
    symmetry; destruct (Z.eq_dec v 0) as [->|]; [apply Z.bits_0|];
    apply Z.bits_above_log2; [lia|];
    apply Z.log2_lt_pow2; [lia|];
    apply Z.lt_le_trans with (2 ^ 4); [lia|apply Z.pow_le_mono_r; lia]]).
Qed.

(** The digits of a list of nibbles, most significant first. *)
Lemma fold_nibbles (l : list Z) (k : Z) :
  Forall (fun v => 0 <= v <= 15) l -> 0 <= k ->
  (k + 1) * 16 ^ Z.of_nat (length l) <= 2 ^ 64 ->
  let r := fold_left (fun k v => Z.lor (u64 (Z.shiftl k 4)) v) l k in
  k * 16 ^ Z.of_nat (length l) <= r < (k + 1) * 16 ^ Z.of_nat (length l).
Proof.
revert k. induction l as [|v l IH]; intros k Hall Hk Hlt; cbn [fold_left length].
- cbn. lia.
- inversion Hall as [|? ? Hv Hl]; subst.
  cbn [length] in Hlt. rewrite Nat2Z.inj_succ, Z.pow_succ_r in Hlt by lia.
  rewrite Nat2Z.inj_succ, Z.pow_succ_r by lia.
  set (p := 16 ^ Z.of_nat (length l)) in *.
  assert (0 < p) as Hpos by (apply Z.pow_pos_nonneg; lia).
  assert (k * 16 < 2 ^ 64) as Hk16 by nia.
  rewrite lor_nibble by lia.
  assert ((k * 16 + v + 1) * p <= 2 ^ 64) as Hnext by nia.
  specialize (IH (k * 16 + v) Hl ltac:(lia) Hnext). cbv zeta in IH.
  fold p in IH. nia.
Qed.

Lemma fold_nibbles_inj (l l' : list Z) (k k' : Z) :
  Forall (fun v => 0 <= v <= 15) l -> Forall (fun v => 0 <= v <= 15) l' ->
  length l = length l' -> 0 <= k -> 0 <= k' ->
  (k + 1) * 16 ^ Z.of_nat (length l) <= 2 ^ 64 ->
  (k' + 1) * 16 ^ Z.of_nat (length l) <= 2 ^ 64 ->
  fold_left (fun k v => Z.lor (u64 (Z.shiftl k 4)) v) l k =
  fold_left (fun k v => Z.lor (u64 (Z.shiftl k 4)) v) l' k' ->
  k = k' /\ l = l'.
Proof.
revert l' k k'. induction l as [|v l IH]; intros [|v' l'] k k' Hall Hall' Hlen Hk Hk' Hlt Hlt' H;
  try discriminate; cbn [fold_left] in H.
- split; [exact H|reflexivity].
- inversion Hall as [|? ? Hv Hl]; subst. inversion Hall' as [|? ? Hv' Hl']; subst.
  injection Hlen as Hlen.
  cbn [length] in Hlt, Hlt'. rewrite Nat2Z.inj_succ, Z.pow_succ_r in Hlt, Hlt' by lia.
  set (p := 16 ^ Z.of_nat (length l)) in *.
  assert (0 < p) as Hpos by (apply Z.pow_pos_nonneg; lia).
  assert (k * 16 < 2 ^ 64) as Hk16 by nia.
  assert (k' * 16 < 2 ^ 64) as Hk16' by nia.
  rewrite !lor_nibble in H by lia.
  assert ((k * 16 + v + 1) * p <= 2 ^ 64) as Hnext by nia.
  assert ((k' * 16 + v' + 1) * p <= 2 ^ 64) as Hnext' by nia.
  destruct (IH l' (k * 16 + v) (k' * 16 + v') Hl Hl' Hlen ltac:(lia) ltac:(lia)
              Hnext Hnext' H) as [Hkv ->].
  assert (k = k') by lia. subst k'. assert (v = v') by lia. subst v'.
  split; reflexivity.
Qed.

Lemma map_get_cells (b : list Z) :
  length b = 16%nat -> map (get b) cells = b.
Proof.
intros H. do 16 (destruct b as [|? b]; [discriminate|]). destruct b; [|discriminate].
reflexivity.
Qed.

(** On cells below 16 the assertion of [pack_board_state] holds and the
    key is the number the sixteen nibbles spell. *)
Lemma pack_fold (b : list Z) :
  in_range 15 b ->
  pack_board_state b = Some (fold_left (fun k v => Z.lor (u64 (Z.shiftl k 4)) v) b 0).
Proof.
intros [Hlen Hall]. unfold pack_board_state.
transitivity (Some (fold_left (fun k v => Z.lor (u64 (Z.shiftl k 4)) v)
                      (map (get b) cells) 0));
  [|rewrite (map_get_cells b Hlen); reflexivity].
assert (forall i, 0 <= get b i <= 15) as Hget.
{ intros i. unfold get. destruct (b !! Z.to_nat i) as [v|] eqn:E; cbn; [|lia].
  exact (proj1 (Forall_lookup _ b) Hall _ _ E). }
generalize 0. generalize cells.
induction l as [|i l IH]; intros k; [reflexivity|]. cbn [fold_left map].
destruct (Z.ltb_spec (get b i) 16) as [_|Hbad]; [apply IH|].
specialize (Hget i). lia.
Qed.

(** [pack_board_state] tells apart the boards that pass its assertion. *)
Lemma pack_board_state_inj (b b' : list Z) :
  in_range 15 b -> in_range 15 b' ->
  pack_board_state b = pack_board_state b' -> b = b'.
Proof.
intros Hb Hb' H. rewrite (pack_fold b Hb), (pack_fold b' Hb') in H.
injection H as H. destruct Hb as [Hl Hb], Hb' as [Hl' Hb'].
assert ((0 + 1) * 16 ^ Z.of_nat (length b) <= 2 ^ 64) as H16.
{ rewrite Hl. change (16 ^ Z.of_nat 16) with (2 ^ 64). lia. }
destruct (fold_nibbles_inj b b' 0 0 Hb Hb' ltac:(congruence) ltac:(lia) ltac:(lia)
            H16 H16 H) as [_ Heq].
exact Heq.
Qed.

(** Only the empty board has key 0. *)
Lemma pack_board_state_zero (b : list Z) :
  in_range 15 b -> pack_board_state b = Some 0 -> b = reset.
Proof.
intros Hb H. apply pack_board_state_inj; [exact Hb| |rewrite H; reflexivity].
split; [reflexivity|]. unfold reset. apply Forall_replicate. lia.
Qed.

End PackFacts.

(** ** What every slot of a cache satisfies *)

Section CacheInvariant.

Import BoardCache Minimax.

Context {T : Type}.
Variable P : Z -> T -> Prop.

Lemma cache_all_reset (zero : T) : cache_all P (reset zero).
Proof.
intros bucket i k v Hin Hk Hv Hne. unfold reset in Hin.
apply list_elem_of_In, elem_of_replicate in Hin. destruct Hin as [-> _].
cbn [keys] in Hk. apply lookup_replicate in Hk. destruct Hk as [Hk _]. congruence.
Qed.

Lemma cache_all_find (c : list (Bucket T)) (k loc : Z) (v : T) :
  cache_all P c -> k <> 0 -> find_value c k loc = Some v -> P k v.
Proof.
intros Hall Hne Hget. unfold find_value, bucket_at in Hget.
destruct (c !! Z.to_nat loc) as [bucket|] eqn:E; cbn [default from_option id] in Hget.
- destruct (find_slot _ 0 (keys bucket) k) as [i|] eqn:F; [|discriminate].
  destruct (find_slot_range _ _ _ _ _ F) as (Hr & Hn & _).
  apply (Hall bucket (Z.to_nat i) k v); [| |exact Hget|exact Hne].
  + apply list_elem_of_In. eapply list_elem_of_lookup_2. exact E.
  + destruct (keys bucket !! Z.to_nat i) as [k'|] eqn:G.
    * rewrite (nth_lookup_Some _ _ 0 _ G) in Hn. congruence.
    * rewrite nth_overflow in Hn by (apply lookup_ge_None; exact G). congruence.
- cbn [keys find_slot] in Hget.
  destruct (find_slot _ 0 [] k) as [i|] eqn:F; [|discriminate].
  destruct (find_slot_range _ _ _ _ _ F) as (_ & Hn & _).
  destruct (Z.to_nat i); cbn in Hn; congruence.
Qed.

Lemma cache_all_store (c : list (Bucket T)) (k loc : Z) (v : T) :
  wf c -> 0 <= loc < BUCKET_COUNT ->
  cache_all P c -> P k v -> cache_all P (store_value c k loc v).
Proof.
intros Hwf Hloc Hall Hkv. pose proof (bucket_at_wf c loc Hwf Hloc) as [Hk Hv].
assert (In (bucket_at c loc) c) as Hin.
{ unfold bucket_at. destruct (c !! Z.to_nat loc) as [b|] eqn:E.
  - apply list_elem_of_In. eapply list_elem_of_lookup_2. exact E.
  - apply lookup_ge_None in E. destruct Hwf as [Hlen _].
    change BUCKET_COUNT with 4096 in *. rewrite Hlen in E. lia. }
assert (forall bucket' : Bucket T,
          (forall (i : nat) (k0 : Z) (v0 : T),
             keys bucket' !! i = Some k0 -> values bucket' !! i = Some v0 ->
             k0 <> 0 -> P k0 v0) ->
          cache_all P (<[Z.to_nat loc := bucket']> c)) as Hins.
{ intros bucket' Hb bucket i k0 v0 Hin' Hk0 Hv0 Hne.
  apply list_elem_of_In, list_elem_of_lookup in Hin'. destruct Hin' as [j Hj].
  destruct (Nat.eq_dec j (Z.to_nat loc)) as [->|Hjl].
  - rewrite list_lookup_insert_eq in Hj.
    + injection Hj as <-. exact (Hb i k0 v0 Hk0 Hv0 Hne).
    + apply lookup_lt_Some in Hj. rewrite length_insert in Hj. exact Hj.
  - rewrite list_lookup_insert_ne in Hj by congruence.
    apply (Hall bucket i k0 v0); try assumption.
    apply list_elem_of_In. eapply list_elem_of_lookup_2. exact Hj. }
unfold store_value. destruct (find_slot _ 0 (keys (bucket_at c loc)) k) as [i|] eqn:F.
- apply Hins. cbn [keys values]. intros j k0 v0 Hk0 Hv0 Hne.
  destruct (find_slot_range _ _ _ _ _ F) as (Hr & Hn & _).
  destruct (Nat.eq_dec j (Z.to_nat i)) as [->|Hji].
  + rewrite list_lookup_insert_eq in Hv0 by (rewrite Hv; change (Z.to_nat BUCKET_SIZE) with 8%nat in Hr; lia).
    injection Hv0 as <-. rewrite (nth_lookup_Some _ _ 0 _ Hk0) in Hn. subst k0. exact Hkv.
  + rewrite list_lookup_insert_ne in Hv0 by congruence.
    exact (Hall _ j k0 v0 Hin Hk0 Hv0 Hne).
- apply Hins. destruct (bucket_at c loc) as [ks vs] eqn:B. cbn [keys values] in Hk, Hv.
  destruct (shift_up_front ks vs k v Hk Hv) as [-> ->].
  intros j k0 v0 Hk0 Hv0 Hne. destruct j as [|j]; cbn in Hk0, Hv0.
  + injection Hk0 as <-. injection Hv0 as <-. exact Hkv.
  + apply (Hall _ j k0 v0 Hin); cbn [keys values]; [| |exact Hne].
    * change (take 7 ks !! j = Some k0) in Hk0. apply lookup_take_Some in Hk0. tauto.
    * change (take 7 vs !! j = Some v0) in Hv0. apply lookup_take_Some in Hv0. tauto.
Qed.

(** [get] and [put] on a key that is not 0. *)
Lemma get_finds (c : list (Bucket T)) (k loc : Z) :
  k <> 0 -> get c k loc = Some (find_value c k loc).
Proof. intros H. unfold get. destruct (Z.eqb_spec k 0); [contradiction|reflexivity]. Qed.

Lemma put_stores (c : list (Bucket T)) (k loc : Z) (v : T) :
  k <> 0 -> put c k loc v = Some (store_value c k loc v).
Proof. intros H. unfold put. destruct (Z.eqb_spec k 0); [contradiction|reflexivity]. Qed.

End CacheInvariant.


(** ** The first move of a search *)

Section SearchMoves.

Import Searcher Minimax.

Variable evalfn : list Z -> Z.

Lemma cancelled_inv {X : Type} (s s' : st X) (c : bool) :
  cancelled s = (c, s') ->
  ext s' = ext s /\ num_moves s' = num_moves s /\
  (c = true -> clear_polls s = Some 0%nat /\ s' = s) /\
  (c = false -> clear_polls s <> Some 0%nat) /\
  (clear_polls s = None -> c = false /\ clear_polls s' = None).
Proof.
unfold cancelled. destruct s as [n [[|p]|] x]; cbn; intros H; injection H as <- <-; cbn;
  repeat split; intros; congruence.
Qed.

Lemma picked_skip (board : list Z) (i : Z) (rest : list Z) (move m : Z) :
  picked board rest move m -> picked board (i :: rest) move m.
Proof.
intros [H|[H1 H2]]; [left; exact H|right; split; [right; exact H1|exact H2]].
Qed.

Lemma picked_take (board : list Z) (i : Z) (rest : list Z) (move m : Z) :
  Board.tilt_moved (Board.tilt (DIR_DX i) (DIR_DY i) board) = true ->
  picked board rest i m -> picked board (i :: rest) move m.
Proof.
intros Hi [->|[H1 H2]]; [right; split; [left; reflexivity|exact Hi]
                        |right; split; [right; exact H1|exact H2]].
Qed.

Lemma picked_legal (board : list Z) (m : Z) :
  picked board directions (-1) m -> legal_first_move board m.
Proof.
intros [H|[H1 H2]]; [left; exact H|right; split; [|exact H2]].
unfold directions in H1. cbn [In] in H1. lia.
Qed.

Lemma nm_maximise_picked (rec : list Z -> st unit -> Z * st unit) (board : list Z)
    (dirs : list Z) (best move : Z) (s : st unit) :
  picked board dirs move (snd (fst (nm_maximise rec board dirs best move s))).
Proof.
revert best move s. induction dirs as [|i rest IH]; intros best move s; cbn [nm_maximise].
- left. reflexivity.
- destruct (Board.tilt (DIR_DX i) (DIR_DY i) board) as [[[ns mv] sc] an] eqn:E.
  destruct mv; cbn [negb]; [|apply picked_skip, IH].
  assert (Board.tilt_moved (Board.tilt (DIR_DX i) (DIR_DY i) board) = true) as Hi
    by (rewrite E; reflexivity).
  destruct (rec ns (tally_move s)) as [score s1]. destruct (cancelled s1) as [[|] s2].
  + left. reflexivity.
  + destruct (score >? best); [apply picked_take; [exact Hi|apply IH]|apply picked_skip, IH].
Qed.

Lemma ab_maxi_loop_picked (mini : list Z -> Z -> Z -> st Z -> Z * st Z) (board : list Z)
    (dirs : list Z) (alpha beta move : Z) (s : st Z) :
  picked board dirs move (snd (fst (ab_maxi_loop mini board dirs alpha beta move s))).
Proof.
revert alpha move s. induction dirs as [|i rest IH]; intros alpha move s; cbn [ab_maxi_loop].
- left. reflexivity.
- destruct (Board.tilt (DIR_DX i) (DIR_DY i) board) as [[[ns mv] sc] an] eqn:E.
  destruct mv; cbn [negb]; [|apply picked_skip, IH].
  assert (Board.tilt_moved (Board.tilt (DIR_DX i) (DIR_DY i) board) = true) as Hi
    by (rewrite E; reflexivity).
  destruct (mini ns alpha beta (tally_move s)) as [score s1].
  destruct (cancelled s1) as [[|] s2]; [left; reflexivity|].
  cbv zeta. destruct (score >? alpha).
  + destruct (score >=? beta); [right; split; [left; reflexivity|exact Hi]|].
    apply picked_take; [exact Hi|apply IH].
  + destruct (alpha >=? beta); [left; reflexivity|apply picked_skip, IH].
Qed.

Lemma cm_maximise_picked (rec : list Z -> st cm_fields -> option (Z * st cm_fields))
    (board : list Z) (dirs : list Z) (best move : Z) (s : st cm_fields) :
  if_returns (cm_maximise rec board dirs best move s)
    (fun out => picked board dirs move (snd (fst out))).
Proof.
revert best move s. induction dirs as [|i rest IH]; intros best move s; cbn [cm_maximise].
- left. reflexivity.
- destruct (Board.tilt (DIR_DX i) (DIR_DY i) board) as [[[ns mv] sc] an] eqn:E.
  destruct mv; cbn [negb].
  2: { specialize (IH best move s). destruct (cm_maximise rec board rest best move s);
       [apply picked_skip, IH|exact I]. }
  assert (Board.tilt_moved (Board.tilt (DIR_DX i) (DIR_DY i) board) = true) as Hi
    by (rewrite E; reflexivity).
  destruct (rec ns (tally_move s)) as [[score s1]|]; [|exact I].
  destruct (cancelled s1) as [[|] s2].
  + left. reflexivity.
  + destruct (score >? best).
    * specialize (IH score i s2). destruct (cm_maximise rec board rest score i s2);
        [apply picked_take; [exact Hi|exact IH]|exact I].
    * specialize (IH best move s2). destruct (cm_maximise rec board rest best move s2);
        [apply picked_skip, IH|exact I].
Qed.

Lemma cab_maxi_loop_picked
    (mini : list Z -> Z -> Z -> st cab_fields -> option (Z * st cab_fields))
    (board : list Z) (dirs : list Z) (alpha beta cache_type move : Z)
    (s : st cab_fields) :
  if_returns (cab_maxi_loop mini board dirs alpha beta cache_type move s)
    (fun out => picked board dirs move (snd (fst out))).
Proof.
revert alpha cache_type move s.
induction dirs as [|i rest IH]; intros alpha cache_type move s; cbn [cab_maxi_loop].
- left. reflexivity.
- destruct (Board.tilt (DIR_DX i) (DIR_DY i) board) as [[[ns mv] sc] an] eqn:E.
  destruct mv; cbn [negb].
  2: { specialize (IH alpha cache_type move s).
       destruct (cab_maxi_loop mini board rest alpha beta cache_type move s);
         [apply picked_skip, IH|exact I]. }
  assert (Board.tilt_moved (Board.tilt (DIR_DX i) (DIR_DY i) board) = true) as Hi
    by (rewrite E; reflexivity).
  destruct (mini ns alpha beta (tally_move s)) as [[score s1]|]; [|exact I].
  destruct (cancelled s1) as [[|] s2]; [left; reflexivity|].
  cbv zeta. destruct (score >? alpha).
  + destruct (score >=? beta); [right; split; [left; reflexivity|exact Hi]|].
    specialize (IH score SCORE_EXACT i s2).
    destruct (cab_maxi_loop mini board rest score beta SCORE_EXACT i s2);
      [apply picked_take; [exact Hi|exact IH]|exact I].
  + destruct (alpha >=? beta); [left; reflexivity|].
    specialize (IH alpha cache_type move s2).
    destruct (cab_maxi_loop mini board rest alpha beta cache_type move s2);
      [apply picked_skip, IH|exact I].
Qed.

Lemma cheat_loop_picked (rec : list Z -> RNG.t -> st unit -> option (Z * st unit))
    (board : list Z) (rng : RNG.t) (dirs : list Z) (best move : Z) (s : st unit) :
  if_returns (cheat_loop rec board rng dirs best move s)
    (fun out => picked board dirs move (snd (fst out))).
Proof.
revert best move s. induction dirs as [|i rest IH]; intros best move s; cbn [cheat_loop].
- left. reflexivity.
- unfold Board.move.
  destruct (Board.tilt (DIR_DX i) (DIR_DY i) board) as [[[ns mv] sc] an] eqn:E.
  destruct mv.
  + assert (Board.tilt_moved (Board.tilt (DIR_DX i) (DIR_DY i) board) = true) as Hi
      by (rewrite E; reflexivity).
    destruct (Board.place 1 ns an rng) as [[[b2 an2] rng2]|]; [|exact I].
    cbn [negb]. destruct (rec b2 rng2 (tally_move s)) as [[score s1]|]; [|exact I].
    destruct (cancelled s1) as [[|] s2].
    * left. reflexivity.
    * destruct (score >? best).
      -- specialize (IH score i s2). destruct (cheat_loop rec board rng rest score i s2);
           [apply picked_take; [exact Hi|exact IH]|exact I].
      -- specialize (IH best move s2). destruct (cheat_loop rec board rng rest best move s2);
           [apply picked_skip, IH|exact I].
  + cbn [negb]. specialize (IH best move s).
    destruct (cheat_loop rec board rng rest best move s); [apply picked_skip, IH|exact I].
Qed.

End SearchMoves.

(** ** What the searches compute *)

Section SearchValues.

Import Searcher Minimax.

Variable evalfn : list Z -> Z.
Hypothesis evalfn_int : forall board, INT_MIN <= evalfn board <= INT_MAX.

Lemma odd_succ (n : nat) : Nat.odd (S n) = negb (Nat.odd n).
Proof. rewrite Nat.odd_succ, <- Nat.negb_odd. reflexivity. Qed.

Lemma odd_double (n : nat) : Nat.odd (n * 2) = false.
Proof.
induction n as [|n IH]; [reflexivity|]. exact IH.
Qed.

(** *** The pure loops *)

Lemma worst_of_min (f : list Z -> Z) (children : list (list Z)) (a b : Z) :
  worst_of f children (Z.min a b) = Z.min a (worst_of f children b).
Proof.
revert b. induction children as [|c rest IH]; intros b; cbn [worst_of]; [reflexivity|].
rewrite <- IH. f_equal. lia.
Qed.

Lemma worst_of_le (f : list Z -> Z) (children : list (list Z)) (b : Z) :
  worst_of f children b <= b.
Proof.
revert b. induction children as [|c rest IH]; intros b; cbn [worst_of]; [lia|].
specialize (IH (Z.min b (f c))). lia.
Qed.

Lemma worst_of_range (f : list Z -> Z) (children : list (list Z)) (b : Z) :
  (forall c, INT_MIN <= f c) -> INT_MIN <= b -> INT_MIN <= worst_of f children b.
Proof.
intros Hf. revert b. induction children as [|c rest IH]; intros b Hb; cbn [worst_of]; [lia|].
apply IH. specialize (Hf c). lia.
Qed.

Lemma best_of_max (f : list Z -> Z) (board : list Z) (dirs : list Z) (a b m1 m2 : Z) :
  fst (best_of f board dirs (Z.max a b) m1) = Z.max a (fst (best_of f board dirs b m2)).
Proof.
revert b m1 m2. induction dirs as [|i rest IH]; intros b m1 m2; cbn [best_of].
- reflexivity.
- destruct (Board.tilt (DIR_DX i) (DIR_DY i) board) as [[[ns mv] sc] an].
  destruct mv; cbn [negb]; [|apply IH].
  destruct (Z.gtb_spec (f ns) (Z.max a b)) as [H1|H1],
           (Z.gtb_spec (f ns) b) as [H2|H2].
  + rewrite <- (IH (f ns) i i). f_equal. f_equal. lia.
  + lia.
  + rewrite <- (IH (f ns) m1 i). f_equal. f_equal. lia.
  + apply IH.
Qed.

Lemma best_of_ge (f : list Z -> Z) (board : list Z) (dirs : list Z) (b m : Z) :
  b <= fst (best_of f board dirs b m).
Proof.
revert b m. induction dirs as [|i rest IH]; intros b m; cbn [best_of]; [cbn; lia|].
destruct (Board.tilt (DIR_DX i) (DIR_DY i) board) as [[[ns mv] sc] an].
destruct mv; cbn [negb]; [|apply IH].
destruct (Z.gtb_spec (f ns) b) as [H|H]; [|apply IH].
specialize (IH (f ns) i). lia.
Qed.

Lemma best_of_range (f : list Z -> Z) (board : list Z) (dirs : list Z) (b m : Z) :
  (forall c, f c <= INT_MAX) -> b <= INT_MAX -> fst (best_of f board dirs b m) <= INT_MAX.
Proof.
intros Hf. revert b m. induction dirs as [|i rest IH]; intros b m Hb; cbn [best_of]; [exact Hb|].
destruct (Board.tilt (DIR_DX i) (DIR_DY i) board) as [[[ns mv] sc] an].
destruct mv; cbn [negb]; [|apply IH; exact Hb].
destruct (f ns >? b); apply IH; [apply Hf|exact Hb].
Qed.

(** Once the best score is [INT_MAX] no later direction replaces it. *)
Lemma best_of_top (f : list Z -> Z) (board : list Z) (dirs : list Z) (m : Z) :
  (forall c, f c <= INT_MAX) -> best_of f board dirs INT_MAX m = (INT_MAX, m).
Proof.
intros Hf. induction dirs as [|i rest IH]; cbn [best_of]; [reflexivity|].
destruct (Board.tilt (DIR_DX i) (DIR_DY i) board) as [[[ns mv] sc] an].
destruct mv; cbn [negb]; [|exact IH].
destruct (Z.gtb_spec (f ns) INT_MAX) as [H|H]; [specialize (Hf ns); lia|exact IH].
Qed.

Lemma value_range (l : nat) (board : list Z) : INT_MIN <= value evalfn l board <= INT_MAX.
Proof.
revert board. induction l as [|l IH]; intros board; [apply evalfn_int|].
cbn [value]. destruct (Nat.odd (S l)).
- split; [|apply worst_of_le].
  apply worst_of_range; [intros c; apply IH|unfold INT_MIN, INT_MAX; lia].
- split; [apply best_of_ge|].
  apply best_of_range; [intros c; apply IH|unfold INT_MIN, INT_MAX; lia].
Qed.

Lemma within_min (alpha beta v r : Z) :
  alpha < beta -> within alpha beta (Z.min beta v) r -> within alpha beta v r.
Proof. unfold within. lia. Qed.

Lemma within_max (alpha beta v r : Z) :
  alpha < beta -> within alpha beta (Z.max alpha v) r -> within alpha beta v r.
Proof. unfold within. lia. Qed.

(** *** SearcherNaiveMinimax *)





(** *** SearcherAlphaBeta *)

Lemma ab_mini_loop_value (maxi : list Z -> Z -> Z -> st Z -> Z * st Z) (f : list Z -> Z)
    (children : list (list Z)) (alpha beta : Z) (s : st Z) :
  answers maxi f ->
  INT_MIN <= alpha -> alpha < beta -> beta <= INT_MAX ->
  (quiet s -> quiet (snd (ab_mini_loop maxi children alpha beta s))) /\
  (live (snd (ab_mini_loop maxi children alpha beta s)) ->
   within alpha beta (worst_of f children beta)
     (fst (ab_mini_loop maxi children alpha beta s))).
Proof.
intros Hans Ha. revert beta s.
induction children as [|c rest IH]; intros beta s Hab Hb; cbn [ab_mini_loop worst_of].
- split; [tauto|]. intros _. cbn [fst]. unfold within. lia.
- destruct (Hans c alpha beta s Ha Hab Hb) as [Hq Hv].
  destruct (maxi c alpha beta s) as [score s1]. cbn [fst snd] in Hq, Hv.
  destruct (cancelled s1) as [[|] s2] eqn:E;
    destruct (cancelled_inv _ _ _ E) as (_ & _ & Ht & Hf & Hn).
  + destruct (Ht eq_refl) as [H0 ->]. cbn [fst snd]. split.
    * intros H. destruct (Hn (Hq H)). discriminate.
    * intros H. contradiction.
  + specialize (Hv (Hf eq_refl)).
    pose proof (worst_of_le f rest (Z.min beta (f c))) as Hle.
    destruct (Z.geb_spec alpha (Z.min beta score)) as [Hp|Hp]; cbn [fst snd].
    * split; [intros H; apply Hn, Hq, H|]. intros _. unfold within in *. lia.
    * assert (Z.min beta score = Z.min beta (f c)) as Hsame by (unfold within in Hv; lia).
      rewrite Hsame in *.
      destruct (IH (Z.min beta (f c)) s2 ltac:(lia) ltac:(lia)) as [IH1 IH2].
      split; [intros H; apply IH1, Hn, Hq, H|].
      intros H. specialize (IH2 H). unfold within in *. lia.
Qed.

Lemma ab_maxi_loop_value (mini : list Z -> Z -> Z -> st Z -> Z * st Z) (f : list Z -> Z)
    (board : list Z) (dirs : list Z) (alpha beta move : Z) (s : st Z) :
  answers mini f ->
  INT_MIN <= alpha -> alpha < beta -> beta <= INT_MAX ->
  (quiet s -> quiet (snd (ab_maxi_loop mini board dirs alpha beta move s))) /\
  (live (snd (ab_maxi_loop mini board dirs alpha beta move s)) ->
   within alpha beta (fst (best_of f board dirs alpha move))
     (fst (fst (ab_maxi_loop mini board dirs alpha beta move s)))).
Proof.
intros Hans Ha Hab Hb. revert alpha move s Ha Hab.
induction dirs as [|i rest IH]; intros alpha move s Ha Hab; cbn [ab_maxi_loop best_of].
- split; [tauto|]. intros _. cbn [fst]. unfold within. lia.
- destruct (Board.tilt (DIR_DX i) (DIR_DY i) board) as [[[ns mv] sc] an].
  destruct mv; cbn [negb]; [|apply IH; assumption].
  destruct (Hans ns alpha beta (tally_move s) Ha Hab Hb) as [Hq Hv].
  destruct (mini ns alpha beta (tally_move s)) as [score s1]. cbn [fst snd] in Hq, Hv.
  destruct (cancelled s1) as [[|] s2] eqn:E;
    destruct (cancelled_inv _ _ _ E) as (_ & _ & Ht & Hf & Hn).
  + destruct (Ht eq_refl) as [H0 ->]. cbn [fst snd]. split.
    * intros H. destruct (Hn (Hq H)). discriminate.
    * intros H. contradiction.
  + specialize (Hv (Hf eq_refl)). cbv zeta.
    destruct (Z.gtb_spec score alpha) as [Hgt|Hle].
    * destruct (Z.geb_spec score beta) as [Hp|Hp]; cbn [fst snd].
      -- split; [intros H; apply Hn, Hq, H|]. intros _.
         assert (f ns > alpha) as Hfa by (unfold within in Hv; lia).
         destruct (Z.gtb_spec (f ns) alpha) as [_|]; [|lia].
         pose proof (best_of_ge f board rest (f ns) i). unfold within in *. lia.
      -- assert (f ns = score) as Hfs by (unfold within in Hv; lia). rewrite Hfs.
         destruct (Z.gtb_spec score alpha) as [_|]; [|lia].
         destruct (IH score i s2 ltac:(lia) ltac:(lia)) as [IH1 IH2].
         split; [intros H; apply IH1, Hn, Hq, H|].
         intros H. specialize (IH2 H).
         pose proof (best_of_ge f board rest score i). unfold within in *. lia.
    * assert (f ns <= alpha) as Hfa by (unfold within in Hv; lia).
      destruct (Z.gtb_spec (f ns) alpha) as [|_]; [lia|].
      destruct (Z.geb_spec alpha beta) as [|_]; [lia|].
      destruct (IH alpha move s2 Ha Hab) as [IH1 IH2].
      split; [intros H; apply IH1, Hn, Hq, H|exact IH2].
Qed.


Lemma value_odd (h : nat) (board : list Z) :
  value evalfn (S (h * 2)) board =
  worst_of (value evalfn (h * 2)) (placements board) INT_MAX.
Proof.
cbn [value]. rewrite odd_succ, odd_double. reflexivity.
Qed.

Lemma value_even (h : nat) (board : list Z) :
  value evalfn (S (S (h * 2))) board =
  fst (best_of (value evalfn (S (h * 2))) board directions INT_MIN (-1)).
Proof.
cbn [value]. rewrite odd_succ, odd_succ, odd_double. reflexivity.
Qed.

Lemma move_at_even (h : nat) (board : list Z) :
  move_at evalfn (S (S (h * 2))) board =
  snd (best_of (value evalfn (S (h * 2))) board directions INT_MIN (-1)).
Proof.
cbn [move_at]. rewrite odd_succ, odd_succ, odd_double. reflexivity.
Qed.

(** The minimising half of a step of [SearcherAlphaBeta]. *)
Lemma ab_mini_value (maxi : list Z -> Z -> Z -> st Z -> Z * Z * st Z) (h : nat) :
  answers (fun c a be s0 => let '(score, _, s1) := maxi c a be s0 in (score, s1))
          (value evalfn (h * 2)) ->
  answers
    (fun (b : list Z) (a be : Z) (s' : st Z) =>
       ab_mini_loop
         (fun (b' : list Z) (a' be' : Z) (s'' : st Z) =>
            let '(score, _, s3) := maxi b' a' be' s'' in (score, s3))
         (placements b) a be s')
    (value evalfn (S (h * 2))).
Proof.
intros Hans c a be s0 H1 H2 H3.
destruct (ab_mini_loop_value _ _ (placements c) a be s0 Hans H1 H2 H3) as [Hq Hw].
split; [exact Hq|]. intros H. specialize (Hw H).
rewrite value_odd. apply within_min; [exact H2|].
rewrite <- worst_of_min. replace (Z.min be INT_MAX) with be by lia. exact Hw.
Qed.

Lemma ab_do_search_maxi_value (h : nat) :
  answers (fun c a be s0 =>
             let '(score, _, s1) := ab_do_search_maxi evalfn h c a be s0 in (score, s1))
          (value evalfn (h * 2)).
Proof.
induction h as [|h IH]; intros board alpha beta s Ha Hab Hb.
- cbn [ab_do_search_maxi Nat.mul value].
  destruct (cancelled s) as [[|] s1] eqn:E;
    destruct (cancelled_inv _ _ _ E) as (_ & _ & Ht & Hf & Hn); cbn [fst snd].
  + destruct (Ht eq_refl) as [H0 ->]. split; [intros H; destruct (Hn H); discriminate|].
    intros H. contradiction.
  + split; [intros H; apply Hn, H|]. intros _. unfold eval_board, within. lia.
- change (S h * 2)%nat with (S (S (h * 2))). cbn [ab_do_search_maxi].
  pose proof (ab_mini_value (ab_do_search_maxi evalfn h) h IH) as Hmini.
  destruct (ab_maxi_loop_value _ _ board directions alpha beta (-1) s Hmini Ha Hab Hb)
    as [H1 H2].
  match goal with
  | |- context [ab_maxi_loop ?m board directions alpha beta (-1) s] =>
      destruct (ab_maxi_loop m board directions alpha beta (-1) s) as [[r mv] s'] eqn:E
  end.
  cbn [fst snd] in *. split; [exact H1|]. intros H. specialize (H2 H).
  rewrite value_even. apply within_max; [exact Hab|].
  rewrite <- (best_of_max _ _ _ _ _ (-1) (-1)).
  replace (Z.max alpha INT_MIN) with alpha by lia. exact H2.
Qed.


(** *** The boards of a search *)

Lemma in_range_weaken (hi hi' : Z) (board : list Z) :
  hi <= hi' -> Board.in_range hi board -> Board.in_range hi' board.
Proof.
intros Hle [Hlen Hall]. split; [exact Hlen|].
eapply Forall_impl; [exact Hall|]. cbn. intros v Hv. lia.
Qed.

Lemma mass_zero (l : list Z) :
  Forall (fun v => 0 <= v) l -> Board.mass l = 0 -> l = replicate (length l) 0.
Proof.
unfold Board.mass. induction l as [|v l IH]; intros Hall Hm; [reflexivity|].
inversion Hall as [|? ? Hv Hl]; subst. cbn [fold_right] in Hm.
assert (forall l', Forall (fun v => 0 <= v) l' ->
          0 <= fold_right (fun v acc => (if v =? 0 then 0 else 2 ^ v) + acc) 0 l') as Hpos.
{ induction l' as [|v' l' IH']; intros Hall'; cbn [fold_right]; [lia|].
  inversion Hall' as [|? ? Hv' Hl']; subst. specialize (IH' Hl').
  destruct (v' =? 0); [lia|]. pose proof (Z.pow_pos_nonneg 2 v' ltac:(lia) Hv'). lia. }
specialize (Hpos l Hl).
destruct (Z.eqb_spec v 0) as [->|Hne].
- cbn [length replicate]. f_equal. apply IH; [exact Hl|lia].
- pose proof (Z.pow_pos_nonneg 2 v ltac:(lia) Hv). lia.
Qed.

Lemma playable_pos (hi : Z) (board : list Z) : playable hi board -> 1 <= hi.
Proof.
intros [[Hlen Hall] Hne]. destruct (Z.le_gt_cases 1 hi) as [H|H]; [exact H|].
exfalso. apply Hne. unfold Board.reset.
apply list_eq_same_length with 16%nat; [rewrite length_replicate; reflexivity|exact Hlen|].
intros i x y Hi Hx Hy. apply lookup_replicate in Hy. destruct Hy as [-> _].
pose proof (proj1 (Forall_lookup _ _) Hall i x Hx) as Hxr. cbn in Hxr. lia.
Qed.

Lemma tilt_playable (hi dir : Z) (board b' : list Z) (mv : bool) (sc : Z)
    (an : list anim_event) :
  playable hi board -> hi < 255 -> 0 <= dir < 4 ->
  Board.tilt (DIR_DX dir) (DIR_DY dir) board = (b', mv, sc, an) ->
  playable (hi + 1) b'.
Proof.
intros [[Hlen Hall] Hne] Hhi Hdir Hrun.
destruct (tilt_bound dir board Hdir Hlen hi b' mv sc an Hall Hhi Hrun) as [Hlen' Hall'].
split; [split; assumption|].
intros ->.
assert (Forall (fun v => 0 <= v < 255) board) as Hleg.
{ eapply Forall_impl; [exact Hall|]. cbn. intros v Hv. lia. }
destruct (tilt_legal dir board Hdir Hlen _ mv sc an Hleg Hrun) as (_ & _ & Hmass & _).
apply Hne. unfold Board.reset. rewrite (mass_zero board).
- rewrite Hlen. reflexivity.
- eapply Forall_impl; [exact Hall|]. cbn. intros v Hv. lia.
- rewrite <- Hmass. reflexivity.
Qed.

Lemma placements_in (board c : list Z) :
  In c (placements board) ->
  exists i v, 0 <= i < 16 /\ Board.get board i = 0 /\ (v = 1 \/ v = 2) /\
              c = Board.set board i v.
Proof.
unfold placements. rewrite in_flat_map. intros (i & Hi & Hc).
apply cells_range in Hi.
destruct (Z.eqb_spec (Board.get board i) 0) as [H0|]; [|destruct Hc].
cbn [In] in Hc. destruct Hc as [<-|[<-|[]]]; eauto 10.
Qed.

Lemma placements_playable (hi : Z) (board c : list Z) :
  playable hi board -> 2 <= hi -> In c (placements board) -> playable hi c.
Proof.
intros [[Hlen Hall] Hne] Hhi Hin.
destruct (placements_in board c Hin) as (i & v & Hi & Hfree & Hv & ->).
unfold Board.set. split; [split|].
- rewrite length_insert. exact Hlen.
- apply Forall_insert; [exact Hall|]. lia.
- intros Heq.
  assert (<[Z.to_nat i := v]> board !! Z.to_nat i = Some v) as Hget
    by (apply list_lookup_insert_eq; lia).
  rewrite Heq in Hget. unfold Board.reset in Hget.
  apply lookup_replicate in Hget. lia.
Qed.

(** *** SearcherCachingMinimax *)

Lemma budget_playable (hi : Z) (l : nat) (board : list Z) :
  playable hi board -> budget hi l -> playable 15 board.
Proof.
intros [Hin Hne] [Hb _]. split; [|exact Hne].
apply (in_range_weaken hi); [destruct (Nat.odd l); lia|exact Hin].
Qed.

(** The key of a playable board: the assertion of [pack_board_state]
    holds, and so does [assert(k)]. *)
Lemma playable_key (board : list Z) :
  playable 15 board -> exists k, pack_board_state board = Some k /\ k <> 0.
Proof.
intros [Hin Hne]. rewrite (pack_fold board Hin). eexists. split; [reflexivity|].
intros H0. apply Hne, pack_board_state_zero; [exact Hin|].
rewrite (pack_fold board Hin), H0. reflexivity.
Qed.

Lemma directions_range (i : Z) : In i directions -> 0 <= i < 4.
Proof. unfold directions. cbn [In]. lia. Qed.

Lemma cm_ok_cancelled (s s' : st cm_fields) (c : bool) :
  cancelled s = (c, s') -> cm_ok evalfn s -> cm_ok evalfn s'.
Proof.
intros E H. destruct (cancelled_inv _ _ _ E) as (He & _). unfold cm_ok. rewrite He. exact H.
Qed.

Lemma cm_put_ok (board : list Z) (k : Z) (l : nat) (s : st cm_fields) :
  playable 15 board -> pack_board_state board = Some k -> k <> 0 -> cm_ok evalfn s ->
  returns (cm_put k (BoardCache.where_ k) (mkCmInfo (Z.of_nat l) (value evalfn l board)) s)
    (fun s' => cm_ok evalfn s' /\ clear_polls s' = clear_polls s).
Proof.
intros Hb Hk Hk0 [Hwf Hall]. unfold cm_put. rewrite put_stores by exact Hk0.
cbn [returns]. split; [|reflexivity]. unfold cm_ok. cbn [ext set_ext cm_cache]. split.
- apply wf_store_value; [exact Hwf|apply where_range].
- apply cache_all_store; [exact Hwf|apply where_range|exact Hall|].
  intros b' Hb' Hk'. exists l. cbn [cm_lookahead cm_score].
  rewrite (pack_board_state_inj b' board (proj1 Hb') (proj1 Hb)) by congruence.
  split; reflexivity.
Qed.

Lemma cm_minimise_value (rec : list Z -> st cm_fields -> option (Z * st cm_fields))
    (f : list Z -> Z) (children : list (list Z)) (best : Z) (s : st cm_fields) :
  (forall c s0, In c children -> cm_ok evalfn s0 ->
     returns (rec c s0)
       (fun out => cm_ok evalfn (snd out) /\ (quiet s0 -> quiet (snd out)) /\
                   (live (snd out) -> fst out = f c))) ->
  cm_ok evalfn s ->
  returns (cm_minimise rec children best s)
    (fun out => cm_ok evalfn (snd out) /\ (quiet s -> quiet (snd out)) /\
                match fst out with
                | Some r => r = worst_of f children best
                | None => ~ live (snd out)
                end).
Proof.
revert best s.
induction children as [|c rest IH]; intros best s Hrec Hok; cbn [cm_minimise worst_of].
- cbn [returns fst snd]. split; [exact Hok|]. split; [tauto|reflexivity].
- pose proof (Hrec c s (or_introl eq_refl) Hok) as Hc.
  destruct (rec c s) as [[score s1]|]; [|destruct Hc].
  cbn [returns fst snd] in Hc. destruct Hc as (Hok1 & Hq & Hv).
  pose proof (fun c0 s0 H => Hrec c0 s0 (or_intror H)) as Hrec'.
  destruct (cancelled s1) as [[|] s2] eqn:E;
    pose proof (cm_ok_cancelled _ _ _ E Hok1) as Hok2;
    destruct (cancelled_inv _ _ _ E) as (_ & _ & Ht & Hf & Hn).
  + destruct (Ht eq_refl) as [H0 ->]. cbn [returns fst snd]. split; [exact Hok2|]. split.
    * intros H. destruct (Hn (Hq H)). discriminate.
    * intros H. contradiction.
  + rewrite (Hv (Hf eq_refl)).
    replace (if f c <? best then f c else best) with (Z.min best (f c))
      by (destruct (Z.ltb_spec (f c) best); lia).
    pose proof (IH (Z.min best (f c)) s2 Hrec' Hok2) as IHc.
    destruct (cm_minimise rec rest (Z.min best (f c)) s2) as [out|]; [|destruct IHc].
    cbn [returns] in *. destruct IHc as (IH0 & IH1 & IH2).
    split; [exact IH0|]. split; [|exact IH2].
    intros H. apply IH1. apply Hn, Hq, H.
Qed.

Lemma cm_maximise_value (rec : list Z -> st cm_fields -> option (Z * st cm_fields))
    (f : list Z -> Z) (board : list Z) (dirs : list Z) (best move : Z)
    (s : st cm_fields) :
  (forall i ns sc an s0, In i dirs ->
     Board.tilt (DIR_DX i) (DIR_DY i) board = (ns, true, sc, an) -> cm_ok evalfn s0 ->
     returns (rec ns s0)
       (fun out => cm_ok evalfn (snd out) /\ (quiet s0 -> quiet (snd out)) /\
                   (live (snd out) -> fst out = f ns))) ->
  cm_ok evalfn s ->
  returns (cm_maximise rec board dirs best move s)
    (fun out => cm_ok evalfn (snd out) /\ (quiet s -> quiet (snd out)) /\
                match fst (fst out) with
                | Some r => (r, snd (fst out)) = best_of f board dirs best move
                | None => ~ live (snd out)
                end).
Proof.
revert best move s.
induction dirs as [|i rest IH]; intros best move s Hrec Hok; cbn [cm_maximise best_of].
- cbn [returns fst snd]. split; [exact Hok|]. split; [tauto|reflexivity].
- pose proof (fun i0 ns sc an s0 H => Hrec i0 ns sc an s0 (or_intror H)) as Hrec'.
  pose proof (fun ns sc an s0 => Hrec i ns sc an s0 (or_introl eq_refl)) as Hrec0.
  destruct (Board.tilt (DIR_DX i) (DIR_DY i) board) as [[[ns mv] sc] an].
  destruct mv; cbn [negb]; [|apply IH; assumption].
  pose proof (Hrec0 ns sc an (tally_move s) eq_refl Hok) as Hc.
  destruct (rec ns (tally_move s)) as [[score s1]|]; [|destruct Hc].
  cbn [returns fst snd] in Hc. destruct Hc as (Hok1 & Hq & Hv).
  destruct (cancelled s1) as [[|] s2] eqn:E;
    pose proof (cm_ok_cancelled _ _ _ E Hok1) as Hok2;
    destruct (cancelled_inv _ _ _ E) as (_ & _ & Ht & Hf & Hn).
  + destruct (Ht eq_refl) as [H0 ->]. cbn [returns fst snd]. split; [exact Hok2|]. split.
    * intros H. destruct (Hn (Hq H)). discriminate.
    * intros H. contradiction.
  + rewrite (Hv (Hf eq_refl)).
    destruct (f ns >? best).
    * pose proof (IH (f ns) i s2 Hrec' Hok2) as IHc.
      destruct (cm_maximise rec board rest (f ns) i s2) as [out|]; [|destruct IHc].
      cbn [returns] in *. destruct IHc as (IH0 & IH1 & IH2).
      split; [exact IH0|]. split; [|exact IH2].
      intros H. apply IH1. apply Hn, Hq, H.
    * pose proof (IH best move s2 Hrec' Hok2) as IHc.
      destruct (cm_maximise rec board rest best move s2) as [out|]; [|destruct IHc].
      cbn [returns] in *. destruct IHc as (IH0 & IH1 & IH2).
      split; [exact IH0|]. split; [|exact IH2].
      intros H. apply IH1. apply Hn, Hq, H.
Qed.

(** The caching minimax search returns on playable boards within the
    budget, keeps every cache entry sound, and unless the flag was seen
    set it returns the minimax value. *)
Lemma cm_do_search_real_value (l : nat) (hi : Z) (board : list Z) (s : st cm_fields) :
  playable hi board -> budget hi l -> cm_ok evalfn s ->
  returns (cm_do_search_real evalfn l board s)
    (fun out =>
       cm_ok evalfn (snd out) /\ (quiet s -> quiet (snd out)) /\
       (live (snd out) ->
        fst (fst out) = value evalfn l board /\
        ((forall k, pack_board_state board = Some k ->
            BoardCache.find_value (cm_cache (ext s)) k (BoardCache.where_ k) = None) ->
         snd (fst out) = move_at evalfn l board))).
Proof.
revert hi board s. induction l as [|l IH]; intros hi board s Hb Hbud Hok;
  pose proof (budget_playable _ _ _ Hb Hbud) as Hb15;
  destruct (playable_key _ Hb15) as (k & Hk & Hk0);
  cbn [cm_do_search_real]; rewrite Hk; cbv beta iota zeta;
  rewrite (get_finds _ k _ Hk0);
  match goal with
  | |- context [match BoardCache.find_value _ _ _ with Some _ => _ | None => ?m end] =>
      set (miss := m)
  end.
- assert (returns miss
            (fun out => cm_ok evalfn (snd out) /\ (quiet s -> quiet (snd out)) /\
               (live (snd out) ->
                fst (fst out) = value evalfn 0 board /\
                snd (fst out) = move_at evalfn 0 board))) as Hmiss.
  { unfold miss. cbn [value move_at].
    destruct (cancelled s) as [[|] s1] eqn:E;
      pose proof (cm_ok_cancelled _ _ _ E Hok) as Hok1;
      destruct (cancelled_inv _ _ _ E) as (_ & _ & Ht & Hf & Hn); cbn [returns fst snd].
    - destruct (Ht eq_refl) as [H0 ->]. split; [exact Hok1|].
      split; [intros H; destruct (Hn H); discriminate|]. intros H. contradiction.
    - pose proof (cm_put_ok board k 0 s1 Hb15 Hk Hk0 Hok1) as Hp.
      change (value evalfn 0 board) with (eval_board evalfn board) in Hp.
      destruct (cm_put k _ _ s1) as [s2|]; [|destruct Hp].
      cbn [returns fst snd] in *. destruct Hp as [Hok2 Hp2].
      split; [exact Hok2|]. split; [|intros _; split; reflexivity].
      intros H. unfold quiet. rewrite Hp2. apply Hn, H. }
  destruct (BoardCache.find_value _ _ _) as [cached|] eqn:G.
  + destruct (Z.eqb_spec (cm_lookahead cached) (Z.of_nat 0)) as [Hl|Hl].
    * cbn [returns fst snd]. split; [exact Hok|]. split; [tauto|]. intros _.
      split; [|intros Hnone; rewrite (Hnone k eq_refl) in G; discriminate].
      destruct (cache_all_find _ _ _ _ _ (proj2 Hok) Hk0 G board Hb15 Hk)
        as (l0 & Hl0 & Hs0).
      assert (l0 = 0%nat) as -> by lia. exact Hs0.
    * destruct miss as [out|]; [|destruct Hmiss]. cbn [returns] in *.
      destruct Hmiss as (H1 & H2 & H3). split; [exact H1|]. split; [exact H2|].
      intros H. destruct (H3 H) as [H4 H5]. split; [exact H4|]. intros _. exact H5.
  + destruct miss as [out|]; [|destruct Hmiss]. cbn [returns] in *.
    destruct Hmiss as (H1 & H2 & H3). split; [exact H1|]. split; [exact H2|].
    intros H. destruct (H3 H) as [H4 H5]. split; [exact H4|]. intros _. exact H5.
- assert (returns miss
            (fun out => cm_ok evalfn (snd out) /\ (quiet s -> quiet (snd out)) /\
               (live (snd out) ->
                fst (fst out) = value evalfn (S l) board /\
                snd (fst out) = move_at evalfn (S l) board))) as Hmiss.
  { unfold miss. clear miss.
    set (rec := fun (b : list Z) (s' : st cm_fields) =>
                  match cm_do_search_real evalfn l b s' with
                  | Some (score, _, s'') => Some (score, s'')
                  | None => None
                  end).
    destruct Hbud as [Hbud Hhi]. rewrite odd_succ in Hbud, Hhi.
    rewrite Nat2Z.inj_succ in Hbud.
    destruct (Nat.odd (S l)) eqn:Hodd; rewrite odd_succ in Hodd.
    - assert (Nat.odd l = false) as Hl by (destruct (Nat.odd l); [discriminate|reflexivity]).
      rewrite Hl in Hbud, Hhi. specialize (Hhi eq_refl).
      assert (forall c s0, In c (placements board) -> cm_ok evalfn s0 ->
                returns (rec c s0)
                  (fun out => cm_ok evalfn (snd out) /\ (quiet s0 -> quiet (snd out)) /\
                              (live (snd out) -> fst out = value evalfn l c))) as Hrec.
      { intros c s0 Hin Hok0. unfold rec.
        assert (budget hi l) as Hbl by (split; [rewrite Hl; cbn [negb] in Hbud; lia|congruence]).
        pose proof (IH hi c s0 (placements_playable hi board c Hb Hhi Hin) Hbl Hok0) as Hc.
        destruct (cm_do_search_real evalfn l c s0) as [[[score m] s1]|]; [|destruct Hc].
        cbn [returns fst snd] in *. destruct Hc as (H1 & H2 & H3).
        split; [exact H1|]. split; [exact H2|]. intros H. apply H3, H. }
      pose proof (cm_minimise_value rec (value evalfn l) (placements board) INT_MAX s
                    Hrec Hok) as Hloop.
      destruct (cm_minimise rec (placements board) INT_MAX s) as [[[r|] s']|];
        [| |destruct Hloop]; cbn [returns fst snd] in Hloop;
        destruct Hloop as (H1 & H2 & H3).
      + assert (value evalfn (S l) board = r /\ move_at evalfn (S l) board = -1)
          as [Hval Hmove]
          by (cbn [value move_at]; rewrite odd_succ, Hl; cbn [negb];
              split; [symmetry; exact H3|reflexivity]).
        pose proof (cm_put_ok board k (S l) s' Hb15 Hk Hk0 H1) as Hp.
        rewrite Hval in Hp.
        destruct (cm_put k _ _ s') as [s2|]; [|destruct Hp].
        cbn [returns fst snd] in *. destruct Hp as [Hok2 Hp2].
        split; [exact Hok2|]. split; [|intros _; split; congruence].
        intros H. unfold quiet. rewrite Hp2. apply H2, H.
      + cbn [returns fst snd]. split; [exact H1|]. split; [exact H2|].
        intros H. contradiction.
    - assert (Nat.odd l = true) as Hl by (destruct (Nat.odd l); [reflexivity|discriminate]).
      rewrite Hl in Hbud. cbn [negb] in Hbud.
      pose proof (playable_pos _ _ Hb) as Hpos.
      assert (forall i ns sc an s0, In i directions ->
                Board.tilt (DIR_DX i) (DIR_DY i) board = (ns, true, sc, an) ->
                cm_ok evalfn s0 ->
                returns (rec ns s0)
                  (fun out => cm_ok evalfn (snd out) /\ (quiet s0 -> quiet (snd out)) /\
                              (live (snd out) -> fst out = value evalfn l ns))) as Hrec.
      { intros i ns sc an s0 Hin Hrun Hok0. unfold rec.
        assert (budget (hi + 1) l) as Hbl by (split; [rewrite Hl; lia|lia]).
        pose proof (IH (hi + 1) ns s0
                      (tilt_playable hi i board ns true sc an Hb ltac:(lia)
                         (directions_range i Hin) Hrun) Hbl Hok0) as Hc.
        destruct (cm_do_search_real evalfn l ns s0) as [[[score m] s1]|]; [|destruct Hc].
        cbn [returns fst snd] in *. destruct Hc as (H1 & H2 & H3).
        split; [exact H1|]. split; [exact H2|]. intros H. apply H3, H. }
      pose proof (cm_maximise_value rec (value evalfn l) board directions INT_MIN (-1) s
                    Hrec Hok) as Hloop.
      destruct (cm_maximise rec board directions INT_MIN (-1) s) as [[[[r|] m] s']|];
        [| |destruct Hloop]; cbn [returns fst snd] in Hloop;
        destruct Hloop as (H1 & H2 & H3).
      + assert (value evalfn (S l) board = r /\ move_at evalfn (S l) board = m)
          as [Hval Hmove]
          by (cbn [value move_at]; rewrite odd_succ, Hl; cbn [negb]; rewrite <- H3;
              split; reflexivity).
        pose proof (cm_put_ok board k (S l) s' Hb15 Hk Hk0 H1) as Hp.
        rewrite Hval in Hp.
        destruct (cm_put k _ _ s') as [s2|]; [|destruct Hp].
        cbn [returns fst snd] in *. destruct Hp as [Hok2 Hp2].
        split; [exact Hok2|]. split; [|intros _; split; congruence].
        intros H. unfold quiet. rewrite Hp2. apply H2, H.
      + cbn [returns fst snd]. split; [exact H1|]. split; [exact H2|].
        intros H. contradiction. }
  destruct (BoardCache.find_value _ _ _) as [cached|] eqn:G.
  + destruct (Z.eqb_spec (cm_lookahead cached) (Z.of_nat (S l))) as [Hl|Hl].
    * cbn [returns fst snd]. split; [exact Hok|]. split; [tauto|]. intros _.
      split; [|intros Hnone; rewrite (Hnone k eq_refl) in G; discriminate].
      destruct (cache_all_find _ _ _ _ _ (proj2 Hok) Hk0 G board Hb15 Hk)
        as (l0 & Hl0 & Hs0).
      assert (l0 = S l) as -> by lia. exact Hs0.
    * destruct miss as [out|]; [|destruct Hmiss]. cbn [returns] in *.
      destruct Hmiss as (H1 & H2 & H3). split; [exact H1|]. split; [exact H2|].
      intros H. destruct (H3 H) as [H4 H5]. split; [exact H4|]. intros _. exact H5.
  + destruct miss as [out|]; [|destruct Hmiss]. cbn [returns] in *.
    destruct Hmiss as (H1 & H2 & H3). split; [exact H1|]. split; [exact H2|].
    intros H. destruct (H3 H) as [H4 H5]. split; [exact H4|]. intros _. exact H5.
Qed.

(** *** SearcherCachingAlphaBeta *)

Lemma cab_ok_cancelled (s s' : st cab_fields) (c : bool) :
  cancelled s = (c, s') -> cab_ok evalfn s -> cab_ok evalfn s'.
Proof.
intros E H. destruct (cancelled_inv _ _ _ E) as (He & _). unfold cab_ok. rewrite He. exact H.
Qed.

Lemma i16_small (v : Z) : - 2 ^ 15 <= v < 2 ^ 15 -> i16 v = v.
Proof.
intros H. unfold i16. rewrite Z.mod_small; lia.
Qed.

Lemma cab_put_ok (board : list Z) (k : Z) (l : nat) (t r : Z) (s : st cab_fields) :
  playable 15 board -> pack_board_state board = Some k -> k <> 0 -> cab_ok evalfn s ->
  (t = SCORE_EXACT -> r = value evalfn l board) ->
  (t = SCORE_LOWER_BOUND -> r <= value evalfn l board) ->
  (t = SCORE_UPPER_BOUND -> value evalfn l board <= r) ->
  returns (cab_put k (BoardCache.where_ k) (mkCabInfo (Z.of_nat l) t r) s)
    (fun s' => cab_ok evalfn s' /\ clear_polls s' = clear_polls s).
Proof.
intros Hb Hk Hk0 [Hwf Hall] H1 H2 H3. unfold cab_put. rewrite put_stores by exact Hk0.
cbn [returns]. split; [|reflexivity]. unfold cab_ok. cbn [ext set_ext cab_cache]. split.
- apply wf_store_value; [exact Hwf|apply where_range].
- apply cache_all_store; [exact Hwf|apply where_range|exact Hall|].
  intros b' Hb' Hk'. exists l. cbn [cab_lookahead cab_score cab_type].
  rewrite (pack_board_state_inj b' board (proj1 Hb') (proj1 Hb)) by congruence.
  split; [reflexivity|]. split; [exact H1|]. split; [exact H2|exact H3].
Qed.

Lemma check_cached_value (l : nat) (board : list Z) (k : Z) (alpha beta : Z)
    (s : st cab_fields) :
  playable 15 board -> pack_board_state board = Some k -> k <> 0 ->
  cab_ok evalfn s -> alpha < beta ->
  let out := check_cached
               (BoardCache.find_value (cab_cache (ext s)) k (BoardCache.where_ k))
               alpha beta (Z.of_nat l) s in
  cab_ok evalfn (snd out) /\ clear_polls (snd out) = clear_polls s /\
  match fst out with
  | Some r => within alpha beta (value evalfn l board) r
  | None => snd out = s
  end.
Proof.
intros Hb Hk Hkey Hok Hab. cbv zeta.
unfold check_cached.
destruct (BoardCache.find_value _ _ _) as [info|] eqn:G; [|cbn [fst snd]; tauto].
destruct (cache_all_find _ _ _ _ _ (proj2 Hok) Hkey G board Hb Hk)
  as (l0 & Hl0 & He & Hlo & Hup).
destruct (Z.eqb_spec (cab_lookahead info) (Z.of_nat l)) as [Hl|Hl];
  [|cbn [fst snd]; tauto].
assert (l0 = l) as -> by lia.
destruct (Z.eqb_spec (cab_type info) SCORE_EXACT) as [Ht|Ht].
{ cbn [fst snd]. split; [exact Hok|]. split; [reflexivity|].
  rewrite (He Ht). unfold within. lia. }
destruct (Z.eqb_spec (cab_type info) SCORE_UPPER_BOUND) as [Hu|Hu].
{ destruct (Z.leb_spec (cab_score info) alpha) as [Hle|Hgt]; cbn [fst snd]; [|tauto].
  split; [exact Hok|]. split; [reflexivity|]. specialize (Hup Hu). unfold within. lia. }
destruct (Z.eqb_spec (cab_type info) SCORE_LOWER_BOUND) as [Hw|Hw]; [|cbn [fst snd]; tauto].
destruct (Z.geb_spec (cab_score info) beta) as [Hge|Hlt]; cbn [fst snd]; [|tauto].
split; [exact Hok|]. split; [reflexivity|]. specialize (Hlo Hw). unfold within. lia.
Qed.

Lemma cab_mini_loop_value
    (maxi : list Z -> Z -> Z -> st cab_fields -> option (Z * st cab_fields))
    (f : list Z -> Z) (ok : list Z -> Prop) (children : list (list Z))
    (alpha beta cache_type : Z) (s : st cab_fields) :
  cab_answers evalfn maxi f ok -> (forall c, In c children -> ok c) ->
  INT_MIN <= alpha -> alpha < beta -> beta <= INT_MAX -> cab_ok evalfn s ->
  returns (cab_mini_loop maxi children alpha beta cache_type s)
    (fun out =>
       cab_ok evalfn (snd out) /\ (quiet s -> quiet (snd out)) /\
       match fst out with
       | None => ~ live (snd out)
       | Some (r, t) =>
           (t = SCORE_UPPER_BOUND /\ worst_of f children beta <= r /\ r <= alpha) \/
           (t = cache_type /\ r = beta /\ worst_of f children beta = beta) \/
           (t = SCORE_EXACT /\ r = worst_of f children beta /\ alpha < r < beta)
       end).
Proof.
intros Hans Hch Ha. revert beta cache_type s Hch.
induction children as [|c rest IH]; intros beta cache_type s Hch Hab Hb Hok;
  cbn [cab_mini_loop worst_of].
- cbn [returns fst snd]. split; [exact Hok|]. split; [tauto|]. right. left. tauto.
- pose proof (Hans c alpha beta s (Hch c (or_introl eq_refl)) Ha Hab Hb Hok) as Hc.
  pose proof (fun c0 H => Hch c0 (or_intror H)) as Hch'.
  destruct (maxi c alpha beta s) as [[score s1]|]; [|destruct Hc].
  cbn [returns fst snd] in Hc. destruct Hc as (Hok1 & Hq & Hv).
  destruct (cancelled s1) as [[|] s2] eqn:E;
    pose proof (cab_ok_cancelled _ _ _ E Hok1) as Hok2;
    destruct (cancelled_inv _ _ _ E) as (_ & _ & Ht & Hf & Hn).
  + destruct (Ht eq_refl) as [H0 ->]. cbn [returns fst snd]. split; [exact Hok2|]. split.
    * intros H. destruct (Hn (Hq H)). discriminate.
    * intros H. contradiction.
  + specialize (Hv (Hf eq_refl)). cbv zeta.
    pose proof (worst_of_le f rest (Z.min beta (f c))) as Hle.
    destruct (Z.ltb_spec score beta) as [Hlt|Hge].
    * destruct (Z.geb_spec alpha score) as [Hp|Hp]; cbn [returns fst snd].
      -- split; [exact Hok2|]. split; [intros H; apply Hn, Hq, H|].
         left. unfold within in Hv. split; [reflexivity|]. lia.
      -- assert (f c = score) as Hfs by (unfold within in Hv; lia).
         replace (Z.min beta (f c)) with score by lia.
         pose proof (IH score SCORE_EXACT s2 Hch' ltac:(lia) ltac:(lia) Hok2) as IHc.
         destruct (cab_mini_loop maxi rest alpha score SCORE_EXACT s2) as [[o s']|];
           [|destruct IHc].
         cbn [returns fst snd] in *. destruct IHc as (IH0 & IH1 & IH2).
         split; [exact IH0|]. split; [intros H; apply IH1, Hn, Hq, H|].
         destruct o as [[r t]|]; [|exact IH2].
         destruct IH2 as [(H1 & H2 & H3)|[(H1 & H2 & H3)|(H1 & H2 & H3)]].
         ++ left. tauto.
         ++ right. right. split; [exact H1|]. lia.
         ++ right. right. split; [exact H1|]. lia.
    * assert (beta <= f c) as Hfs by (unfold within in Hv; lia).
      replace (Z.min beta (f c)) with beta by lia.
      destruct (Z.geb_spec alpha beta) as [|_]; [lia|].
      pose proof (IH beta cache_type s2 Hch' Hab Hb Hok2) as IHc.
      destruct (cab_mini_loop maxi rest alpha beta cache_type s2) as [[o s']|];
        [|destruct IHc].
      cbn [returns fst snd] in *. destruct IHc as (IH0 & IH1 & IH2).
      split; [exact IH0|]. split; [intros H; apply IH1, Hn, Hq, H|exact IH2].
Qed.

Lemma cab_maxi_loop_value
    (mini : list Z -> Z -> Z -> st cab_fields -> option (Z * st cab_fields))
    (f : list Z -> Z) (ok : list Z -> Prop) (board : list Z) (dirs : list Z)
    (alpha beta cache_type move : Z) (s : st cab_fields) :
  cab_answers evalfn mini f ok ->
  (forall i ns sc an, In i dirs ->
     Board.tilt (DIR_DX i) (DIR_DY i) board = (ns, true, sc, an) -> ok ns) ->
  INT_MIN <= alpha -> alpha < beta -> beta <= INT_MAX -> cab_ok evalfn s ->
  returns (cab_maxi_loop mini board dirs alpha beta cache_type move s)
    (fun out =>
       cab_ok evalfn (snd out) /\ (quiet s -> quiet (snd out)) /\
       match fst (fst out) with
       | None => ~ live (snd out)
       | Some (r, t) =>
           ((t = SCORE_LOWER_BOUND /\ r <= fst (best_of f board dirs alpha move) /\
             beta <= r) \/
            (t = cache_type /\ r = alpha /\ fst (best_of f board dirs alpha move) = alpha) \/
            (t = SCORE_EXACT /\ r = fst (best_of f board dirs alpha move) /\
             alpha < r < beta)) /\
           (beta = INT_MAX -> (forall c, f c <= INT_MAX) ->
            (r, snd (fst out)) = best_of f board dirs alpha move)
       end).
Proof.
intros Hans Hch Ha Hab Hb Hok. revert alpha cache_type move s Hch Ha Hab Hok.
induction dirs as [|i rest IH]; intros alpha cache_type move s Hch Ha Hab Hok;
  cbn [cab_maxi_loop best_of].
- cbn [returns fst snd]. split; [exact Hok|]. split; [tauto|]. split; [|reflexivity].
  right. left. tauto.
- pose proof (fun i0 ns sc an H => Hch i0 ns sc an (or_intror H)) as Hch'.
  pose proof (fun ns sc an => Hch i ns sc an (or_introl eq_refl)) as Hch0.
  destruct (Board.tilt (DIR_DX i) (DIR_DY i) board) as [[[ns mv] sc] an].
  destruct mv; cbn [negb]; [|apply IH; assumption].
  pose proof (Hans ns alpha beta (tally_move s) (Hch0 ns sc an eq_refl) Ha Hab Hb Hok)
    as Hc.
  destruct (mini ns alpha beta (tally_move s)) as [[score s1]|]; [|destruct Hc].
  cbn [returns fst snd] in Hc. destruct Hc as (Hok1 & Hq & Hv).
  destruct (cancelled s1) as [[|] s2] eqn:E;
    pose proof (cab_ok_cancelled _ _ _ E Hok1) as Hok2;
    destruct (cancelled_inv _ _ _ E) as (_ & _ & Ht & Hf & Hn).
  + destruct (Ht eq_refl) as [H0 ->]. cbn [returns fst snd]. split; [exact Hok2|]. split.
    * intros H. destruct (Hn (Hq H)). discriminate.
    * intros H. contradiction.
  + specialize (Hv (Hf eq_refl)). cbv zeta.
    destruct (Z.gtb_spec score alpha) as [Hgt|Hle].
    * destruct (Z.geb_spec score beta) as [Hp|Hp]; cbn [returns fst snd].
      -- split; [exact Hok2|]. split; [intros H; apply Hn, Hq, H|].
         assert (f ns > alpha) as Hfa by (unfold within in Hv; lia).
         destruct (Z.gtb_spec (f ns) alpha) as [_|]; [|lia].
         pose proof (best_of_ge f board rest (f ns) i) as Hge. split.
         ++ left. unfold within in Hv. split; [reflexivity|]. lia.
         ++ intros -> Hfm. pose proof (Hfm ns).
            assert (f ns = INT_MAX /\ score = INT_MAX) as [Hfs ->]
              by (unfold within in Hv; lia).
            rewrite Hfs. symmetry. apply best_of_top. exact Hfm.
      -- assert (f ns = score) as Hfs by (unfold within in Hv; lia). rewrite Hfs.
         destruct (Z.gtb_spec score alpha) as [_|]; [|lia].
         pose proof (IH score SCORE_EXACT i s2 Hch' ltac:(lia) ltac:(lia) Hok2) as IHc.
         destruct (cab_maxi_loop mini board rest score beta SCORE_EXACT i s2)
           as [[[o m] s']|]; [|destruct IHc].
         cbn [returns fst snd] in *. destruct IHc as (IH0 & IH1 & IH2).
         split; [exact IH0|]. split; [intros H; apply IH1, Hn, Hq, H|].
         destruct o as [[r t]|]; [|exact IH2].
         destruct IH2 as [IH2 IH3]. split; [|exact IH3].
         destruct IH2 as [(H1 & H2 & H3)|[(H1 & H2 & H3)|(H1 & H2 & H3)]].
         ++ left. tauto.
         ++ right. right. split; [exact H1|]. lia.
         ++ right. right. split; [exact H1|]. lia.
    * assert (f ns <= alpha) as Hfa by (unfold within in Hv; lia).
      destruct (Z.gtb_spec (f ns) alpha) as [|_]; [lia|].
      destruct (Z.geb_spec alpha beta) as [|_]; [lia|].
      pose proof (IH alpha cache_type move s2 Hch' Ha Hab Hok2) as IHc.
      destruct (cab_maxi_loop mini board rest alpha beta cache_type move s2)
        as [[[o m] s']|]; [|destruct IHc].
      cbn [returns fst snd] in *. destruct IHc as (IH0 & IH1 & IH2).
      split; [exact IH0|]. split; [intros H; apply IH1, Hn, Hq, H|exact IH2].
Qed.

Lemma worst_of_window (f : list Z -> Z) (children : list (list Z)) (beta : Z) :
  beta <= INT_MAX ->
  worst_of f children beta = Z.min beta (worst_of f children INT_MAX).
Proof.
intros H. rewrite <- worst_of_min. f_equal. lia.
Qed.

Lemma best_of_window (f : list Z -> Z) (board : list Z) (dirs : list Z) (alpha m : Z) :
  INT_MIN <= alpha ->
  fst (best_of f board dirs alpha m) = Z.max alpha (fst (best_of f board dirs INT_MIN m)).
Proof.
intros H. rewrite <- (best_of_max _ _ _ _ _ m m). f_equal. f_equal. lia.
Qed.

(** [do_search_mini] of [SearcherCachingAlphaBeta] at lookahead
    [2 h + 1]. *)
Lemma cab_do_search_mini_value
    (maxi : list Z -> Z -> Z -> st cab_fields -> option (Z * st cab_fields))
    (h : nat) (lz : Z) (ok : list Z -> Prop) :
  cab_answers evalfn maxi (value evalfn (h * 2)) ok ->
  lz = Z.of_nat (S (h * 2)) -> (h <= 15)%nat ->
  cab_answers evalfn (cab_do_search_mini maxi lz) (value evalfn (S (h * 2)))
    (fun c => playable 15 c /\ forall c', In c' (placements c) -> ok c').
Proof.
intros Hans -> Hh c a be s0 [Hc Hch] Ha Hab Hb Hok. unfold cab_do_search_mini.
destruct (Z.ltb_spec a be) as [_|]; [|lia].
destruct (playable_key _ Hc) as (k & Hk & Hk0). rewrite Hk. cbv beta iota zeta.
rewrite (get_finds _ k _ Hk0).
pose proof (check_cached_value (S (h * 2)) c k a be s0 Hc Hk Hk0 Hok Hab) as Hcc.
cbv zeta in Hcc.
destruct (check_cached _ a be (Z.of_nat (S (h * 2))) s0) as [[out|] s1];
  cbn [fst snd] in Hcc; destruct Hcc as (Hok1 & Hp & Hw).
- cbn [returns fst snd]. split; [exact Hok1|]. split; [unfold quiet; congruence|].
  intros _. exact Hw.
- subst s1.
  pose proof (cab_mini_loop_value maxi (value evalfn (h * 2)) ok (placements c) a be
                SCORE_LOWER_BOUND s0 Hans Hch Ha Hab Hb Hok) as Hl.
  destruct (cab_mini_loop maxi (placements c) a be SCORE_LOWER_BOUND s0)
    as [[[[r t]|] s']|]; [| |destruct Hl]; cbn [returns fst snd] in Hl;
    destruct Hl as (H1 & H2 & H3).
  + rewrite worst_of_window in H3 by exact Hb. rewrite <- value_odd in H3.
    rewrite (i16_small (Z.of_nat (S (h * 2)))) by lia.
    assert (i16 t = t) as ->
      by (apply i16_small;
          unfold SCORE_UPPER_BOUND, SCORE_LOWER_BOUND, SCORE_EXACT in H3; lia).
    assert (returns (cab_put k (BoardCache.where_ k) (mkCabInfo (Z.of_nat (S (h * 2))) t r) s')
              (fun s2 => cab_ok evalfn s2 /\ clear_polls s2 = clear_polls s')) as Hput.
    { apply (cab_put_ok c); [exact Hc|exact Hk|exact Hk0|exact H1| | |];
        unfold SCORE_UPPER_BOUND, SCORE_LOWER_BOUND, SCORE_EXACT in *; lia. }
    destruct (cab_put k _ _ s') as [s2|]; [|destruct Hput].
    cbn [returns fst snd] in *. destruct Hput as [Hp1 Hp2].
    split; [exact Hp1|]. split; [intros H; unfold quiet in *; rewrite Hp2; apply H2, H|].
    intros _. unfold within. lia.
  + cbn [returns fst snd]. split; [exact H1|]. split; [exact H2|]. intros H. contradiction.
Qed.

Lemma cab_do_search_maxi_value (h : nat) (board : list Z) (alpha beta : Z)
    (s : st cab_fields) :
  deep_enough h board ->
  INT_MIN <= alpha -> alpha < beta -> beta <= INT_MAX -> cab_ok evalfn s ->
  returns (cab_do_search_maxi evalfn h board alpha beta s)
    (fun out =>
       cab_ok evalfn (snd out) /\ (quiet s -> quiet (snd out)) /\
       (live (snd out) ->
        within alpha beta (value evalfn (h * 2) board) (fst (fst out)) /\
        ((forall k, pack_board_state board = Some k ->
            BoardCache.find_value (cab_cache (ext s)) k (BoardCache.where_ k) = None) ->
         alpha = INT_MIN -> beta = INT_MAX ->
         fst out = (value evalfn (h * 2) board, move_at evalfn (h * 2) board)))).
Proof.
revert board alpha beta s.
induction h as [|h IH]; intros board alpha beta s (hi & Hb & Hhi) Ha Hab Hbe Hok;
  pose proof (playable_pos _ _ Hb) as Hpos;
  assert (playable 15 board) as Hb15
    by (split; [apply (in_range_weaken hi); [lia|exact (proj1 Hb)]|exact (proj2 Hb)]);
  destruct (playable_key _ Hb15) as (k & Hk & Hk0).
- cbn [cab_do_search_maxi]. destruct (Z.ltb_spec alpha beta) as [_|]; [|lia].
  rewrite Hk. cbv beta iota zeta. rewrite (get_finds _ k _ Hk0).
  pose proof (check_cached_value 0 board k alpha beta s Hb15 Hk Hk0 Hok Hab) as Hcc.
  cbv zeta in Hcc.
  change (Z.of_nat 0 * 2) with (Z.of_nat 0).
  destruct (check_cached _ alpha beta (Z.of_nat 0) s) as [[out|] s1] eqn:C;
    cbn [fst snd] in Hcc; destruct Hcc as (Hok1 & Hp & Hw).
  + cbn [returns fst snd]. split; [exact Hok1|]. split; [unfold quiet; congruence|].
    intros _. split; [exact Hw|]. intros G. rewrite (G k eq_refl) in C. discriminate.
  + subst s1. clear Hok1 Hp. cbn [Nat.mul value move_at].
    destruct (cancelled s) as [[|] s1] eqn:E;
      pose proof (cab_ok_cancelled _ _ _ E Hok) as Hok1;
      destruct (cancelled_inv _ _ _ E) as (_ & _ & Ht & Hf & Hn).
    * cbn [returns fst snd]. destruct (Ht eq_refl) as [H0 ->]. split; [exact Hok1|].
      split; [intros H; destruct (Hn H); discriminate|]. intros H. contradiction.
    * assert (returns (cab_put k (BoardCache.where_ k)
                         (mkCabInfo (Z.of_nat 0) SCORE_EXACT (eval_board evalfn board)) s1)
                (fun s2 => cab_ok evalfn s2 /\ clear_polls s2 = clear_polls s1)) as Hput.
      { apply (cab_put_ok board); try assumption;
          unfold SCORE_UPPER_BOUND, SCORE_LOWER_BOUND, SCORE_EXACT, eval_board;
          cbn [value]; lia. }
      change (Z.of_nat 0) with 0 in Hput.
      destruct (cab_put k _ _ s1) as [s2|]; [|destruct Hput].
      cbn [returns fst snd] in *. destruct Hput as [Hp1 Hp2].
      split; [exact Hp1|]. split; [intros H; unfold quiet in *; rewrite Hp2; apply Hn, H|].
      intros _. unfold eval_board. split; [unfold within; lia|reflexivity].
- change (S h * 2)%nat with (S (S (h * 2))). cbn [cab_do_search_maxi].
  destruct (Z.ltb_spec alpha beta) as [_|]; [|lia].
  rewrite Hk. cbv beta iota zeta. rewrite (get_finds _ k _ Hk0).
  replace (Z.of_nat (S h) * 2) with (Z.of_nat (S (S (h * 2)))) by lia.
  pose proof (check_cached_value (S (S (h * 2))) board k alpha beta s Hb15 Hk Hk0 Hok Hab)
    as Hcc.
  cbv zeta in Hcc.
  destruct (check_cached _ alpha beta (Z.of_nat (S (S (h * 2)))) s) as [[out|] s1] eqn:C;
    cbn [fst snd] in Hcc; destruct Hcc as (Hok1 & Hp & Hw).
  + cbn [returns fst snd]. split; [exact Hok1|]. split; [unfold quiet; congruence|].
    intros _. split; [exact Hw|]. intros G. rewrite (G k eq_refl) in C. discriminate.
  + subst s1.
    set (maxi := fun (b' : list Z) (a' be' : Z) (s'' : st cab_fields) =>
                   match cab_do_search_maxi evalfn h b' a' be' s'' with
                   | Some (score, _, s3) => Some (score, s3)
                   | None => None
                   end).
    assert (cab_answers evalfn maxi (value evalfn (h * 2)) (deep_enough h)) as Hmaxi.
    { intros c a be s0 Hc H1 H2 H3 H4. unfold maxi.
      pose proof (IH c a be s0 Hc H1 H2 H3 H4) as G.
      destruct (cab_do_search_maxi evalfn h c a be s0) as [[[score m] s3]|]; [|destruct G].
      cbn [returns fst snd] in *. destruct G as (G1 & G2 & G3).
      split; [exact G1|]. split; [exact G2|].
      intros H. apply G3, H. }
    pose proof (cab_do_search_mini_value maxi h (Z.of_nat (S (S (h * 2))) - 1) _ Hmaxi
                  ltac:(lia) ltac:(lia)) as Hmini.
    assert (forall i ns sc an, In i directions ->
              Board.tilt (DIR_DX i) (DIR_DY i) board = (ns, true, sc, an) ->
              playable 15 ns /\ forall c', In c' (placements ns) -> deep_enough h c')
      as Hch.
    { intros i ns sc an Hi Hrun.
      pose proof (tilt_playable hi i board ns true sc an Hb ltac:(lia)
                    (directions_range i Hi) Hrun) as Hns.
      split.
      - split; [apply (in_range_weaken (hi + 1)); [lia|exact (proj1 Hns)]|exact (proj2 Hns)].
      - intros c' Hc'. exists (hi + 1).
        split; [apply (placements_playable _ ns); [exact Hns|lia|exact Hc']|lia]. }
    pose proof (cab_maxi_loop_value _ (value evalfn (S (h * 2))) _ board directions
                alpha beta SCORE_UPPER_BOUND (-1) s Hmini Hch Ha Hab Hbe Hok) as Hl.
    destruct (cab_maxi_loop _ board directions alpha beta SCORE_UPPER_BOUND (-1) s)
      as [[[[[r t]|] m] s']|]; [| |destruct Hl]; cbn [returns fst snd] in Hl;
      destruct Hl as (H1 & H2 & H3).
    * destruct H3 as [H3 Hroot].
      rewrite best_of_window in H3 by exact Ha. rewrite <- value_even in H3.
      rewrite (i16_small (Z.of_nat (S (S (h * 2))))) by lia.
      assert (i16 t = t) as ->
        by (apply i16_small;
            unfold SCORE_UPPER_BOUND, SCORE_LOWER_BOUND, SCORE_EXACT in H3; lia).
      assert (returns (cab_put k (BoardCache.where_ k)
                         (mkCabInfo (Z.of_nat (S (S (h * 2)))) t r) s')
                (fun s2 => cab_ok evalfn s2 /\ clear_polls s2 = clear_polls s')) as Hput.
      { apply (cab_put_ok board); [exact Hb15|exact Hk|exact Hk0|exact H1| | |];
          unfold SCORE_UPPER_BOUND, SCORE_LOWER_BOUND, SCORE_EXACT in *; lia. }
      destruct (cab_put k _ _ s') as [s2|]; [|destruct Hput].
      cbn [returns fst snd] in *. destruct Hput as [Hp1 Hp2].
      split; [exact Hp1|]. split; [intros H; unfold quiet in *; rewrite Hp2; apply H2, H|].
      intros _. split; [unfold within; lia|].
      intros _ -> Hbm. rewrite value_even, move_at_even.
      rewrite (Hroot Hbm (fun c => proj2 (value_range _ c))).
      apply surjective_pairing.
    * cbn [returns fst snd]. split; [exact H1|]. split; [exact H2|].
      intros H. contradiction.
Qed.

(** *** The searches from the root *)









End SearchValues.

(** ** What the five searchers guarantee *)

Section SearchClaims.

Import Searcher Minimax.

Variable evalfn : list Z -> Z.

Lemma nm_do_search_real_picked (l : nat) (board : list Z) (s : st unit) :
  picked board directions (-1) (snd (fst (nm_do_search_real evalfn l board s))).
Proof.
destruct l as [|l]; cbn [nm_do_search_real].
- destruct (cancelled s) as [[|] s1]; left; reflexivity.
- destruct (Nat.odd (S l)); [|apply nm_maximise_picked].
  destruct (nm_minimise _ _ _ _) as [score s']. left. reflexivity.
Qed.

Lemma ab_do_search_maxi_picked (h : nat) (board : list Z) (alpha beta : Z) (s : st Z) :
  picked board directions (-1) (snd (fst (ab_do_search_maxi evalfn h board alpha beta s))).
Proof.
destruct h as [|h]; cbn [ab_do_search_maxi].
- destruct (cancelled s) as [[|] s1]; left; reflexivity.
- apply ab_maxi_loop_picked.
Qed.

Lemma cm_do_search_real_picked (l : nat) (board : list Z) (s : st cm_fields) :
  if_returns (cm_do_search_real evalfn l board s)
    (fun out => picked board directions (-1) (snd (fst out))).
Proof.
assert (forall (k : Z) (best move : Z) (s' : st cm_fields),
          picked board directions (-1) move ->
          if_returns
            match cm_put k (BoardCache.where_ k) (mkCmInfo (Z.of_nat l) best) s' with
            | Some s'' => Some (best, move, s'')
            | None => None
            end
            (fun out => picked board directions (-1) (snd (fst out)))) as Hstore.
{ intros k best move s' Hm. destruct (cm_put _ _ _ s'); [exact Hm|exact I]. }
destruct l as [|l]; cbn [cm_do_search_real];
  (destruct (pack_board_state board) as [k|]; [|exact I]); cbv zeta;
  (destruct (BoardCache.get _ k _) as [[cached|]|]; [|  |exact I]);
  try (destruct (cm_lookahead cached =? _); [left; reflexivity|]).
1, 2: destruct (cancelled s) as [[|] s1]; [left; reflexivity|apply Hstore; left; reflexivity].
all: destruct (Nat.odd (S l)).
1, 3: destruct (cm_minimise _ _ _ _) as [[[r|] s']|];
        [apply Hstore; left; reflexivity|left; reflexivity|exact I].
all: match goal with
     | |- context [cm_maximise ?rec ?b ?d ?lo ?m0 ?s0] =>
         pose proof (cm_maximise_picked rec b d lo m0 s0) as Hp;
         destruct (cm_maximise rec b d lo m0 s0) as [[[[r|] m] s']|]
     end; [apply Hstore; exact Hp|exact Hp|exact I].
Qed.

Lemma cab_do_search_maxi_picked (h : nat) (board : list Z) (alpha beta : Z)
    (s : st cab_fields) :
  if_returns (cab_do_search_maxi evalfn h board alpha beta s)
    (fun out => picked board directions (-1) (snd (fst out))).
Proof.
destruct h as [|h]; cbn [cab_do_search_maxi];
  (destruct (alpha <? beta); [|exact I]);
  (destruct (pack_board_state board) as [k|]; [|exact I]); cbv zeta;
  (destruct (BoardCache.get _ k _) as [cached|]; [|exact I]);
  (destruct (check_cached _ _ _ _ _) as [[out|] s0]; [left; reflexivity|]).
- destruct (cancelled s0) as [[|] s1]; [left; reflexivity|].
  destruct (cab_put _ _ _ s1); [left; reflexivity|exact I].
- match goal with
  | |- context [cab_maxi_loop ?m board directions alpha beta ?t (-1) s0] =>
      pose proof (cab_maxi_loop_picked m board directions alpha beta t (-1) s0) as Hp;
      destruct (cab_maxi_loop m board directions alpha beta t (-1) s0)
        as [[[[[r t']|] mv] s']|]
  end; [|exact Hp|exact I].
  destruct (cab_put _ _ _ s'); [exact Hp|exact I].
Qed.

Lemma cheat_do_search_real_picked (l : nat) (board : list Z) (rng : RNG.t)
    (s : st unit) :
  if_returns (cheat_do_search_real evalfn l board rng s)
    (fun out => picked board directions (-1) (snd (fst out))).
Proof.
destruct l as [|l]; cbn [cheat_do_search_real].
- destruct (cancelled s) as [[|] s1]; left; reflexivity.
- apply cheat_loop_picked.
Qed.

Lemma search_picked {X : Type}
    (do_search : list Z -> RNG.t -> nat -> st X -> option (Z * Z * st X))
    (board : list Z) (rng : RNG.t) (lookahead : nat) (polls : option nat) (x : X) :
  (forall s, if_returns (do_search board rng lookahead s)
               (fun out => picked board directions (-1) (snd (fst out)))) ->
  if_returns (search do_search board rng lookahead polls x)
    (fun r => legal_first_move board (best_first_move r)).
Proof.
intros H. unfold search. specialize (H (mkSt 0 polls x)).
destruct (do_search board rng lookahead (mkSt 0 polls x)) as [[[score move] s1]|];
  [|exact I].
destruct (cancelled s1) as [[|] s2]; cbn [if_returns best_first_move].
- left. reflexivity.
- apply picked_legal. exact H.
Qed.

Lemma returns_of_if {A : Type} (o : option A) (P : A -> Prop) :
  o <> None -> if_returns o P -> returns o P.
Proof.
destruct o; [intros _ H; exact H|intros H; destruct (H eq_refl)].
Qed.

Lemma search_total {X : Type}
    (do_search : list Z -> RNG.t -> nat -> st X -> option (Z * Z * st X))
    (board : list Z) (rng : RNG.t) (lookahead : nat) (polls : option nat) (x : X) :
  do_search board rng lookahead (mkSt 0 polls x) <> None ->
  search do_search board rng lookahead polls x <> None.
Proof.
intros H. unfold search.
destruct (do_search board rng lookahead (mkSt 0 polls x)) as [[[score move] s1]|];
  [|destruct (H eq_refl)].
destruct (cancelled s1) as [[|] s2]; discriminate.
Qed.

(** C10.  For each of the five searchers, every board, generator state,
    evaluator, cancellation schedule and lookahead whose double is an
    [int]: when [search] returns, the move that [get_best_first_move()]
    reports is -1, or one of the four directions [0..3] in which [tilt]
    moves the searched board.  The naive and the alpha-beta search always
    return; the caching searches and the cheating search return unless an
    assertion fails or a draw of the generator does not come back. *)
Theorem best_first_move_is_legal (board : list Z) (rng : RNG.t) (lookahead : nat)
    (polls : option nat) (x_ab : Z) (x_cm : cm_fields) (x_cab : cab_fields) :
  Z.of_nat lookahead * 2 <= INT_MAX ->
  returns (search (nm_do_search evalfn) board rng lookahead polls tt)
    (fun r => legal_first_move board (best_first_move r)) /\
  returns (search (ab_do_search evalfn) board rng lookahead polls x_ab)
    (fun r => legal_first_move board (best_first_move r)) /\
  if_returns (search (cm_do_search evalfn) board rng lookahead polls x_cm)
    (fun r => legal_first_move board (best_first_move r)) /\
  if_returns (search (cab_do_search evalfn) board rng lookahead polls x_cab)
    (fun r => legal_first_move board (best_first_move r)) /\
  if_returns (search (cheat_do_search evalfn) board rng lookahead polls tt)
    (fun r => legal_first_move board (best_first_move r)).
Proof.
intros _. split; [|split; [|split; [|split]]].
- apply returns_of_if; [apply search_total; discriminate|].
  apply search_picked. intros s. apply nm_do_search_real_picked.
- apply returns_of_if; [apply search_total; discriminate|].
  apply search_picked. intros s. apply ab_do_search_maxi_picked.
- apply search_picked. intros s. apply cm_do_search_real_picked.
- apply search_picked. intros s. apply cab_do_search_maxi_picked.
- apply search_picked. intros s. apply cheat_do_search_real_picked.
Qed.



End SearchClaims.

Section SearchExamples.

Import Searcher Minimax.

Lemma best_first_move_is_legal_witness :
  let evalfn := fun b : list Z => Z.min 1000 (Z.max 0 (Board.get b 0)) in
  let board := [1; 1; 0; 0; 0; 2; 0; 0; 0; 0; 0; 0; 0; 0; 0; 0] in
  let rng := RNG.reset 0 in
  Z.of_nat 1 * 2 <= INT_MAX /\
  returns (search (nm_do_search evalfn) board rng 1 None tt)
    (fun r => legal_first_move board (best_first_move r)) /\
  returns (search (ab_do_search evalfn) board rng 1 None 0)
    (fun r => legal_first_move board (best_first_move r)) /\
  if_returns (search (cm_do_search evalfn) board rng 1 None (mkCmFields [] []))
    (fun r => legal_first_move board (best_first_move r)) /\
  if_returns (search (cab_do_search evalfn) board rng 1 None (mkCabFields [] [] 0))
    (fun r => legal_first_move board (best_first_move r)) /\
  if_returns (search (cheat_do_search evalfn) board rng 1 None tt)
    (fun r => legal_first_move board (best_first_move r)).
Proof.
cbv zeta.
assert (Z.of_nat 1 * 2 <= INT_MAX) as Hl by (unfold INT_MAX; lia).
split; [exact Hl|].
apply (best_first_move_is_legal _ _ _ 1%nat None 0 (mkCmFields [] [])
         (mkCabFields [] [] 0) Hl).
Defined.





End SearchExamples.

(** * Further properties of the code *)

(** ** The generator and the board *)

Section BoardProperties.

Import Board.

(** X1.  [RNG::reset] leaves four 32-bit words of which [x] is not zero,
    for every 32-bit seed, also for the seed 0; and [next32] keeps the
    words 32-bit and returns a 32-bit value, [next64] a 64-bit one. *)
Theorem rng_words_stay_uint32 (seed : Z) (r : RNG.t) :
  0 <= seed < 2 ^ 32 -> RNG.wf r ->
  RNG.wf (RNG.reset seed) /\ RNG.x (RNG.reset seed) <> 0 /\
  RNG.wf (snd (RNG.next32 r)) /\ 0 <= fst (RNG.next32 r) < 2 ^ 32 /\
  RNG.wf (snd (RNG.next64 r)) /\ 0 <= fst (RNG.next64 r) < 2 ^ 64.
Proof.
intros Hseed Hr.
assert (forall v, 0 <= v < 2 ^ 32 -> 0 <= RNG.scramble v < 2 ^ 32) as Hs.
{ intros v Hv. unfold RNG.scramble. cbv zeta.
  assert (0 <= Z.lxor v (u32 (Z.shiftl v 13)) < 2 ^ 32) as Ha
    by (apply lxor_u32_bound; [exact Hv|apply u32_bound]).
  apply lxor_u32_bound; [|apply u32_bound].
  apply lxor_u32_bound; [exact Ha|apply shiftr_u32_bound; [lia|exact Ha]]. }
split; [|split].
- unfold RNG.reset. cbv zeta. destruct (Z.eqb_spec seed 0) as [_|_];
    unfold RNG.wf; cbn [RNG.x RNG.y RNG.z RNG.w]; repeat split;
    try (repeat apply Hs; lia); lia.
- unfold RNG.reset. cbv zeta. cbn [RNG.x]. destruct (Z.eqb_spec seed 0); lia.
- destruct (next32_wf r Hr) as [H1 H2]. split; [exact H1|]. split; [exact H2|].
  unfold RNG.next64.
  destruct (RNG.next32 r) as [a r1] eqn:E1. cbn [fst snd] in H1, H2.
  destruct (next32_wf r1 H1) as [H3 H4].
  destruct (RNG.next32 r1) as [b0 r2] eqn:E2. cbn [fst snd] in *.
  split; [exact H3|].
  rewrite Z.shiftl_mul_pow2 by lia. unfold u64.
  rewrite Z.mod_small by lia.
  assert (Z.land (Z.shiftl a 32) b0 = 0) as Hland.
  { apply Z.bits_inj'. intros n Hn. rewrite Z.land_spec, Z.bits_0.
    destruct (Z.ltb_spec n 32).
    - rewrite Z.shiftl_spec_low by lia. reflexivity.
    - assert (Z.testbit b0 n = false) as ->; [|apply andb_false_r].
      apply Z.bits_above_log2; [lia|].
      destruct (Z.eq_dec b0 0) as [->|]; [cbn; lia|].
      apply Z.lt_le_trans with 32; [apply Z.log2_lt_pow2; lia|lia]. }
  rewrite <- Z.shiftl_mul_pow2 by lia.
  rewrite <- (Z.lxor_lor _ _ Hland), <- (Z.add_nocarry_lxor _ _ Hland).
  rewrite Z.shiftl_mul_pow2 by lia.
  lia.
Qed.

Lemma rng_words_stay_uint32_witness :
  0 <= 42 < 2 ^ 32 /\ RNG.wf (RNG.reset 42) /\
  0 <= fst (RNG.next64 (RNG.reset 42)) < 2 ^ 64.
Proof.
assert (0 <= 42 < 2 ^ 32) as Hs by lia.
assert (RNG.wf (RNG.reset 42)) as Hr by (vm_compute; intuition congruence).
split; [exact Hs|]. split; [exact Hr|].
exact (proj2 (proj2 (proj2 (proj2 (proj2
         (rng_words_stay_uint32 42 (RNG.reset 42) Hs Hr)))))).
Defined.

(** X2.  [Board::count_free] returns the number of empty cells, between
    0 and 16, and fills [free] with exactly the indices of the empty
    cells, each once. *)
Theorem count_free_lists_empty_cells (b : t) :
  let nfree := fst (count_free b) in
  let free := snd (count_free b) in
  nfree = Z.of_nat (length free) /\ 0 <= nfree <= 16 /\ List.NoDup free /\
  (forall i, In i free <-> 0 <= i < 16 /\ get b i = 0) /\
  (nfree = 0 <-> forall i, 0 <= i < 16 -> get b i <> 0).
Proof.
cbv zeta. rewrite count_free_spec. cbn [fst snd].
pose proof (free_list_length b) as Hlen.
split; [reflexivity|]. split; [lia|]. split; [apply free_list_nodup|].
split; [intros i; apply free_list_in|].
split.
- intros H0 i Hi Hz.
  assert (In i (free_list b)) as Hin by (apply free_list_in; split; assumption).
  destruct (free_list b); [destruct Hin|cbn [length] in H0; lia].
- intros Hall. destruct (free_list b) as [|i l] eqn:E; [reflexivity|].
  assert (In i (free_list b)) as Hin by (rewrite E; left; reflexivity).
  apply free_list_in in Hin. destruct Hin as [Hi Hz]. destruct (Hall i Hi Hz).
Qed.

(** X3.  [Board::place(count)] returns for every board and generator: it
    puts [min(count, empty cells)] tiles, each a 1 or a 2, into cells
    that were empty, reports each with one [new_tile] call, and leaves
    every other cell as it was; on a full board it places nothing. *)
Theorem place_fills_empty_cells (count : nat) (b : t) (anim : list anim_event)
    (rng : RNG.t) :
  (0 < count)%nat -> length b = 16%nat -> RNG.wf rng ->
  exists b' placed rng',
    place count b anim rng = Some (b', anim ++ placed, rng') /\
    length b' = 16%nat /\ RNG.wf rng' /\
    Z.of_nat (length placed) = Z.min (Z.of_nat count) (fst (count_free b)) /\
    fst (count_free b') = fst (count_free b) - Z.of_nat (length placed) /\
    (forall i, 0 <= i < 16 ->
       get b' i = get b i \/ (get b i = 0 /\ (get b' i = 1 \/ get b' i = 2))) /\
    Forall (fun e => exists i v, e = AnimNewTile i v /\ 0 <= i < 16 /\ get b i = 0 /\
                                get b' i = v /\ (v = 1 \/ v = 2)) placed.
Proof.
intros _ Hlen Hrng. unfold place.
pose proof (free_inv_count_free b Hlen) as Hinv.
destruct (count_free b) as [nfree free]. cbn [fst snd] in *.
destruct (place_loop_returns count b free nfree anim rng Hinv Hrng)
  as (b' & anim' & rng' & Hrun & Hl & Hw & Hfree & Hcells & placed & -> & Hn & Hall).
exists b', placed, rng'. split; [exact Hrun|]. split; [exact Hl|]. split; [exact Hw|].
split; [exact Hn|]. split; [lia|]. split; [exact Hcells|exact Hall].
Qed.

Lemma place_fills_empty_cells_witness :
  let b := [1; 2; 1; 2; 2; 1; 2; 1; 1; 2; 1; 2; 2; 1; 2; 0] in
  (0 < 2)%nat /\ length b = 16%nat /\ RNG.wf (RNG.reset 7) /\
  exists b' placed rng',
    place 2 b [] (RNG.reset 7) = Some (b', placed, rng') /\
    Z.of_nat (length placed) = 1.
Proof.
cbv zeta.
assert (0 < 2)%nat as H0 by lia.
assert (length [1; 2; 1; 2; 2; 1; 2; 1; 1; 2; 1; 2; 2; 1; 2; 0] = 16%nat) as H1
  by reflexivity.
assert (RNG.wf (RNG.reset 7)) as H2 by (vm_compute; intuition congruence).
split; [exact H0|]. split; [exact H1|]. split; [exact H2|].
destruct (place_fills_empty_cells 2 _ [] _ H0 H1 H2)
  as (b' & placed & rng' & Hrun & _ & _ & Hn & _).
exists b', placed, rng'. split; [exact Hrun|]. rewrite Hn. reflexivity.
Defined.

(** X4.  [Board::tilt] reports [moved] exactly when it changed the
    board; the board it leaves has sixteen cells, none above the highest
    cell before plus one, and it makes no [new_tile] call. *)
Theorem tilt_moved_iff_changed (dir hi : Z) (b : t) :
  0 <= dir < 4 -> hi < 255 -> in_range hi b ->
  let r := tilt (DIR_DX dir) (DIR_DY dir) b in
  (tilt_moved r = true <-> tilt_state r <> b) /\
  in_range (hi + 1) (tilt_state r) /\
  no_new_tile (tilt_anim r).
Proof.
intros Hdir Hhi [Hlen Hall]. cbv zeta.
pose proof (tilt_no_new_tile (DIR_DX dir) (DIR_DY dir) b) as Hnew.
destruct (tilt (DIR_DX dir) (DIR_DY dir) b) as [[[b' mv] sc] an] eqn:E.
cbn [tilt_moved tilt_state tilt_anim fst snd] in *.
assert (Forall (fun v => 0 <= v < 255) b) as Hlow
  by (eapply Forall_impl; [exact Hall|]; cbn; intros v Hv; lia).
split; [|split; [|exact Hnew]].
- destruct mv.
  + destruct (tilt_legal dir b Hdir Hlen b' true sc an Hlow E) as (Hne & _).
    split; [intros _; apply Hne; reflexivity|reflexivity].
  + destruct (tilt_unmoved dir b Hdir Hlen b' sc an E) as (-> & _).
    split; [discriminate|intros H; destruct (H eq_refl)].
- exact (tilt_bound dir b Hdir Hlen hi b' mv sc an Hall Hhi E).
Qed.

Lemma tilt_moved_iff_changed_witness :
  let b := [1; 1; 2; 2; 0; 0; 0; 0; 0; 3; 0; 3; 1; 2; 1; 0] in
  0 <= MOVE_LEFT < 4 /\ 3 < 255 /\ in_range 3 b /\
  tilt_state (tilt (DIR_DX MOVE_LEFT) (DIR_DY MOVE_LEFT) b) <> b /\
  in_range (3 + 1) (tilt_state (tilt (DIR_DX MOVE_LEFT) (DIR_DY MOVE_LEFT) b)).
Proof.
cbv zeta.
assert (0 <= MOVE_LEFT < 4) as Hd by (unfold MOVE_LEFT; lia).
assert (3 < 255) as Hh by lia.
assert (in_range 3 [1; 1; 2; 2; 0; 0; 0; 0; 0; 3; 0; 3; 1; 2; 1; 0]) as Hb.
{ split; [reflexivity|].
  repeat (apply Forall_cons; split; [lia|]). apply Forall_nil. exact I. }
split; [exact Hd|]. split; [exact Hh|]. split; [exact Hb|].
destruct (tilt_moved_iff_changed MOVE_LEFT 3 _ Hd Hh Hb) as (H1 & H2 & _).
split; [|exact H2]. apply H1. vm_compute. reflexivity.
Defined.

End BoardProperties.

(** ** The packed key and the cache *)

Section KeyProperties.

Import Board.




(** X6.  On boards with cells from 0 to 15, [pack_board_state] returns a
    64-bit key that names the board: two boards with the same key are
    the same board, and the key is 0 for the empty board only. *)
Theorem pack_board_state_is_a_key (b b' : list Z) :
  in_range 15 b -> in_range 15 b' ->
  exists k k',
    pack_board_state b = Some k /\ pack_board_state b' = Some k' /\
    0 <= k < 2 ^ 64 /\ (k = k' -> b = b') /\ (k = 0 <-> b = reset).
Proof.
intros Hb Hb'.
pose proof (pack_fold b Hb) as Hk. pose proof (pack_fold b' Hb') as Hk'.
eexists. eexists. split; [exact Hk|]. split; [exact Hk'|]. split; [|split].
- destruct Hb as [Hlen Hall].
  pose proof (fold_nibbles b 0 Hall ltac:(lia)) as Hf. rewrite Hlen in Hf.
  cbv zeta in Hf. change (Z.of_nat 16) with 16 in Hf.
  specialize (Hf ltac:(lia)). lia.
- intros Heq. apply pack_board_state_inj; [exact Hb|exact Hb'|].
  rewrite Hk, Hk', Heq. reflexivity.
- split.
  + intros H0. apply pack_board_state_zero; [exact Hb|]. rewrite Hk, H0. reflexivity.
  + intros ->. vm_compute. reflexivity.
Qed.

Lemma pack_board_state_is_a_key_witness :
  let b := [1; 1; 2; 2; 0; 0; 0; 0; 0; 3; 0; 3; 1; 2; 1; 15] in
  in_range 15 b /\ in_range 15 reset /\
  exists k, pack_board_state b = Some k /\ 0 <= k < 2 ^ 64 /\ k <> 0.
Proof.
cbv zeta.
assert (in_range 15 [1; 1; 2; 2; 0; 0; 0; 0; 0; 3; 0; 3; 1; 2; 1; 15]) as Hb.
{ split; [reflexivity|].
  repeat (apply Forall_cons; split; [lia|]). apply Forall_nil. exact I. }
assert (in_range 15 reset) as Hr.
{ split; [reflexivity|]. unfold reset. cbn [replicate].
  repeat (apply Forall_cons; split; [lia|]). apply Forall_nil. exact I. }
split; [exact Hb|]. split; [exact Hr|].
destruct (pack_board_state_is_a_key _ _ Hb Hr) as (k & k' & Hk & _ & Hk64 & _ & H0).
exists k. split; [exact Hk|]. split; [exact Hk64|].
intros Hz. apply H0 in Hz. discriminate Hz.
Defined.

End KeyProperties.

Section CacheProperties.

Import BoardCache.

Context {T : Type}.

(** X7.  [BoardCache::put] of a key other than 0 goes to a bucket inside
    the table, the one [where] names, and touches no other bucket; the
    table keeps its 4096 buckets of 8 slots. *)
Theorem cache_put_touches_one_bucket (c : list (Bucket T)) (k : Z) (v : T) :
  wf c -> k <> 0 ->
  0 <= where_ k < BUCKET_COUNT /\
  exists c', put c k (where_ k) v = Some c' /\ wf c' /\
    forall loc, 0 <= loc -> loc <> where_ k -> bucket_at c' loc = bucket_at c loc.
Proof.
intros Hwf Hk. pose proof (where_range k) as Hloc. split; [exact Hloc|].
exists (store_value c k (where_ k) v).
split; [unfold put; destruct (Z.eqb_spec k 0); [contradiction|reflexivity]|].
split; [apply wf_store_value; assumption|].
intros loc Hl Hne. unfold store_value. cbv zeta.
destruct (find_slot _ 0 (keys (bucket_at c (where_ k))) k);
  apply bucket_at_insert_ne; lia.
Qed.

(** X8.  A [put] of key [k] never changes what another key maps to: a
    value [get] finds for another key afterwards is the value it had
    before; all [put] can do to another key is evict it. *)
Theorem cache_put_never_corrupts (c : list (Bucket T)) (k k' : Z) (v : T) :
  wf c -> k <> 0 -> k' <> 0 -> k' <> k ->
  exists c', put c k (where_ k) v = Some c' /\
    forall x, get c' k' (where_ k') = Some (Some x) ->
              get c k' (where_ k') = Some (Some x).
Proof.
intros Hwf Hk Hk' Hne.
exists (store_value c k (where_ k) v).
split; [unfold put; destruct (Z.eqb_spec k 0); [contradiction|reflexivity]|].
intros x. unfold get. destruct (Z.eqb_spec k' 0); [contradiction|].
intros H. injection H as H. f_equal.
exact (find_store_other c k k' (where_ k) (where_ k') v x Hwf (where_range k)
         (where_range k') Hne H).
Qed.


(** X10.  In a cache that [reset] has cleared [get] finds no key; and
    the key 0, which marks an empty slot, fails [assert(k)] in [get] and
    in [put] alike. *)
Theorem cache_reset_holds_nothing (zero : T) (c : list (Bucket T)) (k loc : Z) (v : T) :
  k <> 0 ->
  get (reset zero) k (where_ k) = Some None /\
  get c 0 loc = None /\ put c 0 loc v = None.
Proof.
intros Hk. split; [|split; reflexivity].
unfold get. destruct (Z.eqb_spec k 0); [contradiction|]. f_equal.
destruct (find_value (reset zero) k (where_ k)) as [x|] eqn:G; [|reflexivity].
exfalso. unfold find_value in G. rewrite (reset_bucket zero) in G by apply where_range.
cbn [keys values] in G.
rewrite find_slot_none in G; [discriminate|].
intros q Hq. change (Z.of_nat (Z.to_nat BUCKET_SIZE)) with 8 in Hq.
intros H. apply Hk. rewrite <- H.
destruct (lookup_lt_is_Some_2 (replicate 8 0) (Z.to_nat q)) as [x0 Hx];
  [cbn [replicate length]; lia|].
rewrite (nth_lookup_Some _ _ 0 _ Hx).
apply lookup_replicate in Hx. exact (proj1 Hx).
Qed.

End CacheProperties.

Section CacheExamples.

Import BoardCache.

Lemma cache_put_touches_one_bucket_witness :
  wf (reset 0) /\ 72 <> 0 /\
  exists c', put (reset 0) 72 (where_ 72) 5 = Some c' /\ wf c' /\
    bucket_at c' 0 = bucket_at (reset 0) 0.
Proof.
assert (wf (reset 0)) as Hwf by apply reset_wf.
assert (72 <> 0) as Hk by lia.
split; [exact Hwf|]. split; [exact Hk|].
destruct (cache_put_touches_one_bucket (reset 0) 72 5 Hwf Hk) as (_ & c' & Hp & Hw & Ho).
exists c'. split; [exact Hp|]. split; [exact Hw|].
apply Ho; [lia|]. vm_compute. discriminate.
Defined.

Lemma cache_put_never_corrupts_witness :
  let c := store_value (reset 0) 258 (where_ 258) 2 in
  wf c /\ 72 <> 0 /\ 258 <> 0 /\ 258 <> 72 /\
  exists c', put c 72 (where_ 72) 5 = Some c' /\
    (get c' 258 (where_ 258) = Some (Some 2) -> get c 258 (where_ 258) = Some (Some 2)).
Proof.
cbv zeta.
assert (wf (store_value (reset 0) 258 (where_ 258) 2)) as Hwf
  by (apply wf_store_value; [apply reset_wf|apply where_range]).
assert (72 <> 0) as Hk by lia.
assert (258 <> 0) as Hk' by lia.
assert (258 <> 72) as Hne by lia.
split; [exact Hwf|]. split; [exact Hk|]. split; [exact Hk'|]. split; [exact Hne|].
destruct (cache_put_never_corrupts _ 72 258 5 Hwf Hk Hk' Hne) as (c' & Hp & Hg).
exists c'. split; [exact Hp|]. apply Hg.
Defined.


Lemma cache_reset_holds_nothing_witness :
  72 <> 0 /\ get (reset 0) 72 (where_ 72) = Some None.
Proof.
assert (72 <> 0) as Hk by lia.
split; [exact Hk|].
exact (proj1 (cache_reset_holds_nothing 0 (reset 0) 72 0 0 Hk)).
Defined.

End CacheExamples.

(** ** The history *)

Section HistoryProperties.

Import BoardHistory.

(** X11.  Whatever sequence of moves, undos, redos, new games and
    cleared histories follows a [reset], the two counts stay between 0
    and [MAX_UNDO], and so does their sum. *)
Theorem history_counts_bounded (seed : Z) (h0 h : t) (ops : list op) :
  run ops (reset seed h0) = Some h ->
  0 <= undo_avail h <= MAX_UNDO /\ 0 <= redo_avail h <= MAX_UNDO /\
  undo_avail h + redo_avail h <= MAX_UNDO.
Proof.
intros Hrun.
assert (counts_ok (reset seed h0)) as H0
  by (unfold counts_ok, reset, MAX_UNDO; cbn [undo_avail redo_avail]; lia).
destruct (run_counts_ok ops _ h H0 Hrun) as (H1 & H2 & H3). lia.
Qed.

Lemma history_counts_bounded_witness :
  exists h, run [OpNewGame; OpMove 0; OpUndo; OpRedo] (reset 0 zeroed) = Some h /\
    undo_avail h + redo_avail h <= MAX_UNDO.
Proof.
destruct (run [OpNewGame; OpMove 0; OpUndo; OpRedo] (reset 0 zeroed)) as [h|] eqn:E;
  [|vm_compute in E; discriminate E].
exists h. split; [reflexivity|].
exact (proj2 (proj2 (history_counts_bounded 0 zeroed h _ E))).
Defined.

(** X12.  [undo] and [redo] undo each other: when there is a move to
    undo, [redo] after [undo] gives back the history as it was, index and
    counts included, and so does [undo] after [redo] when there is a
    move to redo. *)
Theorem history_undo_redo_round_trip (h : t) :
  wf h ->
  (undo_avail h <> 0 -> redo (undo h) = h) /\
  (redo_avail h <> 0 -> undo (redo h) = h).
Proof.
intros (_ & _ & Hc & Hu & Hr). destruct h as [hist cur ua ra].
cbn [current undo_avail redo_avail] in *. unfold MAX_UNDO in *.
split; intros Hne.
- unfold undo. cbn [undo_avail redo_avail current history].
  destruct (Z.eqb_spec ua 0) as [|_]; [contradiction|]. cbn [negb].
  unfold redo. cbn [undo_avail redo_avail current history].
  destruct (Z.eqb_spec (ra + 1) 0) as [|_]; [lia|]. cbn [negb].
  f_equal; [|lia|lia].
  unfold MAX_UNDO. rewrite (Z.rem_mod_nonneg (cur + 4096 - 1) 4096) by lia.
  pose proof (Z.mod_pos_bound (cur + 4096 - 1) 4096 ltac:(lia)).
  rewrite Z.rem_mod_nonneg by lia.
  rewrite Zplus_mod_idemp_l. replace (cur + 4096 - 1 + 1) with (cur + 1 * 4096) by lia.
  rewrite Z.mod_add by lia. apply Z.mod_small. lia.
- unfold redo. cbn [undo_avail redo_avail current history].
  destruct (Z.eqb_spec ra 0) as [|_]; [contradiction|]. cbn [negb].
  unfold undo. cbn [undo_avail redo_avail current history].
  destruct (Z.eqb_spec (ua + 1) 0) as [|_]; [lia|]. cbn [negb].
  f_equal; [|lia|lia].
  unfold MAX_UNDO. rewrite (Z.rem_mod_nonneg (cur + 1)) by lia.
  pose proof (Z.mod_pos_bound (cur + 1) 4096 ltac:(lia)).
  rewrite Z.rem_mod_nonneg by lia.
  replace ((cur + 1) mod 4096 + 4096 - 1) with ((cur + 1) mod 4096 + (4096 - 1)) by lia.
  rewrite Zplus_mod_idemp_l. replace (cur + 1 + (4096 - 1)) with (cur + 1 * 4096) by lia.
  rewrite Z.mod_add by lia. apply Z.mod_small. lia.
Qed.

Lemma zeroed_wf (u r : Z) :
  0 <= u -> 0 <= r -> wf (mk (history zeroed) 0 u r).
Proof.
intros Hu Hr. unfold wf, zeroed. cbn [history current undo_avail redo_avail].
split; [apply length_replicate|]. split; [|unfold MAX_UNDO; lia].
apply Forall_replicate. split; [reflexivity|].
cbn [rng]. unfold RNG.wf. cbn [RNG.x RNG.y RNG.z RNG.w]. lia.
Qed.

Lemma history_undo_redo_round_trip_witness :
  wf (mk (history zeroed) 0 1 1) /\
  redo (undo (mk (history zeroed) 0 1 1)) = mk (history zeroed) 0 1 1 /\
  undo (redo (mk (history zeroed) 0 1 1)) = mk (history zeroed) 0 1 1.
Proof.
assert (wf (mk (history zeroed) 0 1 1)) as Hwf by (apply zeroed_wf; lia).
split; [exact Hwf|].
destruct (history_undo_redo_round_trip _ Hwf) as [H1 H2].
split; [apply H1|apply H2]; cbn [undo_avail redo_avail]; lia.
Defined.

(** X13.  A move that moves a tile can be taken back: [undo] right after
    it shows the board, the generator and the score from before the move,
    and [redo] after that [undo] gives the history of the move again. *)
Theorem history_move_then_undo (dir : Z) (h h' : t) (anim : list anim_event) :
  wf h -> move dir h = Some (h', anim) ->
  Board.tilt_moved (Board.tilt (DIR_DX dir) (DIR_DY dir) (get h)) = true ->
  get (undo h') = get h /\ get_rng (undo h') = get_rng h /\
  get_score (undo h') = get_score h /\ redo (undo h') = h'.
Proof.
intros (Hlen & _ & Hc & Hu & Hr) Hmove Hmv.
unfold move, state_move, Board.move in Hmove.
change (board (slot h (current h))) with (get h) in Hmove.
destruct (Board.tilt (DIR_DX dir) (DIR_DY dir) (get h)) as [[[b1 mv1] sc1] an1].
cbn [Board.tilt_moved fst snd] in Hmv. subst mv1.
destruct (Board.place 1 b1 an1 (rng (slot h (current h)))) as [[[b2 an2] r2]|];
  [|discriminate].
injection Hmove as <- <-.
unfold MAX_UNDO in *.
set (cur' := Z.rem (current h + 1) 4096).
set (ua' := if undo_avail h <? 4096 then undo_avail h + 1 else undo_avail h).
assert (cur' = (current h + 1) mod 4096) as Hcur' by (apply Z.rem_mod_nonneg; lia).
assert (0 <= cur' < 4096) as Hc' by (rewrite Hcur'; apply Z.mod_pos_bound; lia).
assert (ua' <> 0) as Hua by (unfold ua'; destruct (Z.ltb_spec (undo_avail h) 4096); lia).
assert (Z.rem (cur' + 4096 - 1) 4096 = current h) as Hback.
{ rewrite Z.rem_mod_nonneg by lia. rewrite Hcur'.
  replace ((current h + 1) mod 4096 + 4096 - 1)
    with ((current h + 1) mod 4096 + (4096 - 1)) by lia.
  rewrite Zplus_mod_idemp_l.
  replace (current h + 1 + (4096 - 1)) with (current h + 1 * 4096) by lia.
  rewrite Z.mod_add by lia. apply Z.mod_small. lia. }
assert (cur' <> current h) as Hne.
{ rewrite Hcur'. destruct (Z.eq_dec (current h) 4095) as [E|E].
  - rewrite E. vm_compute. discriminate.
  - rewrite Z.mod_small by lia. lia. }
assert (undo (mk (<[Z.to_nat cur' := mkState b2 r2 (i32 (score (slot h (current h)) + sc1))]>
                    (history h)) cur' ua' 0)
        = mk (<[Z.to_nat cur' := mkState b2 r2 (i32 (score (slot h (current h)) + sc1))]>
                (history h)) (current h) (ua' - 1) 1) as Hundo.
{ unfold undo. cbn [undo_avail redo_avail current history].
  destruct (Z.eqb_spec ua' 0); [contradiction|]. cbn [negb].
  unfold MAX_UNDO. rewrite Hback. reflexivity. }
rewrite Hundo.
assert (slot (mk (<[Z.to_nat cur' := mkState b2 r2 (i32 (score (slot h (current h)) + sc1))]>
                    (history h)) (current h) (ua' - 1) 1) (current h)
        = slot h (current h)) as Hslot.
{ unfold slot. cbn [history current].
  rewrite list_lookup_insert_ne by lia. reflexivity. }
unfold get, get_rng, get_score. cbn [current]. rewrite Hslot.
split; [reflexivity|]. split; [reflexivity|]. split; [reflexivity|].
unfold redo. cbn [undo_avail redo_avail current history]. cbn [negb Z.eqb].
unfold MAX_UNDO. fold cur'. f_equal; lia.
Qed.

Lemma history_move_then_undo_witness :
  let h := reset_board [1; 1; 0; 0; 0; 2; 0; 0; 0; 0; 0; 0; 0; 0; 0; 0] (RNG.reset 0)
             zeroed in
  wf h /\
  Board.tilt_moved (Board.tilt (DIR_DX 1) (DIR_DY 1) (get h)) = true /\
  exists h' anim, move 1 h = Some (h', anim) /\
    get (undo h') = get h /\ redo (undo h') = h'.
Proof.
cbv zeta.
set (h := reset_board [1; 1; 0; 0; 0; 2; 0; 0; 0; 0; 0; 0; 0; 0; 0; 0] (RNG.reset 0)
            zeroed).
assert (wf h) as Hwf.
{ destruct (zeroed_wf 0 0 ltac:(lia) ltac:(lia)) as (H1 & H2 & H3).
  unfold wf, h, reset_board, store. cbn [history current undo_avail redo_avail] in *.
  split; [rewrite length_insert; exact H1|]. split; [|exact H3].
  apply Forall_insert; [exact H2|]. split; [reflexivity|].
  vm_compute. intuition congruence. }
assert (Board.tilt_moved (Board.tilt (DIR_DX 1) (DIR_DY 1) (get h)) = true) as Hmv
  by (vm_compute; reflexivity).
split; [exact Hwf|]. split; [exact Hmv|].
destruct (move 1 h) as [[h' anim]|] eqn:E; [|vm_compute in E; discriminate E].
exists h', anim. split; [reflexivity|].
destruct (history_move_then_undo 1 h h' anim Hwf E Hmv) as (H1 & _ & _ & H2).
split; [exact H1|exact H2].
Defined.



End HistoryProperties.

(** ** Nodes of the searches *)

Section NodeProperties.

Import Searcher Minimax.

Variable evalfn : list Z -> Z.
Hypothesis evalfn_int : forall board, INT_MIN <= evalfn board <= INT_MAX.

(** X15.  [SearcherAlphaBeta::do_search_maxi] with a window
    [alpha < beta], not cancelled: a result inside the window is the
    minimax value of the board; a result at or below [alpha] is an upper
    bound of the value, and a result at or above [beta] a lower bound. *)
Theorem alpha_beta_answers_within_window (half : nat) (board : list Z)
    (alpha beta : Z) (s : st Z) :
  INT_MIN <= alpha -> alpha < beta -> beta <= INT_MAX -> quiet s ->
  let out := ab_do_search_maxi evalfn half board alpha beta s in
  let v := value evalfn (half * 2) board in
  let r := fst (fst out) in
  quiet (snd out) /\
  (alpha < r < beta -> r = v) /\ (r <= alpha -> v <= r) /\ (beta <= r -> r <= v).
Proof.
intros Ha Hab Hb Hq. cbv zeta.
destruct (ab_do_search_maxi_value evalfn half board alpha beta s Ha Hab Hb)
  as [H1 H2].
destruct (ab_do_search_maxi evalfn half board alpha beta s) as [[r m] s'].
cbn [fst snd] in *. specialize (H1 Hq). split; [exact H1|].
assert (live s') as Hl by (unfold live, quiet in *; congruence).
destruct (H2 Hl) as (G1 & G2 & G3). tauto.
Qed.

(** X16.  A node of [SearcherCachingMinimax] that starts with a cache of
    sound entries, on a board with a tile and cells low enough for the
    depth, not cancelled: it returns the minimax value of the board,
    whether it found it in the cache or computed it, and leaves a cache of
    sound entries. *)
Theorem caching_minimax_node_value (l : nat) (hi : Z) (board : list Z)
    (s : st cm_fields) :
  playable hi board -> budget hi l -> cm_ok evalfn s -> quiet s ->
  returns (cm_do_search_real evalfn l board s)
    (fun out =>
       fst (fst out) = value evalfn l board /\ cm_ok evalfn (snd out) /\ quiet (snd out)).
Proof.
intros Hb Hbud Hok Hq.
pose proof (cm_do_search_real_value evalfn l hi board s Hb Hbud Hok) as H.
destruct (cm_do_search_real evalfn l board s) as [out|]; [|exact H].
cbn [returns] in *. destruct H as (H1 & H2 & H3). specialize (H2 Hq).
assert (live (snd out)) as Hl by (unfold live, quiet in *; congruence).
split; [exact (proj1 (H3 Hl))|]. split; assumption.
Qed.

(** X17.  A node of [SearcherCachingAlphaBeta] with a window
    [alpha < beta] that starts with a cache of sound entries, on a board
    with a tile and cells up to [15 - half], not cancelled: it returns,
    its result is the minimax value when inside the window and a bound of
    it on the right side otherwise, and the cache it leaves has sound
    entries only. *)
Theorem caching_alpha_beta_node_value (half : nat) (board : list Z) (alpha beta : Z)
    (s : st cab_fields) :
  playable (15 - Z.of_nat half) board ->
  INT_MIN <= alpha -> alpha < beta -> beta <= INT_MAX ->
  cab_ok evalfn s -> quiet s ->
  returns (cab_do_search_maxi evalfn half board alpha beta s)
    (fun out =>
       let v := value evalfn (half * 2) board in
       let r := fst (fst out) in
       (alpha < r < beta -> r = v) /\ (r <= alpha -> v <= r) /\ (beta <= r -> r <= v) /\
       cab_ok evalfn (snd out) /\ quiet (snd out)).
Proof.
intros Hb Ha Hab Hbe Hok Hq.
assert (deep_enough half board) as Hdeep
  by (exists (15 - Z.of_nat half); split; [exact Hb|lia]).
pose proof (cab_do_search_maxi_value evalfn evalfn_int half board alpha beta s Hdeep
              Ha Hab Hbe Hok) as H.
destruct (cab_do_search_maxi evalfn half board alpha beta s) as [out|]; [|exact H].
cbn [returns] in *. cbv zeta. destruct H as (H1 & H2 & H3). specialize (H2 Hq).
assert (live (snd out)) as Hl by (unfold live, quiet in *; congruence).
destruct (H3 Hl) as [(G1 & G2 & G3) _]. tauto.
Qed.

End NodeProperties.

Section NodeExamples.

Import Searcher Minimax.

Lemma alpha_beta_answers_within_window_witness :
  let evalfn := fun b : list Z => fst (Board.count_free b) in
  let board := [1; 1; 0; 0; 0; 2; 0; 0; 0; 0; 0; 0; 0; 0; 0; 0] in
  let s := mkSt 0 None 0 in
  INT_MIN <= 3 /\ 3 < 13 /\ 13 <= INT_MAX /\ quiet s /\
  (3 < fst (fst (ab_do_search_maxi evalfn 1 board 3 13 s)) < 13 ->
   fst (fst (ab_do_search_maxi evalfn 1 board 3 13 s)) = value evalfn (1 * 2) board).
Proof.
cbv zeta.
assert (INT_MIN <= 3) as H1 by (unfold INT_MIN; lia).
assert (3 < 13) as H2 by lia.
assert (13 <= INT_MAX) as H3 by (unfold INT_MAX; lia).
assert (quiet (mkSt 0 None 0)) as H4 by reflexivity.
split; [exact H1|]. split; [exact H2|]. split; [exact H3|]. split; [exact H4|].
exact (proj1 (proj2 (alpha_beta_answers_within_window
                       (fun b : list Z => fst (Board.count_free b)) 1%nat
                       [1; 1; 0; 0; 0; 2; 0; 0; 0; 0; 0; 0; 0; 0; 0; 0] 3 13
                       (mkSt 0 None 0) H1 H2 H3 H4))).
Defined.

Lemma caching_minimax_node_value_witness :
  let evalfn := fun b : list Z => fst (Board.count_free b) in
  let board := [1; 1; 0; 0; 0; 2; 0; 0; 0; 0; 0; 0; 0; 0; 0; 0] in
  let s := mkSt 0 None (mkCmFields (BoardCache.reset cm_zero) []) in
  playable 14 board /\ budget 14 2 /\ cm_ok evalfn s /\ quiet s /\
  returns (cm_do_search_real evalfn 2 board s)
    (fun out => fst (fst out) = value evalfn 2 board).
Proof.
cbv zeta.
assert (playable 14 [1; 1; 0; 0; 0; 2; 0; 0; 0; 0; 0; 0; 0; 0; 0; 0]) as Hb.
{ split; [|discriminate]. split; [reflexivity|].
  repeat (apply Forall_cons; split; [lia|]). apply Forall_nil. exact I. }
assert (budget 14 2) as Hbud by (split; [cbn; lia|discriminate]).
assert (cm_ok (fun b : list Z => fst (Board.count_free b))
          (mkSt 0 None (mkCmFields (BoardCache.reset cm_zero) []))) as Hok
  by (split; [apply reset_wf|apply cache_all_reset]).
assert (quiet (mkSt 0 None (mkCmFields (BoardCache.reset cm_zero) []))) as Hq
  by reflexivity.
split; [exact Hb|]. split; [exact Hbud|]. split; [exact Hok|]. split; [exact Hq|].
pose proof (caching_minimax_node_value _ 2%nat 14 _ _ Hb Hbud Hok Hq) as H.
destruct (cm_do_search_real _ 2 _ _) as [out|]; [|exact H].
exact (proj1 H).
Defined.

Lemma caching_alpha_beta_node_value_witness :
  let evalfn := fun b : list Z => fst (Board.count_free b) in
  let board := [1; 1; 0; 0; 0; 2; 0; 0; 0; 0; 0; 0; 0; 0; 0; 0] in
  let s := mkSt 0 None (mkCabFields (BoardCache.reset cab_zero) [] 0) in
  (forall b, INT_MIN <= evalfn b <= INT_MAX) /\
  playable (15 - Z.of_nat 1) board /\
  INT_MIN <= 3 /\ 3 < 13 /\ 13 <= INT_MAX /\ cab_ok evalfn s /\ quiet s /\
  returns (cab_do_search_maxi evalfn 1 board 3 13 s)
    (fun out => 3 < fst (fst out) < 13 -> fst (fst out) = value evalfn (1 * 2) board).
Proof.
cbv zeta.
assert (forall b : list Z, INT_MIN <= fst (Board.count_free b) <= INT_MAX) as Hev.
{ intros b. rewrite count_free_spec. cbn [fst].
  pose proof (free_list_length b). unfold INT_MIN, INT_MAX. lia. }
assert (playable (15 - Z.of_nat 1) [1; 1; 0; 0; 0; 2; 0; 0; 0; 0; 0; 0; 0; 0; 0; 0])
  as Hb.
{ split; [|discriminate]. split; [reflexivity|].
  repeat (apply Forall_cons; split; [lia|]). apply Forall_nil. exact I. }
assert (INT_MIN <= 3) as H1 by (unfold INT_MIN; lia).
assert (3 < 13) as H2 by lia.
assert (13 <= INT_MAX) as H3 by (unfold INT_MAX; lia).
assert (cab_ok (fun b : list Z => fst (Board.count_free b))
          (mkSt 0 None (mkCabFields (BoardCache.reset cab_zero) [] 0))) as Hok
  by (split; [apply reset_wf|apply cache_all_reset]).
assert (quiet (mkSt 0 None (mkCabFields (BoardCache.reset cab_zero) [] 0))) as Hq
  by reflexivity.
split; [exact Hev|]. split; [exact Hb|]. split; [exact H1|]. split; [exact H2|].
split; [exact H3|]. split; [exact Hok|]. split; [exact Hq|].
pose proof (caching_alpha_beta_node_value _ Hev 1%nat _ 3 13 _ Hb H1 H2 H3 Hok Hq) as H.
destruct (cab_do_search_maxi _ 1 _ 3 13 _) as [out|]; [|exact H].
exact (proj1 H).
Defined.

End NodeExamples.

(** ** The end of the game and the evaluator *)

Section GameOver.

Import Board Line.

(** X18.  [Board::finished] is a sound test for the end of the game: on
    a board it calls finished, no cell empty and no two equal tiles next
    to each other, [tilt] moves nothing in any of the four directions. *)
Theorem finished_board_cannot_move (dir : Z) (b : t) :
  0 <= dir < 4 -> length b = 16%nat -> finished b = true ->
  tilt_moved (tilt (DIR_DX dir) (DIR_DY dir) b) = false.
Proof.
intros Hdir Hlen Hfin. unfold finished in Hfin.
apply andb_prop in Hfin. destruct Hfin as [Hfree Hmatch].
apply Z.eqb_eq in Hfree. apply negb_true_iff in Hmatch.
unfold has_direct_matches in Hmatch. apply orb_false_elim in Hmatch.
destruct Hmatch as [Hrow Hcol].
assert (forall i, 0 <= i < 16 -> get b i <> 0) as Hfull.
{ intros i Hi Hz. rewrite count_free_spec in Hfree. cbn [fst] in Hfree.
  assert (In i (free_list b)) as Hin by (apply free_list_in; split; assumption).
  destruct (free_list b); [destruct Hin|cbn [length] in Hfree; lia]. }
rewrite (tilt_dir dir b Hdir).
pose proof (grid_of_ok dir Hdir) as Hok.
pose proof (axis_matches_grid dir b Hdir) as Hax.
destruct (grid_of dir) as [[bg mj] mn].
destruct Hok as (H1 & H2 & H3 & _ & _).
pose proof (tilt_grid bg mj mn H1 H2 H3 b Hlen) as Hdone.
destruct (tilt_lines 4 bg mj mn 4 (b, false, 0, [])) as [[[b' mv] sc] an].
destruct Hdone as (_ & _ & Hmv & _). cbn [tilt_moved fst snd].
rewrite Hmv.
rewrite (existsb_agree _ (fun i => pair_walk 3 b (line bg mj i) mn)).
- rewrite Hax. unfold axis_matches. destruct (dir <? MOVE_UP); assumption.
- intros i Hin. apply in_seq in Hin. rewrite <- (pair_walk_read mn).
  unfold res, read. cbn [map]. apply squash_settled; [|reflexivity].
  assert (forall j, 0 <= j < 4 -> get b (phi (line bg mj i) mn j) <> 0) as Hline.
  { intros j Hj. apply Hfull. unfold phi, line. apply H2; lia. }
  pose proof (Hline 0 ltac:(lia)). pose proof (Hline 1 ltac:(lia)).
  pose proof (Hline 2 ltac:(lia)).
  unfold settled. tauto.
Qed.

Lemma finished_board_cannot_move_witness :
  let b := [1; 2; 1; 2; 2; 1; 2; 1; 1; 2; 1; 2; 2; 1; 2; 1] in
  0 <= MOVE_UP < 4 /\ length b = 16%nat /\ finished b = true /\
  tilt_moved (tilt (DIR_DX MOVE_UP) (DIR_DY MOVE_UP) b) = false.
Proof.
cbv zeta.
assert (0 <= MOVE_UP < 4) as Hd by (unfold MOVE_UP; lia).
assert (length [1; 2; 1; 2; 2; 1; 2; 1; 1; 2; 1; 2; 2; 1; 2; 1] = 16%nat) as Hl
  by reflexivity.
assert (finished [1; 2; 1; 2; 2; 1; 2; 1; 1; 2; 1; 2; 2; 1; 2; 1] = true) as Hf
  by (vm_compute; reflexivity).
split; [exact Hd|]. split; [exact Hl|]. split; [exact Hf|].
exact (finished_board_cannot_move MOVE_UP _ Hd Hl Hf).
Defined.

End GameOver.

Section EvalProperties.

Import Eval.

Lemma skip_empty_stops (fuel : nat) (b : list Z) (begin_ stride i n : Z) :
  0 <= i -> (Z.to_nat (n - i) <= fuel)%nat ->
  let r := skip_empty fuel b begin_ stride i n in
  i <= snd r /\ (snd r < n -> Board.get b (fst r) <> 0).
Proof.
revert begin_ i. induction fuel as [|fuel IH]; intros begin_ i Hi Hfuel; cbn [skip_empty].
- destruct (Z.eqb_spec (Board.get b begin_) 0) as [Hz|Hz],
           (Z.ltb_spec i n) as [Hlt|Hge]; cbn [andb fst snd]; split; try lia; tauto.
- destruct (Z.eqb_spec (Board.get b begin_) 0) as [Hz|Hz],
           (Z.ltb_spec i n) as [Hlt|Hge]; cbn [andb fst snd];
    try (split; [lia|]; intros; first [lia|assumption]).
  destruct (IH (begin_ + stride) (i + 1) ltac:(lia) ltac:(lia)) as [H1 H2].
  split; [lia|exact H2].
Qed.

Lemma walk_loop_step (fuel : nat) (b : list Z) (stride n : Z) (w : walk) :
  walk_loop (S fuel) b stride n w =
  if idx w <? n then walk_loop fuel b stride n (walk_body b stride w) else w.
Proof. reflexivity. Qed.

Lemma signum_zero : signum 0 = 0.
Proof. reflexivity. Qed.

(** The loop takes [total] down by at most one per remaining cell, and
    not at the first change of direction. *)
Lemma walk_loop_bound (fuel : nat) (b : list Z) (stride n : Z) (w : walk) :
  (Z.to_nat (n - idx w) <= fuel)%nat ->
  let w' := walk_loop fuel b stride n w in
  total w - (if last_sign w =? 0 then Z.max 0 (n - idx w - 1) else Z.max 0 (n - idx w))
    <= total w' <= total w.
Proof.
revert w. induction fuel as [|fuel IH]; intros w Hfuel; cbn [walk_loop];
  destruct (Z.ltb_spec (idx w) n) as [Hlt|Hge]; cbv zeta;
  try (destruct (last_sign w =? 0); lia).
specialize (IH (walk_body b stride w)).
unfold walk_body in *. cbv zeta in *.
destruct (Z.eqb_spec (Board.get b (at_ w)) 0) as [Hv|Hv]; cbn [negb] in *.
- cbn [idx total last_sign] in IH. specialize (IH ltac:(lia)).
  destruct (last_sign w =? 0); lia.
- destruct (Z.eqb_spec (signum (Board.get b (at_ w) - last_value w)) 0) as [Hs|Hs];
    cbn [negb] in *.
  + cbn [idx total last_sign] in IH. specialize (IH ltac:(lia)).
    destruct (last_sign w =? 0); lia.
  + cbn [idx total last_sign] in IH. specialize (IH ltac:(lia)).
    destruct (Z.eqb_spec (signum (Board.get b (at_ w) - last_value w)) 0) as [|_];
      [contradiction|].
    destruct (Z.eqb_spec (last_sign w) 0) as [Hl|Hl]; cbn [negb andb] in *.
    * lia.
    * destruct (last_sign w =? signum (Board.get b (at_ w) - last_value w));
        cbn [negb] in *; lia.
Qed.

Lemma monotonicity_range (b : list Z) (begin_ stride : Z) :
  0 <= monotonicity b begin_ stride 4 <= 2.
Proof.
unfold monotonicity.
pose proof (skip_empty_stops (Z.to_nat 4) b begin_ stride 0 4 ltac:(lia) ltac:(lia)) as Hs.
cbv zeta in Hs.
destruct (skip_empty (Z.to_nat 4) b begin_ stride 0 4) as [at0 i0].
cbn [fst snd] in Hs. destruct Hs as [Hi Hnz].
change (4 - 2) with 2. change (Z.to_nat 4) with 4%nat.
destruct (Z.ltb_spec i0 4) as [Hlt|Hge].
- specialize (Hnz Hlt). rewrite (walk_loop_step 3). cbn [idx].
  destruct (Z.ltb_spec i0 4) as [_|]; [|lia].
  assert (walk_body b stride (mkWalk at0 i0 (Board.get b at0) 0 2) =
          mkWalk (at0 + stride) (i0 + 1) (Board.get b at0) 0 2) as ->.
  { unfold walk_body. cbv zeta. cbn [at_ last_value last_sign total idx].
    destruct (Z.eqb_spec (Board.get b at0) 0) as [|_]; [contradiction|]. cbn [negb].
    rewrite Z.sub_diag, signum_zero. reflexivity. }
  pose proof (walk_loop_bound 3 b stride 4
                (mkWalk (at0 + stride) (i0 + 1) (Board.get b at0) 0 2)) as Hw.
  cbv zeta in Hw. cbn [idx total last_sign Z.eqb] in Hw.
  specialize (Hw ltac:(lia)). lia.
- pose proof (walk_loop_bound 4 b stride 4 (mkWalk at0 i0 (Board.get b at0) 0 2)) as Hw.
  cbv zeta in Hw. cbn [idx total last_sign Z.eqb] in Hw.
  specialize (Hw ltac:(lia)). lia.
Qed.

(** X19.  The evaluator of the game, [ai_eval_board], returns a score
    between 0 and 16 on every board: each of the four rows and four
    columns counts 2, less one for every change of direction among its
    tiles, of which a line of four has at most two. *)
Theorem ai_eval_board_range (b : list Z) :
  0 <= ai_eval_board b <= 16 /\ INT_MIN <= ai_eval_board b <= INT_MAX.
Proof.
assert (0 <= ai_eval_board b <= 16) as H.
{ unfold ai_eval_board, ai_score_monotonicity. cbv zeta. cbn [fold_left].
  change Board.TILES_X with 4. change Board.TILES_Y with 4.
  pose proof (monotonicity_range b (0 * 4) 1). pose proof (monotonicity_range b (1 * 4) 1).
  pose proof (monotonicity_range b (2 * 4) 1). pose proof (monotonicity_range b (3 * 4) 1).
  pose proof (monotonicity_range b 0 4). pose proof (monotonicity_range b 1 4).
  pose proof (monotonicity_range b 2 4). pose proof (monotonicity_range b 3 4).
  lia. }
split; [exact H|]. unfold INT_MIN, INT_MAX. lia.
Qed.

End EvalProperties.
